(** * vibe-git: repository state classification and action eligibility

    A shallow embedding of the parts of [vibe-git.py] that decide the
    dashboard's behaviour: the [RepoStatus] eligibility methods, the
    inspector [check_repo], the dirty-tree test, the destructive batch
    procedures [reset_to_remote] and [delete_local_folder], and the
    feature-branch helpers [get_next_feature_number] and
    [generate_speckit_branch_name].

    Python strings are sequences of Unicode code points, Python integers are
    unbounded: strings are [list N], integers are [Z]. *)

From Stdlib Require Import List NArith ZArith String Ascii Bool Lia.
From Stdlib Require Import Permutation Sorted.
From Stdlib Require Import DecimalZ.
Import ListNotations.

Set Implicit Arguments.

(* ===================================================================== *)
(** ** Python strings *)
(* ===================================================================== *)

Module PyStr.

Local Open Scope N_scope.

(** A Python [str]: its code points, in order. *)
Definition str := list N.

(** The code points of an ASCII literal of the source. *)
Definition cps (s : string) : str := map N_of_ascii (list_ascii_of_string s).
Arguments cps : simpl never.

(** [a == b] on strings. *)
Fixpoint str_eqb (a b : str) : bool :=
  match a, b with
  | [], [] => true
  | x :: a', y :: b' => (x =? y) && str_eqb a' b'
  | _, _ => false
  end.

(** [s.startswith(p)]. *)
Fixpoint startswith (s p : str) : bool :=
  match p, s with
  | [], _ => true
  | _ :: _, [] => false
  | y :: p', x :: s' => (x =? y) && startswith s' p'
  end.

(** [p in s]: [p] occurs in [s] as a contiguous substring. *)
Fixpoint contains (s p : str) : bool :=
  startswith s p ||
  match s with
  | [] => false
  | _ :: s' => contains s' p
  end.

(** [x in (a, b, ...)] and [x in {a, b, ...}] for strings. *)
Definition in_tuple (x : str) (t : list str) : bool := existsb (str_eqb x) t.

(** [len(s)]. *)
Definition len (s : str) : Z := Z.of_nat (List.length s).

(** [bool(s)]: a string is true when it is not empty. *)
Definition truthy (s : str) : bool :=
  match s with [] => false | _ :: _ => true end.

(** [a or b] on strings. *)
Definition str_or (a b : str) : str := if truthy a then a else b.

(** [str.isspace] on one code point, the set [str.strip()] removes
    (CPython's [_PyUnicode_IsWhitespace]). *)
Definition is_space (c : N) : bool :=
  ((9 <=? c) && (c <=? 13)) || ((28 <=? c) && (c <=? 32)) ||
  (c =? 133) || (c =? 160) || (c =? 5760) ||
  ((8192 <=? c) && (c <=? 8202)) ||
  (c =? 8232) || (c =? 8233) || (c =? 8239) || (c =? 8287) || (c =? 12288).

(** [s.lstrip()]. *)
Fixpoint lstrip (s : str) : str :=
  match s with
  | [] => []
  | c :: s' => if is_space c then lstrip s' else s
  end.

(** [s.rstrip()]. *)
Definition rstrip (s : str) : str := rev (lstrip (rev s)).

(** [s.strip()]. *)
Definition strip (s : str) : str := rstrip (lstrip s).

(** [s.lstrip(chars)]: drops leading code points that occur in [chars]. *)
Fixpoint lstrip_chars (chars s : str) : str :=
  match s with
  | [] => []
  | c :: s' => if existsb (N.eqb c) chars then lstrip_chars chars s' else s
  end.

(** [s.replace(old, "")] for a non-empty [old]: every non-overlapping
    occurrence, leftmost first, is deleted.  [skip] counts the code points
    of the occurrence being deleted that are still to be passed. *)
Fixpoint remove_all_aux (old : str) (skip : nat) (s : str) : str :=
  match s with
  | [] => []
  | c :: s' =>
      match skip with
      | S k => remove_all_aux old k s'
      | O =>
          if startswith s old
          then remove_all_aux old (Nat.pred (List.length old)) s'
          else c :: remove_all_aux old O s'
      end
  end.

Definition remove_all (old s : str) : str := remove_all_aux old O s.

(** The line boundaries of [str.splitlines()]. *)
Definition is_linebreak (c : N) : bool :=
  (c =? 10) || (c =? 11) || (c =? 12) || (c =? 13) ||
  (c =? 28) || (c =? 29) || (c =? 30) ||
  (c =? 133) || (c =? 8232) || (c =? 8233).

(** [s.splitlines()]: [cur] is the line being read, reversed.  A carriage
    return followed by a line feed is one boundary; no empty last line is
    produced after a final boundary. *)
Fixpoint splitlines_aux (cur : str) (s : str) : list str :=
  match s with
  | [] => match cur with [] => [] | _ :: _ => [rev cur] end
  | c :: s' =>
      if is_linebreak c then
        rev cur ::
        match s' with
        | d :: s'' =>
            if (c =? 13) && (d =? 10) then splitlines_aux [] s''
            else splitlines_aux [] s'
        | [] => splitlines_aux [] s'
        end
      else splitlines_aux (c :: cur) s'
  end.

Definition splitlines (s : str) : list str := splitlines_aux [] s.

(** [sep.join(ws)]. *)
Fixpoint join (sep : str) (ws : list str) : str :=
  match ws with
  | [] => []
  | [w] => w
  | w :: ws' => w ++ sep ++ join sep ws'
  end.

(** [s.split(sep)] for a separator of one code point; [cur] is the part
    being read, reversed. *)
Fixpoint split_on_aux (sep : N) (cur : str) (s : str) : list str :=
  match s with
  | [] => [rev cur]
  | c :: s' =>
      if c =? sep then rev cur :: split_on_aux sep [] s'
      else split_on_aux sep (c :: cur) s'
  end.

Definition split_on (sep : N) (s : str) : list str := split_on_aux sep [] s.

(** [bool(l)] for a list: true when it is not empty. *)
Definition nonempty {A} (l : list A) : bool :=
  match l with [] => false | _ :: _ => true end.

(** [s.split(":", 1)[1]]: what follows the first colon ([None] when there
    is no colon: the index is out of range). *)
Fixpoint after_colon (s : str) : option str :=
  match s with
  | [] => None
  | c :: s' => if c =? 58 then Some s' else after_colon s'
  end.

(** ASCII letters and digits. *)
Definition is_upper (c : N) : bool := (65 <=? c) && (c <=? 90).
Definition is_lower (c : N) : bool := (97 <=? c) && (c <=? 122).
Definition is_alpha (c : N) : bool := is_upper c || is_lower c.
Definition is_ascii (c : N) : bool := c <? 128.
Definition is_ascii_digit (c : N) : bool := (48 <=? c) && (c <=? 57).

(** What the Unicode character database decides outside ASCII.  The code
    consults it through [str.lower], [str.isdigit], [int] and the regular
    expression class [\d]. *)
Class Unicode := {
  (** [s.lower()] of a string holding a code point outside ASCII (the
      lower-casing of the whole string: it depends on context). *)
  uni_lower : str -> str;
  (** the digit value of a code point outside ASCII of category Nd *)
  uni_decimal : N -> option N;
  (** a code point outside ASCII that [str.isdigit] accepts although it is
      not of category Nd (a superscript digit, say) *)
  uni_digit : N -> bool
}.

Section WithUnicode.
Context {U : Unicode}.

(** [s.lower()]. *)
Definition lower (s : str) : str :=
  if forallb is_ascii s
  then map (fun c => if is_upper c then c + 32 else c) s
  else uni_lower s.

(** The digit value of a code point of category Nd: what [\d] matches and
    what [int] reads. *)
Definition decimal_value (c : N) : option N :=
  if is_ascii c
  then (if is_ascii_digit c then Some (c - 48) else None)
  else uni_decimal c.

Definition is_decimal (c : N) : bool :=
  match decimal_value c with Some _ => true | None => false end.

(** [s.isdigit()]. *)
Definition isdigit (s : str) : bool :=
  truthy s &&
  forallb (fun c => is_decimal c || (negb (is_ascii c) && uni_digit c)) s.

(** The value of a run of decimal digits read after [acc]; [None] when a
    code point is not a decimal digit. *)
Fixpoint digits_value (acc : Z) (s : str) : option Z :=
  match s with
  | [] => Some acc
  | c :: s' =>
      match decimal_value c with
      | Some d => digits_value (10 * acc + Z.of_N d)%Z s'
      | None => None
      end
  end.

(** [int(s)] for a string without sign, blank or underscore (the only
    strings the source passes: they satisfy [isdigit] or matched [\d{3}]);
    [None] stands for [ValueError]. *)
Definition int (s : str) : option Z :=
  if truthy s then digits_value 0%Z s else None.

End WithUnicode.

(** [str(n)] and [f"{n}"] for an integer. *)
Fixpoint uint_cps (u : Decimal.uint) : str :=
  match u with
  | Decimal.Nil => []
  | Decimal.D0 u => 48 :: uint_cps u
  | Decimal.D1 u => 49 :: uint_cps u
  | Decimal.D2 u => 50 :: uint_cps u
  | Decimal.D3 u => 51 :: uint_cps u
  | Decimal.D4 u => 52 :: uint_cps u
  | Decimal.D5 u => 53 :: uint_cps u
  | Decimal.D6 u => 54 :: uint_cps u
  | Decimal.D7 u => 55 :: uint_cps u
  | Decimal.D8 u => 56 :: uint_cps u
  | Decimal.D9 u => 57 :: uint_cps u
  end.

Definition str_of_int (z : Z) : str :=
  match Z.to_int z with
  | Decimal.Pos u => uint_cps u
  | Decimal.Neg u => 45 :: uint_cps u
  end.

End PyStr.
Import PyStr.

(* ===================================================================== *)
(** ** The platform: paths, the file system, the git gateway *)
(* ===================================================================== *)

(** How [subprocess.run] ends: the process exits with a return code and
    its two captured streams, or the timeout expires, or another exception
    is raised ([e] is its text). *)
Inductive Completed :=
| Exited (returncode : Z) (stdout stderr : str)
| TimeoutExpired
| Failed (e : str).

(** What the program reaches outside itself: [pathlib] paths, the file
    system, [shutil.rmtree], the git process behind [run_git] and the two
    processes of [get_pr_status].  [World] is everything those commands
    read and change; a command maps a world to its answer and the world it
    leaves. *)
Class Platform := {
  Path : Type;
  World : Type;
  (** [p.name], [p.parent], [p / s], [Path(s)], [str(p)] *)
  path_name : Path -> str;
  path_parent : Path -> Path;
  path_join : Path -> str -> Path;
  path_of_str : str -> Path;
  path_str : Path -> str;
  (** [subprocess.run(["git"] + args, cwd=cwd, capture_output=True,
      text=True, timeout=30)] *)
  subprocess_git : list str -> Path -> World -> Completed * World;
  (** [p.exists()], [p.is_file()], [p.is_dir()]; [None] when they raise
      [OSError]: [pathlib] answers [False] for a missing path and lets
      other errors of [stat] through (a name that is too long, a
      directory that may not be searched) *)
  fs_exists : Path -> World -> option bool;
  fs_is_file : Path -> World -> option bool;
  fs_is_dir : Path -> World -> option bool;
  (** [p.read_text()] and [p.iterdir()]; [None] when they raise *)
  fs_read_text : Path -> World -> option str;
  fs_iterdir : Path -> World -> option (list Path);
  (** [shutil.rmtree(p)]; [Some e] when it raises, [e] the text of the
      exception *)
  fs_rmtree : Path -> World -> option str * World;
  (** [subprocess.run(["which", "gh"], capture_output=True).returncode];
      [None] when the call raises [OSError] (there is no [which]) *)
  which_gh : World -> option Z * World;
  (** the [try] block of [get_pr_status]: the process [gh pr list] for a
      branch, run in a directory, and the text made of its answer, ["?"]
      when anything there raises *)
  hosting_pr_status : str -> Path -> World -> str * World
}.

Section Engine.
Context {U : Unicode} {PF : Platform}.

(** *** Effects: the world, the commands run so far, exceptions *)

(** A command as it is issued, with its answer: the success flag and
    output of a git command, the exception text of a directory removal,
    the command line of another process. *)
Inductive Event :=
| EvGit (args : list str) (cwd : Path) (answer : bool * str)
| EvRmtree (p : Path) (raised : option str)
| EvProcess (argv : list str).

(** [trace] lists the commands issued so far, oldest first. *)
Record St := { world : World; trace : list Event }.

Inductive Exc := ValueError | OSError | IndexError.

Inductive Res (A : Type) :=
| Ret (a : A)
| Raise (e : Exc).
Arguments Raise {A} e.

Definition M (A : Type) : Type := St -> Res A * St.

Definition ret {A} (a : A) : M A := fun st => (Ret a, st).

Definition raise {A} (e : Exc) : M A := fun st => (Raise e, st).

Definition bind {A B} (m : M A) (f : A -> M B) : M B :=
  fun st =>
    match m st with
    | (Ret a, st') => f a st'
    | (Raise e, st') => (Raise e, st')
    end.

Notation "x <- c1 ;; c2" := (bind c1 (fun x => c2))
  (at level 61, c1 at next level, right associativity).
Notation "' pat <- c1 ;; c2" :=
  (bind c1 (fun x => match x with pat => c2 end))
  (at level 61, pat pattern, c1 at next level, right associativity).

(** What [run_git] returns for an ended process (lines 602-617): on
    success the stripped output; on failure the first line of the
    diagnostic that starts with a severity marker, else its last line that
    is not blank. *)
Definition git_answer (c : Completed) : bool * str :=
  match c with
  | Exited returncode stdout stderr =>
      if (returncode =? 0)%Z then (true, strip stdout)
      else
        let error := str_or (strip stderr) (strip stdout) in
        match
          find (fun line =>
                  startswith line (cps "fatal:") ||
                  startswith line (cps "error:") ||
                  startswith line (cps "warning:"))
               (split_on 10 error)
        with
        | Some line => (false, line)
        | None =>
            let lines :=
              filter (fun l => truthy (strip l)) (split_on 10 error) in
            (false, if nonempty lines then last lines [] else cps "Unknown error")
        end
  | TimeoutExpired => (false, cps "Command timed out after 30s")
  | Failed e => (false, e)
  end.

(** The gateway: a git command and its answer, as [run_git] gives it. *)
Definition git (args : list str) (cwd : Path) (w : World)
  : (bool * str) * World :=
  let '(c, w') := subprocess_git args cwd w in (git_answer c, w').

(** [run_git(args, cwd)], every call of which is recorded. *)
Definition run_git (args : list str) (cwd : Path) : M (bool * str) :=
  fun st =>
    let '(r, w) := git args cwd (world st) in
    (Ret r, {| world := w; trace := trace st ++ [EvGit args cwd r] |}).

(** A query of the file system whose failure the caller handles. *)
Definition ask {A} (q : World -> A) : M A := fun st => (Ret (q (world st)), st).

(** A query of the file system that raises [OSError] when it fails. *)
Definition ask_or_raise {A} (q : World -> option A) : M A :=
  fun st =>
    match q (world st) with
    | Some a => (Ret a, st)
    | None => (Raise OSError, st)
    end.

(** [shutil.rmtree(p)] inside [try ... except Exception as e]: the text of
    the exception, if any. *)
Definition rmtree (p : Path) : M (option str) :=
  fun st =>
    let '(r, w) := fs_rmtree p (world st) in
    (Ret r, {| world := w; trace := trace st ++ [EvRmtree p r] |}).

(** [parts[1]] of a split that may have produced one part only. *)
Definition index_1 (second : option str) : M str :=
  match second with
  | Some s => ret s
  | None => raise IndexError
  end.

(** [int(s)]. *)
Definition py_int (s : str) : M Z :=
  match int s with
  | Some z => ret z
  | None => raise ValueError
  end.

(** A [for] loop that updates one variable. *)
Fixpoint for_each {A S} (body : S -> A -> M S) (s : S) (l : list A) : M S :=
  match l with
  | [] => ret s
  | a :: l' => s' <- body s a ;; for_each body s' l'
  end.

(** *** RepoStatus (lines 468-577) *)

Record RepoStatus := {
  name : str;
  path : Path;
  type_label : str;
  branch : str;
  remote_exists : bool;
  sync_status : str;
  rebase_status : str;
  pr_status : str;
  main_branch : str;
  has_changes : bool
}.

Definition is_none {A} (o : option A) : bool :=
  match o with None => true | Some _ => false end.

Definition why_not_pull (self : RepoStatus) : option str :=
  if negb (remote_exists self) then Some (cps "no remote branch")
  else if negb (contains (sync_status self) (cps "Behind"))
  then Some (cps "already synced")
  else if contains (sync_status self) (cps "Diverged")
  then Some (cps "diverged (use force push)")
  else if has_changes self then Some (cps "has uncommitted changes")
  else None.

Definition can_pull (self : RepoStatus) : bool := is_none (why_not_pull self).

Definition why_not_rebase (self : RepoStatus) : option str :=
  let is_on_main :=
    in_tuple (branch self)
             [main_branch self; cps "main"; cps "dev"; cps "master"] in
  if is_on_main then Some (cps "on main branch")
  else if has_changes self then Some (cps "has uncommitted changes")
  else
    let is_behind_remote :=
      contains (sync_status self) (cps "Behind") &&
      negb (contains (sync_status self) (cps "Diverged")) in
    let is_behind_main :=
      in_tuple (sync_status self) [cps "Synced"; cps "-"] &&
      contains (rebase_status self) (cps "Behind") in
    if negb (is_behind_remote || is_behind_main)
    then Some (cps "already rebased")
    else None.

Definition can_rebase (self : RepoStatus) : bool :=
  is_none (why_not_rebase self).

Definition why_not_force_push (self : RepoStatus) : option str :=
  if negb (remote_exists self) then Some (cps "no remote branch")
  else
    let is_protected :=
      in_tuple (branch self) [cps "main"; cps "master"; cps "dev"] in
    if is_protected then Some (cps "protected branch")
    else if negb (contains (sync_status self) (cps "Ahead")) &&
            negb (contains (sync_status self) (cps "Diverged"))
    then Some (cps "nothing to push")
    else None.

Definition can_force_push (self : RepoStatus) : bool :=
  is_none (why_not_force_push self).

Definition why_not_create_remote (self : RepoStatus) : option str :=
  if remote_exists self then Some (cps "remote already exists")
  else if in_tuple (branch self) [cps "HEAD"; cps "DETACHED"]
  then Some (cps "detached HEAD")
  else None.

Definition can_create_remote (self : RepoStatus) : bool :=
  is_none (why_not_create_remote self).

Definition why_not_stash (self : RepoStatus) : option str :=
  if negb (has_changes self) then Some (cps "no changes to stash") else None.

Definition can_stash (self : RepoStatus) : bool := is_none (why_not_stash self).

Definition why_not_discard (self : RepoStatus) : option str :=
  if negb (has_changes self) then Some (cps "no changes to discard") else None.

Definition can_discard (self : RepoStatus) : bool :=
  is_none (why_not_discard self).

Definition why_not_reset_to_remote (self : RepoStatus) : option str :=
  if negb (remote_exists self) then Some (cps "no remote branch to reset to")
  else None.

Definition can_reset_to_remote (self : RepoStatus) : bool :=
  is_none (why_not_reset_to_remote self).

Definition why_not_delete_local (self : RepoStatus) : option str :=
  if negb (remote_exists self)
  then Some (cps "no remote branch (data would be lost)")
  else if has_changes self then Some (cps "has uncommitted changes")
  else if negb (str_eqb (sync_status self) (cps "Synced"))
  then Some (cps "not synced with remote (" ++ sync_status self ++ cps ")")
  else None.

Definition can_delete_local (self : RepoStatus) : bool :=
  is_none (why_not_delete_local self).

Definition why_not_create_worktree (self : RepoStatus) : option str :=
  if str_eqb (type_label self) (cps "Worktree")
  then Some (cps "already a worktree")
  else if in_tuple (branch self) [cps "HEAD"; cps "DETACHED"]
  then Some (cps "detached HEAD")
  else None.

Definition can_create_worktree (self : RepoStatus) : bool :=
  is_none (why_not_create_worktree self).

(** *** The inspector (lines 620-677 and 1044-1116) *)

(** [get_main_branch(repo_path, is_worktree)].  The test [is_file()]
    stands before the [try] block and may raise; the block encloses the
    reading of the pointer file: an exception there leaves ["main"]. *)
Definition get_main_branch (repo_path : Path) (is_worktree : bool) : M str :=
  if contains (path_name repo_path) (cps "monorepo") then ret (cps "dev")
  else if is_worktree then
    let git_file := path_join repo_path (cps ".git") in
    is_file <- ask_or_raise (fs_is_file git_file) ;;
    if is_file then
      text <- ask (fs_read_text git_file) ;;
      match text with
      | None => ret (cps "main")
      | Some text =>
          let content := strip text in
          if startswith content (cps "gitdir:") then
            match after_colon content with
            | None => ret (cps "main")
            | Some rest =>
                let worktree_git_dir := path_of_str (strip rest) in
                let parent_repo :=
                  path_parent (path_parent (path_parent worktree_git_dir)) in
                if contains (path_name parent_repo) (cps "monorepo")
                then ret (cps "dev")
                else ret (cps "main")
            end
          else ret (cps "main")
      end
    else ret (cps "main")
  else ret (cps "main").

(** The loop of [has_uncommitted_changes] over the lines of the status
    output. *)
Fixpoint has_change_line (lines : list str) : bool :=
  match lines with
  | [] => false
  | line :: rest =>
      if truthy line && negb (startswith line (cps "??")) &&
         negb (startswith line (cps "!!"))
      then true
      else has_change_line rest
  end.

(** The decision of [has_uncommitted_changes] from the answer of the
    status query. *)
Definition changes_of_status (ok : bool) (output : str) : bool :=
  if negb ok then true else has_change_line (splitlines output).

Definition has_uncommitted_changes (repo_path : Path) : M bool :=
  ' (ok, output) <- run_git [cps "status"; cps "--porcelain"] repo_path ;;
  ret (changes_of_status ok output).

(** The command line of the query for a branch's pull request. *)
Definition gh_pr_list (branch : str) : list str :=
  [cps "gh"; cps "pr"; cps "list"; cps "--head"; branch; cps "--state";
   cps "all"; cps "--json"; cps "state,number"; cps "--limit"; cps "1"].

(** [subprocess.run(["which", "gh"], capture_output=True).returncode],
    outside any [try]. *)
Definition run_which_gh : M Z :=
  fun st =>
    let '(r, w) := which_gh (world st) in
    let st' :=
      {| world := w;
         trace := trace st ++ [EvProcess [cps "which"; cps "gh"]] |} in
    match r with
    | Some returncode => (Ret returncode, st')
    | None => (Raise OSError, st')
    end.

(** The [try] block of [get_pr_status] (lines 661-677). *)
Definition run_gh_pr_list (branch : str) (cwd : Path) : M str :=
  fun st =>
    let '(r, w) := hosting_pr_status branch cwd (world st) in
    (Ret r, {| world := w;
               trace := trace st ++ [EvProcess (gh_pr_list branch)] |}).

(** [get_pr_status(branch, cwd)] (lines 656-677). *)
Definition get_pr_status (branch : str) (cwd : Path) : M str :=
  if in_tuple branch
       [cps "main"; cps "dev"; cps "master"; cps "DETACHED"; cps "HEAD"]
  then ret (cps "-")
  else
    returncode <- run_which_gh ;;
    if negb (returncode =? 0)%Z then ret (cps "?")
    else run_gh_pr_list branch cwd.

(** [int(s) if ok and s.isdigit() else 0]. *)
Definition count_of (ok : bool) (s : str) : M Z :=
  if ok && isdigit s then py_int s else ret 0%Z.

(** The classification of lines 1073-1080. *)
Definition sync_of_counts (ahead behind : Z) : str :=
  if (0 <? ahead)%Z && (0 <? behind)%Z
  then cps "Diverged (+" ++ str_of_int ahead ++ cps "/-" ++
       str_of_int behind ++ cps ")"
  else if (0 <? ahead)%Z then cps "Ahead (+" ++ str_of_int ahead ++ cps ")"
  else if (0 <? behind)%Z then cps "Behind (-" ++ str_of_int behind ++ cps ")"
  else cps "Synced".

Definition check_repo (repo_path : Path) (is_worktree : bool)
  : M (option RepoStatus) :=
  let type_label := if is_worktree then cps "Worktree" else cps "Repo" in
  let name := path_name repo_path in
  main_branch <- get_main_branch repo_path is_worktree ;;
  ' (ok, branch) <-
    run_git [cps "rev-parse"; cps "--abbrev-ref"; cps "HEAD"] repo_path ;;
  if negb ok then ret None
  else
    let branch := str_or branch (cps "DETACHED") in
    _ <- run_git [cps "fetch"; cps "--all"; cps "--quiet"] repo_path ;;
    ' (ok, remote_check) <-
      run_git [cps "ls-remote"; cps "--heads"; cps "origin"; branch]
              repo_path ;;
    let remote_exists := if ok then contains remote_check branch else false in
    let remote_branch := cps "origin/" ++ branch in
    sync_status <-
      (if remote_exists then
         ' (ok, local_commit) <-
           run_git [cps "rev-parse"; cps "HEAD"] repo_path ;;
         ' (ok2, remote_commit) <-
           run_git [cps "rev-parse"; remote_branch] repo_path ;;
         if ok && ok2 && str_eqb local_commit remote_commit
         then ret (cps "Synced")
         else
           ' (ok, ahead) <-
             run_git [cps "rev-list"; cps "--count";
                      remote_branch ++ cps "..HEAD"] repo_path ;;
           ahead <- count_of ok ahead ;;
           ' (ok, behind) <-
             run_git [cps "rev-list"; cps "--count";
                      cps "HEAD.." ++ remote_branch] repo_path ;;
           behind <- count_of ok behind ;;
           ret (sync_of_counts ahead behind)
       else ret (cps "-")) ;;
    let origin_main := cps "origin/" ++ main_branch in
    let is_on_main_branch :=
      in_tuple branch [main_branch; cps "main"; cps "dev"; cps "master"] in
    rebase_status <-
      (if is_on_main_branch then ret (cps "-")
       else
         ' (ok, _) <- run_git [cps "rev-parse"; origin_main] repo_path ;;
         if ok then
           ' (ok, main_commit) <-
             run_git [cps "rev-parse"; origin_main] repo_path ;;
           ' (ok2, merge_base) <-
             run_git [cps "merge-base"; cps "HEAD"; origin_main] repo_path ;;
           if ok && ok2 && str_eqb merge_base main_commit
           then ret (cps "Rebased")
           else
             ' (ok, behind_main) <-
               run_git [cps "rev-list"; cps "--count";
                        cps "HEAD.." ++ origin_main] repo_path ;;
             behind_main <- count_of ok behind_main ;;
             ret (cps "Behind " ++ main_branch ++ cps " (-" ++
                  str_of_int behind_main ++ cps ")")
         else ret (cps "No " ++ main_branch)) ;;
    pr_status <- get_pr_status branch repo_path ;;
    has_changes <- has_uncommitted_changes repo_path ;;
    ret (Some {| name := name;
                 path := repo_path;
                 type_label := type_label;
                 branch := branch;
                 remote_exists := remote_exists;
                 sync_status := sync_status;
                 rebase_status := rebase_status;
                 pr_status := pr_status;
                 main_branch := main_branch;
                 has_changes := has_changes |}).

(** *** Destructive procedures (lines 1204-1259) *)

Definition reset_to_remote (repo : RepoStatus) : M (bool * str) :=
  ' (ok, output) <- run_git [cps "fetch"; cps "origin"] (path repo) ;;
  if negb ok then ret (false, cps "Fetch failed: " ++ output)
  else
    ' (ok, output) <-
      run_git [cps "reset"; cps "--hard"; cps "origin/" ++ branch repo]
              (path repo) ;;
    if negb ok then ret (false, cps "Reset failed: " ++ output)
    else
      ' (ok, output) <- run_git [cps "clean"; cps "-fd"] (path repo) ;;
      if negb ok then ret (false, cps "Clean failed: " ++ output)
      else ret (true, cps "Reset to origin/" ++ branch repo).

(** The fallback of [delete_local_folder] and its plain-repository branch:
    [shutil.rmtree] under [try ... except]. *)
Definition rmtree_reporting (repo : RepoStatus) (done : str) : M (bool * str) :=
  e <- rmtree (path repo) ;;
  match e with
  | None => ret (true, done ++ name repo)
  | Some e => ret (false, cps "Delete failed: " ++ e)
  end.

Definition delete_local_folder (repo : RepoStatus) : M (bool * str) :=
  if str_eqb (type_label repo) (cps "Worktree") then
    let fallback := rmtree_reporting repo (cps "Worktree folder deleted: ") in
    ' (ok, git_dir) <- run_git [cps "rev-parse"; cps "--git-dir"] (path repo) ;;
    if ok && truthy git_dir then
      let git_file := path_join (path repo) (cps ".git") in
      is_file <- ask_or_raise (fs_is_file git_file) ;;
      if is_file then
        text <- ask_or_raise (fs_read_text git_file) ;;
        let content := strip text in
        if startswith content (cps "gitdir:") then
          rest <- index_1 (after_colon content) ;;
          let worktree_git_dir := path_of_str (strip rest) in
          let main_repo :=
            path_parent (path_parent (path_parent worktree_git_dir)) in
          main_exists <- ask_or_raise (fs_exists main_repo) ;;
          if main_exists then
            ' (ok, output) <-
              run_git [cps "worktree"; cps "remove"; cps "--force";
                       path_str (path repo)] main_repo ;;
            if ok then ret (true, cps "Worktree removed: " ++ name repo)
            else ret (false, cps "Worktree remove failed: " ++ output)
          else fallback
        else fallback
      else fallback
    else fallback
  else rmtree_reporting repo (cps "Repo deleted: ").

(** *** Feature numbering and naming (lines 728-779) *)

(** [re.match(r"^(\d{3})-", s)]: the first group of the match. *)
Definition match_feature_prefix (s : str) : option str :=
  match s with
  | a :: b :: c :: d :: _ =>
      if is_decimal a && is_decimal b && is_decimal c && (d =? 45)%N
      then Some [a; b; c]
      else None
  | _ => None
  end.

(** The body shared by the two loops: the match, [int] and [max]. *)
Definition bump_highest (highest : Z) (candidate : str) : M Z :=
  match match_feature_prefix candidate with
  | Some g => num <- py_int g ;; ret (Z.max highest num)
  | None => ret highest
  end.

(** [line.strip().lstrip("* ").replace("remotes/origin/", "")]. *)
Definition clean_branch_line (line : str) : str :=
  remove_all (cps "remotes/origin/") (lstrip_chars (cps "* ") (strip line)).

Definition get_next_feature_number (repo_path scan_dir : Path) : M Z :=
  let highest := 0%Z in
  ' (ok, branches) <- run_git [cps "branch"; cps "-a"] repo_path ;;
  highest <-
    (if ok then
       for_each (fun highest line => bump_highest highest (clean_branch_line line))
                highest (splitlines branches)
     else ret highest) ;;
  items <- ask_or_raise (fs_iterdir scan_dir) ;;
  highest <-
    for_each
      (fun highest item =>
         item_is_dir <- ask_or_raise (fs_is_dir item) ;;
         if negb item_is_dir then ret highest
         else
           let specs_dir := path_join item (cps "specs") in
           specs_exists <- ask_or_raise (fs_exists specs_dir) ;;
           if specs_exists then
             spec_items <- ask_or_raise (fs_iterdir specs_dir) ;;
             for_each
               (fun highest spec_item =>
                  spec_is_dir <- ask_or_raise (fs_is_dir spec_item) ;;
                  if spec_is_dir
                  then bump_highest highest (path_name spec_item)
                  else ret highest)
               highest spec_items
           else ret highest)
      highest items ;;
  ret (highest + 1)%Z.

Definition stop_words : list str :=
  map cps
    ["i"; "a"; "an"; "the"; "to"; "for"; "of"; "in"; "on"; "at"; "by"; "with";
     "from"; "is"; "are"; "was"; "were"; "be"; "been"; "being"; "have"; "has";
     "had"; "do"; "does"; "did"; "will"; "would"; "should"; "could"; "can";
     "may"; "might"; "must"; "shall"; "this"; "that"; "these"; "those"; "my";
     "your"; "our"; "their"; "want"; "need"; "add"; "get"; "set"; "build";
     "create"; "implement"; "develop"; "make"; "new"]%string.

(** [re.findall(r"[a-zA-Z]+", s)]: the maximal runs of ASCII letters;
    [cur] is the run being read, reversed. *)
Fixpoint findall_alpha_aux (cur : str) (s : str) : list str :=
  match s with
  | [] => match cur with [] => [] | _ :: _ => [rev cur] end
  | c :: s' =>
      if is_alpha c then findall_alpha_aux (c :: cur) s'
      else
        match cur with
        | [] => findall_alpha_aux [] s'
        | _ :: _ => rev cur :: findall_alpha_aux [] s'
        end
  end.

Definition findall_alpha (s : str) : list str := findall_alpha_aux [] s.

Definition generate_speckit_branch_name (description : str) : str :=
  let words := findall_alpha (lower description) in
  let meaningful :=
    filter (fun w => negb (in_tuple w stop_words) && (3 <=? len w)%Z) words in
  let meaningful :=
    if negb (nonempty meaningful)
    then firstn 3 (filter (fun w => (2 <=? len w)%Z) words)
    else meaningful in
  let result :=
    if nonempty meaningful then join (cps "-") (firstn 4 meaningful)
    else cps "feature" in
  result.

End Engine.

Arguments Raise {A} e.

(* ===================================================================== *)
(** ** The rest of the engine: display, procedures, provisioning *)
(* ===================================================================== *)

(** [rich.text.Text(text, style=...)]: the text and the name of its style
    (empty when none is given). *)
Record Text := { plain : str; style : str }.

Section Procedures.
Context {U : Unicode} {PF : Platform}.

Local Notation "x <- c1 ;; c2" := (bind c1 (fun x => c2))
  (at level 61, c1 at next level, right associativity).
Local Notation "' pat <- c1 ;; c2" :=
  (bind c1 (fun x => match x with pat => c2 end))
  (at level 61, pat pattern, c1 at next level, right associativity).

(** *** Colours (lines 440-465) *)

Definition colorize_sync (status : str) : Text :=
  if str_eqb status (cps "Synced")
  then {| plain := status; style := cps "green" |}
  else if str_eqb status (cps "-")
  then {| plain := status; style := cps "dim" |}
  else if contains status (cps "Diverged")
  then {| plain := status; style := cps "bold red" |}
  else if contains status (cps "Behind")
  then {| plain := status; style := cps "red" |}
  else if contains status (cps "Ahead")
  then {| plain := status; style := cps "yellow" |}
  else {| plain := status; style := [] |}.

Definition colorize_rebase (status : str) : Text :=
  if str_eqb status (cps "Rebased")
  then {| plain := status; style := cps "green" |}
  else if str_eqb status (cps "-")
  then {| plain := status; style := cps "dim" |}
  else if contains status (cps "Behind")
  then {| plain := status; style := cps "red" |}
  else if contains status (cps "No ")
  then {| plain := status; style := cps "dim yellow" |}
  else {| plain := status; style := [] |}.

(** *** Mutating procedures (lines 1148-1201) *)

Definition pull_rebase (repo : RepoStatus) : M (bool * str) :=
  _ <- run_git [cps "fetch"; cps "origin"] (path repo) ;;
  ' (ok, output) <-
    run_git [cps "pull"; cps "--rebase"; cps "origin"; branch repo]
            (path repo) ;;
  if ok then ret (true, cps "Pulled successfully")
  else
    _ <- run_git [cps "rebase"; cps "--abort"] (path repo) ;;
    ret (false, str_or output (cps "Pull failed")).

Definition rebase_on_main (repo : RepoStatus) : M (bool * str) :=
  _ <- run_git [cps "fetch"; cps "origin"] (path repo) ;;
  if contains (sync_status repo) (cps "Behind") &&
     negb (contains (sync_status repo) (cps "Diverged"))
  then
    ' (ok, output) <-
      run_git [cps "pull"; cps "--rebase"; cps "origin"; branch repo]
              (path repo) ;;
    if negb ok then
      _ <- run_git [cps "rebase"; cps "--abort"] (path repo) ;;
      ret (false, str_or output (cps "Pull failed"))
    else ret (true, cps "Pulled from origin/" ++ branch repo)
  else
    let origin_main := cps "origin/" ++ main_branch repo in
    ' (ok, output) <- run_git [cps "rebase"; origin_main] (path repo) ;;
    if ok then ret (true, cps "Rebased on " ++ origin_main)
    else
      _ <- run_git [cps "rebase"; cps "--abort"] (path repo) ;;
      ret (false, str_or output (cps "Rebase failed")).

Definition force_push (repo : RepoStatus) : M (bool * str) :=
  ' (ok, output) <-
    run_git [cps "push"; cps "--force-with-lease"; cps "origin"; branch repo]
            (path repo) ;;
  if ok then ret (true, cps "Force pushed successfully")
  else ret (false, str_or output (cps "Push failed")).

Definition create_remote (repo : RepoStatus) : M (bool * str) :=
  ' (ok, output) <-
    run_git [cps "push"; cps "-u"; cps "origin"; branch repo] (path repo) ;;
  if ok then ret (true, cps "Remote branch created")
  else ret (false, str_or output (cps "Push failed")).

Definition stash_changes (repo : RepoStatus) : M (bool * str) :=
  ' (ok, output) <-
    run_git [cps "stash"; cps "push"; cps "-m";
             cps "Auto-stash by git-status-tui"] (path repo) ;;
  if ok then ret (true, cps "Changes stashed")
  else ret (false, str_or output (cps "Stash failed")).

Definition discard_changes (repo : RepoStatus) : M (bool * str) :=
  ' (ok1, _) <- run_git [cps "checkout"; cps "--"; cps "."] (path repo) ;;
  ' (ok2, _) <- run_git [cps "clean"; cps "-fd"] (path repo) ;;
  if ok1 && ok2 then ret (true, cps "Changes discarded")
  else ret (false, cps "Discard failed").

(** *** Branch and worktree provisioning (lines 723-725, 1262-1291) *)

(** [branch.replace("/", "-")]. *)
Definition sanitize_branch_for_path (branch : str) : str :=
  map (fun c => if (c =? 47)%N then 45%N else c) branch.

Definition create_branch_worktree (repo : RepoStatus) (branch_name : str)
  : M (bool * str) :=
  if negb (truthy branch_name) || negb (truthy (strip branch_name))
  then ret (false, cps "Branch name cannot be empty")
  else
    let branch_name := strip branch_name in
    ' (ok, existing) <-
      run_git [cps "branch"; cps "--list"; branch_name] (path repo) ;;
    if ok && truthy existing
    then ret (false, cps "Branch '" ++ branch_name ++ cps "' already exists")
    else
      ' (ok, remote_existing) <-
        run_git [cps "ls-remote"; cps "--heads"; cps "origin"; branch_name]
                (path repo) ;;
      if ok && contains remote_existing branch_name
      then ret (false, cps "Remote branch 'origin/" ++ branch_name ++
                       cps "' already exists")
      else
        let worktree_folder :=
          name repo ++ cps "-" ++ sanitize_branch_for_path branch_name in
        let worktree_path :=
          path_join (path_parent (path repo)) worktree_folder in
        path_taken <- ask_or_raise (fs_exists worktree_path) ;;
        if path_taken
        then ret (false, cps "Path already exists: " ++ path_str worktree_path)
        else
          ' (ok, output) <-
            run_git [cps "worktree"; cps "add"; cps "-b"; branch_name;
                     path_str worktree_path] (path repo) ;;
          if ok
          then ret (true, cps "Created worktree at " ++ path_str worktree_path)
          else ret (false, cps "Worktree creation failed: " ++ output).

(** [f"{n:03d}"]: the decimal text, filled with zeros after the sign up to
    three characters. *)
Definition format_03d (n : Z) : str :=
  if (n <? 0)%Z
  then 45%N :: repeat 48%N (2 - List.length (str_of_int (- n)))
            ++ str_of_int (- n)
  else repeat 48%N (3 - List.length (str_of_int n)) ++ str_of_int n.

(** The branch name of [create_speckit_worktree] (lines 793-797). *)
Definition speckit_branch_name (feature_num : Z) (description : str) : str :=
  let feature_num_str := format_03d feature_num in
  let branch_suffix := generate_speckit_branch_name description in
  feature_num_str ++ cps "-" ++ branch_suffix.

(** *** Companion tools (lines 33-39, 85-94) *)

Definition AI_CLI_OPTIONS : list (str * str) :=
  [(cps "opencode", cps "OpenCode");
   (cps "opencode-shared", cps "OpenCode (Shared Server)");
   (cps "claude", cps "Claude Code");
   (cps "gemini", cps "Gemini CLI");
   (cps "codex", cps "Codex CLI")].

(** [d.get(k, default)] on a dict written as its items. *)
Fixpoint dict_get {V} (d : list (str * V)) (k : str) (default : V) : V :=
  match d with
  | [] => default
  | (k', v) :: d' => if str_eqb k' k then v else dict_get d' k default
  end.

Definition get_ai_cli_command (cli_name : str) : list str :=
  let commands :=
    [(cps "opencode", [cps "opencode"]);
     (cps "opencode-shared", [cps "opencode-shared"]);
     (cps "claude", [cps "claude"]);
     (cps "gemini", [cps "gemini"]);
     (cps "codex", [cps "codex"])] in
  dict_get commands cli_name [cps "opencode"].

(** *** Ordering the table (lines 1912-1935) *)

(** [a < b] on strings: by code points, a proper prefix first. *)
Fixpoint str_ltb (a b : str) : bool :=
  match a, b with
  | _, [] => false
  | [], _ :: _ => true
  | x :: a', y :: b' => (x <? y)%N || ((x =? y)%N && str_ltb a' b')
  end.

(** [a < b] on the tuples [(int, int, str)]. *)
Definition key_ltb (a b : Z * Z * str) : bool :=
  let '(a1, a2, a3) := a in
  let '(b1, b2, b3) := b in
  (a1 <? b1)%Z ||
  ((a1 =? b1)%Z && ((a2 <? b2)%Z || ((a2 =? b2)%Z && str_ltb a3 b3))).

(** [sorted(l, key=key)]: a stable sort that compares keys with [<].  The
    stable arrangement is unique; it is computed here by inserting each
    element, from the last to the first, before the first element whose key
    is not smaller. *)
Fixpoint insert_by {A K} (ltb : K -> K -> bool) (key : A -> K) (x : A)
    (l : list A) : list A :=
  match l with
  | [] => [x]
  | y :: l' =>
      if ltb (key y) (key x) then y :: insert_by ltb key x l' else x :: l
  end.

Definition sorted {A K} (ltb : K -> K -> bool) (key : A -> K) (l : list A)
  : list A :=
  fold_right (insert_by ltb key) [] l.

(** The [sort_key] of [_sort_repos]. *)
Definition sort_key (r : RepoStatus) : Z * Z * str :=
  let rebase_priority :=
    if contains (rebase_status r) (cps "Behind") then 0%Z
    else if contains (rebase_status r) (cps "No ") then 1%Z
    else 2%Z in
  let sync_priority :=
    if contains (sync_status r) (cps "Diverged") then 0%Z
    else if contains (sync_status r) (cps "Behind") then 1%Z
    else if contains (sync_status r) (cps "Ahead") then 2%Z
    else 3%Z in
  (rebase_priority, sync_priority, lower (name r)).

Definition _sort_repos (repos : list RepoStatus) : list RepoStatus :=
  sorted key_ltb sort_key repos.

(** *** The batch executor (lines 2276-2277 and 2298-2301) *)

(** The repositories an action runs on, and the ones it leaves out with
    the reason of each. *)
Definition eligible_of (check_fn : RepoStatus -> bool)
    (selected : list RepoStatus) : list RepoStatus :=
  filter check_fn selected.

Definition skipped_of (check_fn : RepoStatus -> bool)
    (reason_fn : RepoStatus -> option str) (selected : list RepoStatus)
  : list (RepoStatus * option str) :=
  map (fun r => (r, reason_fn r))
      (filter (fun r => negb (check_fn r)) selected).

(** The loop of [do_action]: one result per repository, in order. *)
Definition do_action (action_fn : RepoStatus -> M (bool * str))
    (eligible : list RepoStatus) : M (list (str * bool * str)) :=
  for_each
    (fun results repo =>
       ' (ok, message) <- action_fn repo ;;
       ret (results ++ [(name repo, ok, message)]))
    [] eligible.

(** *** Pull requests on disk (lines 867-963) *)

(** The loop of [detect_pr_local_status] over the entries of the scanned
    directory, with its two candidates. *)
Fixpoint detect_loop (pr_branch repo_name : str) (items : list Path)
    (main_repo_path worktree_path : option Path) : M (str * option Path) :=
  match items with
  | [] =>
      match main_repo_path, worktree_path with
      | Some p, _ => ret (cps "Available", Some p)
      | None, Some p => ret (cps "Available", Some p)
      | None, None => ret (cps "Not cloned", None)
      end
  | item :: rest =>
      let continue := detect_loop pr_branch repo_name rest in
      item_is_dir <- ask_or_raise (fs_is_dir item) ;;
      if negb item_is_dir then continue main_repo_path worktree_path
      else
        let git_path := path_join item (cps ".git") in
        has_git <- ask_or_raise (fs_exists git_path) ;;
        if negb has_git then continue main_repo_path worktree_path
        else
          ' (ok, remote_url) <-
            run_git [cps "remote"; cps "get-url"; cps "origin"] item ;;
          if negb ok || negb (contains remote_url repo_name)
          then continue main_repo_path worktree_path
          else
            ' (ok, current_branch) <-
              run_git [cps "branch"; cps "--show-current"] item ;;
            let current_branch := if ok then strip current_branch else [] in
            if str_eqb current_branch pr_branch
            then ret (cps "Checked out", Some item)
            else if str_eqb (path_name item) repo_name
            then continue (Some item) worktree_path
            else
              match worktree_path with
              | None => continue main_repo_path (Some item)
              | Some _ => continue main_repo_path worktree_path
              end
  end.

Definition detect_pr_local_status (pr_branch repo_name : str)
    (scan_dir : Path) : M (str * option Path) :=
  items <- ask_or_raise (fs_iterdir scan_dir) ;;
  detect_loop pr_branch repo_name items None None.

Definition clone_repo_with_worktree (repo_full_name pr_branch : str)
    (scan_dir : Path) : M (bool * str * option Path) :=
  let repo_name := last (split_on 47 repo_full_name) [] in
  let main_repo_path := path_join scan_dir repo_name in
  let after_clone : M (bool * str * option Path) :=
    _ <- run_git [cps "fetch"; cps "--all"] main_repo_path ;;
    ' (ok, remote_branches) <-
      run_git [cps "branch"; cps "-r"] main_repo_path ;;
    if negb ok || negb (contains remote_branches (cps "origin/" ++ pr_branch))
    then ret (false, cps "Branch " ++ pr_branch ++ cps " not found on remote",
              None)
    else
      let worktree_folder :=
        repo_name ++ cps "-" ++ sanitize_branch_for_path pr_branch in
      let worktree_path := path_join scan_dir worktree_folder in
      path_taken <- ask_or_raise (fs_exists worktree_path) ;;
      if path_taken
      then ret (false, cps "Path already exists: " ++ path_str worktree_path,
                None)
      else
        ' (ok, output) <-
          run_git [cps "worktree"; cps "add"; cps "--track"; cps "-b";
                   pr_branch; path_str worktree_path;
                   cps "origin/" ++ pr_branch] main_repo_path ;;
        if negb ok then
          ' (ok, output) <-
            run_git [cps "worktree"; cps "add"; path_str worktree_path;
                     pr_branch] main_repo_path ;;
          if negb ok
          then ret (false, cps "Worktree creation failed: " ++ output, None)
          else ret (true, cps "Created worktree at " ++ path_str worktree_path,
                    Some worktree_path)
        else ret (true, cps "Created worktree at " ++ path_str worktree_path,
                  Some worktree_path) in
  repo_present <- ask_or_raise (fs_exists main_repo_path) ;;
  if negb repo_present then
    let clone_url := cps "git@github.com:" ++ repo_full_name ++ cps ".git" in
    ' (ok, output) <-
      run_git [cps "clone"; clone_url; path_str main_repo_path] scan_dir ;;
    if negb ok then
      let clone_url :=
        cps "https://github.com/" ++ repo_full_name ++ cps ".git" in
      ' (ok, output) <-
        run_git [cps "clone"; clone_url; path_str main_repo_path] scan_dir ;;
      if negb ok then ret (false, cps "Clone failed: " ++ output, None)
      else after_clone
    else after_clone
  else after_clone.

End Procedures.

(** The file operations [create_speckit_worktree] performs in the new
    worktree; each answers whether it returned (it raises otherwise) and
    the world it leaves. *)
Class SpecFiles {PF : Platform} := {
  (** [p.mkdir(parents=True, exist_ok=True)] *)
  fs_mkdir : Path -> World -> bool * World;
  (** [shutil.copy(src, dst)] *)
  fs_copy : Path -> Path -> World -> bool * World;
  (** [p.write_text(text)] *)
  fs_write_text : Path -> str -> World -> bool * World;
  (** [shutil.copytree(src, dst)] *)
  fs_copytree : Path -> Path -> World -> bool * World
}.

(** The hosting client behind [get_pr_branch]: the head branch of a pull
    request, [None] when the query fails. *)
Class Hosting {PF : Platform} := {
  gh_pr_branch : str -> Z -> World -> option str * World
}.

Section Worktrees.
Context {U : Unicode} {PF : Platform} {SF : SpecFiles} {HC : Hosting}.

Local Notation "x <- c1 ;; c2" := (bind c1 (fun x => c2))
  (at level 61, c1 at next level, right associativity).
Local Notation "' pat <- c1 ;; c2" :=
  (bind c1 (fun x => match x with pat => c2 end))
  (at level 61, pat pattern, c1 at next level, right associativity).




(** [PRStatus] (lines 580-590). *)
Record PRStatus := {
  number : Z;
  title : str;
  pr_branch : str;
  repo_name : str;
  repo_full_name : str;
  url : str;
  local_status : str;
  local_path : option Path
}.

(** [get_pr_branch(repo_full_name, pr_number)]. *)
Definition get_pr_branch (repo_full_name : str) (pr_number : Z)
  : M (option str) :=
  fun st =>
    let '(r, w) := gh_pr_branch repo_full_name pr_number (world st) in
    (Ret r, {| world := w; trace := trace st |}).

(** What [checkout_pr_to_worktree] hands back: a pair from its own
    [return] statements, the triple of [clone_repo_with_worktree] where it
    returns that call. *)
Inductive Returned :=
| Pair (ok : bool) (message : str)
| Triple (ok : bool) (message : str) (worktree : option Path).

Definition returned_triple (r : bool * str * option Path) : Returned :=
  let '(ok, message, p) := r in Triple ok message p.

(** [checkout_pr_to_worktree(pr, scan_dir)] (lines 966-1007). *)
Definition checkout_pr_to_worktree (pr : PRStatus) (scan_dir : Path)
  : M Returned :=
  if str_eqb (local_status pr) (cps "Checked out")
  then ret (Pair false (cps "Already checked out"))
  else
    let with_branch (branch : str) : M Returned :=
      if str_eqb (local_status pr) (cps "Not cloned") then
        r <- clone_repo_with_worktree (repo_full_name pr) branch scan_dir ;;
        ret (returned_triple r)
      else if str_eqb (local_status pr) (cps "Available") then
        match local_path pr with
        | Some local_path =>
            let worktree_folder :=
              repo_name pr ++ cps "-" ++ sanitize_branch_for_path branch in
            let worktree_path := path_join scan_dir worktree_folder in
            path_taken <- ask_or_raise (fs_exists worktree_path) ;;
            if path_taken
            then ret (Pair false (cps "Path already exists: " ++
                                  path_str worktree_path))
            else
              _ <- run_git [cps "fetch"; cps "--all"] local_path ;;
              ' (ok, output) <-
                run_git [cps "worktree"; cps "add"; cps "--track"; cps "-b";
                         branch; path_str worktree_path;
                         cps "origin/" ++ branch] local_path ;;
              if negb ok then
                ' (ok, output) <-
                  run_git [cps "worktree"; cps "add"; path_str worktree_path;
                           branch] local_path ;;
                if negb ok
                then ret (Pair false (cps "Worktree creation failed: " ++
                                      output))
                else ret (Pair true (cps "Created worktree at " ++
                                     path_str worktree_path))
              else ret (Pair true (cps "Created worktree at " ++
                                   path_str worktree_path))
        | None =>
            r <- clone_repo_with_worktree (repo_full_name pr) branch scan_dir ;;
            ret (returned_triple r)
        end
      else ret (Pair false (cps "Unknown local status")) in
    if negb (truthy (pr_branch pr)) then
      found <- get_pr_branch (repo_full_name pr) (number pr) ;;
      match found with
      | Some branch =>
          if negb (truthy branch)
          then ret (Pair false (cps "Could not determine PR branch name"))
          else with_branch branch
      | None => ret (Pair false (cps "Could not determine PR branch name"))
      end
    else with_branch (pr_branch pr).

(** [ok, message = checkout_pr_to_worktree(pr, scan_dir)]: unpacking into
    two names raises [ValueError] on a triple. *)
Definition unpack_two (r : Returned) : M (bool * str) :=
  match r with
  | Pair ok message => ret (ok, message)
  | Triple _ _ _ => raise ValueError
  end.

(** The loop of [do_checkout] (lines 2455-2458). *)
Definition do_checkout (eligible : list PRStatus) (scan_dir : Path)
  : M (list (str * bool * str)) :=
  for_each
    (fun results pr =>
       r <- checkout_pr_to_worktree pr scan_dir ;;
       ' (ok, message) <- unpack_two r ;;
       ret (results ++
            [(repo_name pr ++ cps " #" ++ str_of_int (number pr), ok, message)]))
    [] eligible.

(** [a < b] on the tuples [(int, str, int)]. *)
Definition pr_key_ltb (a b : Z * str * Z) : bool :=
  let '(a1, a2, a3) := a in
  let '(b1, b2, b3) := b in
  (a1 <? b1)%Z ||
  ((a1 =? b1)%Z &&
   (str_ltb a2 b2 || (str_eqb a2 b2 && (a3 <? b3)%Z))).

(** The [sort_key] of [_sort_prs] (lines 1939-1948). *)
Definition pr_sort_key (p : PRStatus) : Z * str * Z :=
  let status_priority :=
    if str_eqb (local_status p) (cps "Not cloned") then 0%Z
    else if str_eqb (local_status p) (cps "Available") then 1%Z
    else 2%Z in
  (status_priority, lower (repo_name p), (- number p)%Z).

Definition _sort_prs (prs : list PRStatus) : list PRStatus :=
  sorted pr_key_ltb pr_sort_key prs.

End Worktrees.

(* ===================================================================== *)
(** ** Concrete platforms, to run the model *)
(* ===================================================================== *)

Module Scripted.

Local Open Scope N_scope.

(** Unicode tables that know the ASCII letters only. *)
Definition ascii_only : Unicode :=
  {| uni_lower := map (fun c => if is_upper c then c + 32 else c);
     uni_decimal := fun _ => None;
     uni_digit := fun _ => false |}.

(** A path is the list of its components below the root. *)
Definition parse_path (s : str) : list str := filter truthy (split_on 47 s).

Definition show_path (p : list str) : str := flat_map (fun c => 47 :: c) p.

Fixpoint path_eqb (a b : list str) : bool :=
  match a, b with
  | [], [] => true
  | x :: a', y :: b' => str_eqb x y && path_eqb a' b'
  | _, _ => false
  end.

(** A fixed world: for each git command line whether it succeeds and what
    it prints, the directories, the files with their text, and whether
    removing a directory fails. *)
Record Script := {
  answers : list (string * (bool * string));
  dirs : list string;
  files : list (string * string);
  rmtree_error : option string
}.

Fixpoint answer_of (l : list (string * (bool * string))) (line : str)
  : Completed :=
  match l with
  | [] => Exited 1 [] (cps "fatal: not a git command")
  | (k, (ok, out)) :: l' =>
      if str_eqb (cps k) line
      then (if ok then Exited 0 (cps out) [] else Exited 128 [] (cps out))
      else answer_of l' line
  end.

Definition is_dir_in (sc : Script) (p : list str) : bool :=
  existsb (fun d => path_eqb (parse_path (cps d)) p) (dirs sc).

Definition text_in (sc : Script) (p : list str) : option str :=
  match find (fun f => path_eqb (parse_path (cps (fst f))) p) (files sc) with
  | Some f => Some (cps (snd f))
  | None => None
  end.

Definition children_in (sc : Script) (p : list str) : list (list str) :=
  filter (fun q => nonempty q && path_eqb (removelast q) p)
         (map (fun d => parse_path (cps d)) (dirs sc) ++
          map (fun f => parse_path (cps (fst f))) (files sc)).

Definition platform (sc : Script) : Platform :=
  {| Path := list str;
     World := unit;
     path_name := fun p => last p [];
     path_parent := fun p => removelast p;
     path_join := fun p s => p ++ [s];
     path_of_str := parse_path;
     path_str := show_path;
     subprocess_git :=
       fun args _ w => (answer_of (answers sc) (join (cps " ") args), w);
     fs_exists :=
       fun p _ => Some (is_dir_in sc p || negb (is_none (text_in sc p)));
     fs_is_file := fun p _ => Some (negb (is_none (text_in sc p)));
     fs_is_dir := fun p _ => Some (is_dir_in sc p);
     fs_read_text := fun p _ => text_in sc p;
     fs_iterdir :=
       fun p _ => if is_dir_in sc p then Some (children_in sc p) else None;
     fs_rmtree := fun _ w => (option_map cps (rmtree_error sc), w);
     which_gh := fun w => (Some 0%Z, w);
     hosting_pr_status := fun _ _ w => (cps "No PR", w) |}.

(** The state a run starts from. *)
Definition start (sc : Script) : @St (platform sc) :=
  @Build_St (platform sc) tt [].

(** A feature branch that is two commits ahead of its remote and three
    behind, with one untracked file. *)
Definition diverged_repo : Script :=
  {| answers :=
       [("rev-parse --abbrev-ref HEAD", (true, "login-form"));
        ("fetch --all --quiet", (true, ""));
        ("ls-remote --heads origin login-form",
         (true, "4f2a refs/heads/login-form"));
        ("rev-parse HEAD", (true, "91c0"));
        ("rev-parse origin/login-form", (true, "4f2a"));
        ("rev-list --count origin/login-form..HEAD", (true, "2"));
        ("rev-list --count HEAD..origin/login-form", (true, "3"));
        ("rev-parse origin/main", (true, "77aa"));
        ("merge-base HEAD origin/main", (true, "77aa"));
        ("status --porcelain", (true, "?? notes.txt"))];
     dirs := ["/work"; "/work/app"; "/work/app/.git"];
     files := [];
     rmtree_error := None |}%string.

(** The trunk of a repository, in step with its remote. *)
Definition trunk_repo : Script :=
  {| answers :=
       [("rev-parse --abbrev-ref HEAD", (true, "main"));
        ("fetch --all --quiet", (true, ""));
        ("ls-remote --heads origin main", (true, "77aa refs/heads/main"));
        ("rev-parse HEAD", (true, "77aa"));
        ("rev-parse origin/main", (true, "77aa"));
        ("status --porcelain", (true, ""))];
     dirs := ["/work"; "/work/app"; "/work/app/.git"];
     files := [];
     rmtree_error := None |}%string.

(** A worktree whose git-dir query fails. *)
Definition broken_worktree : Script :=
  {| answers := [("rev-parse --git-dir", (false, "fatal: not a git repository"))];
     dirs := ["/work"; "/work/app-login"];
     files := [("/work/app-login/.git", "gitdir: /work/app/.git/worktrees/app-login")];
     rmtree_error := None |}%string.

(** A worktree whose owning repository is found and refuses the removal. *)
Definition locked_worktree : Script :=
  {| answers :=
       [("rev-parse --git-dir", (true, "/work/app/.git/worktrees/app-login"));
        ("worktree remove --force /work/app-login",
         (false, "fatal: working tree is locked"))];
     dirs := ["/work"; "/work/app"; "/work/app/.git"; "/work/app-login"];
     files := [("/work/app-login/.git", "gitdir: /work/app/.git/worktrees/app-login")];
     rmtree_error := None |}%string.

(** Branches 041 and 042 and a specification folder 043. *)
Definition numbered_features : Script :=
  {| answers :=
       [("branch -a",
         (true, "  041-x
* 042-oauth-login
  main
  remotes/origin/041-x
  remotes/origin/main"))];
     dirs := ["/work"; "/work/app"; "/work/app/specs";
              "/work/app/specs/043-y"; "/work/notes"];
     files := [("/work/app/specs/README.md", "specs"); ("/work/todo.txt", "")];
     rmtree_error := None |}%string.

(** The feature numbering run on a scripted world. *)
Definition next_number (sc : Script) (repo scan : string) :=
  @get_next_feature_number ascii_only (platform sc) (parse_path (cps repo))
    (parse_path (cps scan)) (start sc).

(** The inspector run on a scripted world. *)
Definition inspect (sc : Script) (p : string) (is_worktree : bool) :=
  @check_repo ascii_only (platform sc) (parse_path (cps p)) is_worktree
              (start sc).

Definition status_of (sc : Script) (label : string) (p : string)
    (b : string) (remote : bool) (sync : string) (dirty : bool)
  : @RepoStatus (platform sc) :=
  @Build_RepoStatus (platform sc)
    (last (parse_path (cps p)) []) (parse_path (cps p)) (cps label) (cps b)
    remote (cps sync) (cps "-") (cps "-") (cps "main") dirty.

End Scripted.

(* ===================================================================== *)
(** ** Further worlds *)
(* ===================================================================== *)

Module Cases.

Import Scripted.

(** A scan directory that holds a clone of [acme/app] on its trunk, and a
    folder that is no repository. *)
Definition cloned_app : Script :=
  {| answers :=
       [("remote get-url origin", (true, "git@github.com:acme/app.git"));
        ("branch --show-current", (true, "main"))];
     dirs := ["/work"; "/work/app"; "/work/app/.git"; "/work/notes"];
     files := [];
     rmtree_error := None |}%string.

(** A repository on its trunk whose feature branch [050-wt] is checked
    out in a linked worktree beside it. *)
Definition worktree_feature : Script :=
  {| answers :=
       [("branch -a", (true, "+ 050-wt
* main
  remotes/origin/main"))];
     dirs := ["/work"; "/work/app"; "/work/app/.git"; "/work/app-050-wt"];
     files := [("/work/app-050-wt/.git",
                "gitdir: /work/app/.git/worktrees/app-050-wt")];
     rmtree_error := None |}%string.

(** The listing of a repository with a branch in another worktree, its
    current branch and a remote branch, all three numbered. *)
Definition mixed_listing : Script :=
  {| answers :=
       [("branch -a", (true, "+ 050-wt
* 007-current
  remotes/origin/031-pushed"))];
     dirs := ["/work"; "/work/app"; "/work/app/.git"];
     files := [];
     rmtree_error := None |}%string.

(** A path one of whose components is longer than the 255 bytes a file
    name may have. *)
Definition too_long (p : list str) : bool :=
  existsb (fun c => (255 <? List.length c)%nat) p.

(** The scripted platform on a file system that refuses such paths:
    [exists()], [is_file()] and [is_dir()] raise on them ([OSError], file
    name too long), as [pathlib] does before Python 3.14. *)
Definition strict (sc : Script) : Platform :=
  {| Path := list str;
     World := unit;
     path_name := fun p => last p [];
     path_parent := fun p => removelast p;
     path_join := fun p s => p ++ [s];
     path_of_str := parse_path;
     path_str := show_path;
     subprocess_git :=
       fun args _ w => (answer_of (answers sc) (join (cps " ") args), w);
     fs_exists :=
       fun p _ =>
         if too_long p then None
         else Some (is_dir_in sc p || negb (is_none (text_in sc p)));
     fs_is_file :=
       fun p _ =>
         if too_long p then None else Some (negb (is_none (text_in sc p)));
     fs_is_dir :=
       fun p _ => if too_long p then None else Some (is_dir_in sc p);
     fs_read_text := fun p _ => text_in sc p;
     fs_iterdir :=
       fun p _ => if is_dir_in sc p then Some (children_in sc p) else None;
     fs_rmtree := fun _ w => (option_map cps (rmtree_error sc), w);
     which_gh := fun w => (Some 0%Z, w);
     hosting_pr_status := fun _ _ w => (cps "No PR", w) |}.

(** A branch name of 258 characters: ["feature/"] and 250 letters. *)
Definition long_branch : str := cps "feature/" ++ repeat 97%N 250.

(** A hosting client that answers nothing. *)
Definition silent_hosting (sc : Script) : @Hosting (platform sc) :=
  @Build_Hosting (platform sc) (fun _ _ w => (None, w)).

(** A pull request of a repository that is not cloned. *)
Definition pending_pr (sc : Script) : @PRStatus (platform sc) :=
  @Build_PRStatus (platform sc) 7%Z (cps "Add login") (cps "login-form")
    (cps "app") (cps "acme/app") (cps "https://github.com/acme/app/pull/7")
    (cps "Not cloned") None.

(** The detection of [pending_pr]'s branch in a scripted scan directory. *)
Definition detect (sc : Script) (scan : string) :=
  @detect_pr_local_status (platform sc) (cps "login-form") (cps "app")
    (parse_path (cps scan)) (start sc).

End Cases.

(* ===================================================================== *)
(** ** Vocabulary of the specification *)
(* ===================================================================== *)

Section Vocabulary.
Context {U : Unicode} {PF : Platform}.

(** Every normal outcome of [m] satisfies [Q]. *)
Definition yields {A} (m : M A) (Q : A -> Prop) : Prop :=
  forall st a st', m st = (Ret a, st') -> Q a.

(** The four synchronisation states of a branch with a remote, and the
    sentinel of a branch without one. *)
Inductive SyncKind := Synced | Ahead | Behind | Diverged.

Definition unknown : str := cps "-".

(** [s] is the text the inspector writes for the kind [k]. *)
Definition has_kind (k : SyncKind) (s : str) : Prop :=
  match k with
  | Synced => s = cps "Synced"
  | Ahead =>
      exists n, (0 < n)%Z /\ s = cps "Ahead (+" ++ str_of_int n ++ cps ")"
  | Behind =>
      exists n, (0 < n)%Z /\ s = cps "Behind (-" ++ str_of_int n ++ cps ")"
  | Diverged =>
      exists a b, (0 < a)%Z /\ (0 < b)%Z /\
        s = cps "Diverged (+" ++ str_of_int a ++ cps "/-" ++
            str_of_int b ++ cps ")"
  end.

(** The branch is the trunk or carries a reserved name. *)
Definition on_trunk (r : RepoStatus) : Prop :=
  In (branch r) [main_branch r; cps "main"; cps "dev"; cps "master"].

(** A line of the status output that marks the tree dirty: not empty,
    neither an untracked entry (["??"]) nor an ignored one (["!!"]). *)
Definition change_line (line : str) : Prop :=
  line <> [] /\ startswith line (cps "??") = false /\
  startswith line (cps "!!") = false.

(** Every removal of a directory in [events] comes after a successful
    [git worktree remove]. *)
Definition detached_before_removal (events : list Event) : Prop :=
  forall before p raised after,
    events = before ++ EvRmtree p raised :: after ->
    exists args cwd out,
      In (EvGit (cps "worktree" :: cps "remove" :: args) cwd (true, out))
         before.

(** The directory three levels above the path written after ["gitdir:"]
    in a worktree's pointer file. *)
Definition owner_dir (rest : str) : Path :=
  path_parent (path_parent (path_parent (path_of_str (strip rest)))).

(** The owning repository of the worktree [repo] is found in the world
    [w]: the git-dir query answered [probe], a success with some output;
    [.git] is a file whose text starts with ["gitdir:"]; and the directory
    [owner] it points into exists. *)
Definition owner_found (repo : RepoStatus) (probe : bool * str) (w : World)
    (owner : Path) : Prop :=
  fst probe = true /\ snd probe <> [] /\
  fs_is_file (path_join (path repo) (cps ".git")) w = Some true /\
  exists text rest,
    fs_read_text (path_join (path repo) (cps ".git")) w = Some text /\
    startswith (strip text) (cps "gitdir:") = true /\
    after_colon (strip text) = Some rest /\
    owner = owner_dir rest /\
    fs_exists owner w = Some true.

(** The owning repository is not found: one of the tests above answers
    no. *)
Definition owner_missing (repo : RepoStatus) (probe : bool * str) (w : World)
  : Prop :=
  fst probe = false \/ snd probe = [] \/
  fs_is_file (path_join (path repo) (cps ".git")) w = Some false \/
  (fs_is_file (path_join (path repo) (cps ".git")) w = Some true /\
   exists text,
     fs_read_text (path_join (path repo) (cps ".git")) w = Some text /\
     (startswith (strip text) (cps "gitdir:") = false \/
      exists rest, after_colon (strip text) = Some rest /\
                   fs_exists (owner_dir rest) w = Some false)).

(** The search for the owning repository raises: after a git-dir query
    that succeeded with some output, the test of [.git], the reading of
    the pointer file or the test of the directory it points into raises. *)
Definition owner_unknown (repo : RepoStatus) (probe : bool * str) (w : World)
  : Prop :=
  fst probe = true /\ snd probe <> [] /\
  (fs_is_file (path_join (path repo) (cps ".git")) w = None \/
   (fs_is_file (path_join (path repo) (cps ".git")) w = Some true /\
    (fs_read_text (path_join (path repo) (cps ".git")) w = None \/
     exists text rest,
       fs_read_text (path_join (path repo) (cps ".git")) w = Some text /\
       startswith (strip text) (cps "gitdir:") = true /\
       after_colon (strip text) = Some rest /\
       fs_exists (owner_dir rest) w = None))).

(** The number a name carries: its leading three digits, when a hyphen
    follows them. *)
Definition prefix_number (n : str) : option Z :=
  match match_feature_prefix n with
  | Some g => int g
  | None => None
  end.

(** In the listing of [git branch -a] the line of a branch that is
    checked out in another worktree starts with ["+"]. *)
Definition in_other_worktree (line : str) : bool :=
  startswith (strip line) (cps "+").

(** A line without any decimal digit: it names no numbered branch. *)
Definition digitless (line : str) : Prop :=
  Forall (fun c => is_decimal c = false) line.

(** [item] brings no specification folder to the scan: it is no
    directory, or it has no [specs] entry. *)
Definition without_specs (w : World) (item : Path) : Prop :=
  fs_is_dir item w = Some false \/
  (fs_is_dir item w = Some true /\
   fs_exists (path_join item (cps "specs")) w = Some false).

(** A word of a branch suffix: lowercase ASCII letters, at least one. *)
Definition lowercase_word (w : str) : Prop :=
  w <> [] /\ Forall (fun c => is_lower c = true) w.

End Vocabulary.

(* ===================================================================== *)
(** ** Vocabulary for the rest of the engine *)
(* ===================================================================== *)

Section MoreVocabulary.
Context {U : Unicode} {PF : Platform}.

(** Whatever the outcome of [m], every command it issues satisfies [P]. *)
Definition issues {A} (m : M A) (P : Event -> Prop) : Prop :=
  forall st, exists new,
    trace (snd (m st)) = trace st ++ new /\ Forall P new.

(** The git commands of the inspector. *)
Definition inspector_commands : list str :=
  map cps ["rev-parse"; "fetch"; "ls-remote"; "rev-list"; "merge-base";
           "status"]%string.

(** [e] is one of the inspector's git commands, run in [repo_path]. *)
Definition is_inspection (repo_path : Path) (e : Event) : Prop :=
  exists args answer,
    e = EvGit args repo_path answer /\ In (hd [] args) inspector_commands.


(** [e] is one of the two processes that look a pull request up. *)
Definition is_pr_lookup (e : Event) : Prop :=
  e = EvProcess [cps "which"; cps "gh"] \/
  exists branch, e = EvProcess (gh_pr_list branch).

(** The rebase states of a branch that is not the trunk. *)
Inductive RebaseKind := Rebased | BehindTrunk | NoTrunk.

(** [s] is the text the inspector writes for the kind [k] and the trunk
    [trunk]. *)
Definition has_rebase_kind (k : RebaseKind) (trunk s : str) : Prop :=
  match k with
  | Rebased => s = cps "Rebased"
  | BehindTrunk =>
      exists n, (0 <= n)%Z /\
        s = cps "Behind " ++ trunk ++ cps " (-" ++ str_of_int n ++ cps ")"
  | NoTrunk => s = cps "No " ++ trunk
  end.

(** The style the table gives each synchronisation kind. *)
Definition sync_style (k : SyncKind) : str :=
  match k with
  | Synced => cps "green"
  | Ahead => cps "yellow"
  | Behind => cps "red"
  | Diverged => cps "bold red"
  end.

(** The style the table gives each rebase kind. *)
Definition rebase_style (k : RebaseKind) : str :=
  match k with
  | Rebased => cps "green"
  | BehindTrunk => cps "red"
  | NoTrunk => cps "dim yellow"
  end.

(** The names force-push refuses. *)
Definition protected (r : RepoStatus) : Prop :=
  In (branch r) [cps "main"; cps "master"; cps "dev"].

(** The procedures of the batch actions that only run git commands. *)
Definition git_procedures : list (RepoStatus -> M (bool * str)) :=
  [pull_rebase; rebase_on_main; force_push; create_remote; stash_changes;
   discard_changes; reset_to_remote].

(** [x] may stand before [y] in a list sorted by [key]: the key of [y]
    is not smaller. *)
Definition in_order {A K} (ltb : K -> K -> bool) (key : A -> K) (x y : A)
  : Prop :=
  ltb (key y) (key x) = false.

(** [x] and [y] compare equal: neither key is smaller. *)
Definition same_key {A K} (ltb : K -> K -> bool) (key : A -> K) (x y : A)
  : bool :=
  negb (ltb (key x) (key y)) && negb (ltb (key y) (key x)).

(** The number [n] is written on three decimal digits that read [n]. *)
Definition three_digits (n : Z) : bool :=
  match format_03d n with
  | [a; b; c] =>
      is_decimal a && is_decimal b && is_decimal c &&
      match int [a; b; c] with
      | Some v => (v =? n)%Z
      | None => false
      end
  | _ => false
  end.

(** The pairs of predicate and reason the batch actions are run with
    (lines 2307-2341). *)
Definition engine_actions
  : list ((RepoStatus -> bool) * (RepoStatus -> option str)) :=
  [(can_pull, why_not_pull); (can_rebase, why_not_rebase);
   (can_force_push, why_not_force_push);
   (can_create_remote, why_not_create_remote);
   (can_stash, why_not_stash); (can_discard, why_not_discard);
   (can_reset_to_remote, why_not_reset_to_remote);
   (can_delete_local, why_not_delete_local)].

(** [r] is synced with its remote and clean, as far as its state says. *)
Definition safe_to_delete (r : RepoStatus) : Prop :=
  remote_exists r = true /\ has_changes r = false /\
  sync_status r = cps "Synced".

(** [e] is a git command run in the directory of [repo]. *)
Definition in_repository (repo : RepoStatus) (e : Event) : Prop :=
  exists args answer, e = EvGit args (path repo) answer.

(** The status reads Behind and not Diverged, as [rebase_on_main] tests
    it. *)
Definition behind_remote (r : RepoStatus) : bool :=
  contains (sync_status r) (cps "Behind") &&
  negb (contains (sync_status r) (cps "Diverged")).

(** The two questions the detection of a pull request's branch asks a
    directory. *)
Definition origin_url_args : list str :=
  [cps "remote"; cps "get-url"; cps "origin"].

Definition current_branch_args : list str :=
  [cps "branch"; cps "--show-current"].

(** [e] is one of the two questions, asked in one of [items]. *)
Definition is_detection (items : list Path) (e : Event) : Prop :=
  exists args item answer,
    e = EvGit args item answer /\ In item items /\
    (args = origin_url_args \/ args = current_branch_args).

(** [e] read an origin URL that holds [repo_name]. *)
Definition names_repository (repo_name : str) (item : Path) (e : Event)
  : Prop :=
  exists url,
    e = EvGit origin_url_args item (true, url) /\
    contains url repo_name = true.

(** The tests the detection makes on the entries [items] answer: none
    raises, in whatever world. *)
Definition tests_answer (items : list Path) : Prop :=
  forall item w, In item items ->
    fs_is_dir item w <> None /\
    fs_exists (path_join item (cps ".git")) w <> None.

(** What the detection answers, after the events [events]: a path with
    [Checked out] or [Available], and the path is one of [items] whose
    origin URL holds [repo_name]; or no path with [Not cloned], and no
    origin URL that was read holds the name; or [OSError], and one of the
    tests raised. *)
Definition detection_outcome (repo_name : str) (items : list Path)
    (events : list Event) (r : Res (str * option Path)) : Prop :=
  match r with
  | Ret (status, Some q) =>
      In q items /\
      (status = cps "Checked out" \/ status = cps "Available") /\
      Exists (names_repository repo_name q) events
  | Ret (status, None) =>
      status = cps "Not cloned" /\
      Forall (fun e => forall q, ~ names_repository repo_name q e) events
  | Raise e => e = OSError /\ ~ tests_answer items
  end.

(** [e] is a [git clone]. *)
Definition is_clone (e : Event) : Prop :=
  exists args cwd answer, e = EvGit (cps "clone" :: args) cwd answer.

End MoreVocabulary.

(* ===================================================================== *)
(** ** Strings: basic facts *)
(* ===================================================================== *)

Lemma str_eqb_refl (a : str) : str_eqb a a = true.
Proof.
  induction a as [|x a IH]; simpl; [reflexivity|].
  now rewrite N.eqb_refl, IH.
Qed.

Lemma str_eqb_eq (a b : str) : str_eqb a b = true <-> a = b.
Proof.
  split.
  - revert b; induction a as [|x a IH]; intros [|y b]; simpl; try discriminate.
    + reflexivity.
    + intros H. apply andb_true_iff in H as [Hx Hab].
      apply N.eqb_eq in Hx. apply IH in Hab. now subst.
  - intros ->. apply str_eqb_refl.
Qed.

Lemma in_tuple_In (x : str) (t : list str) : in_tuple x t = true <-> In x t.
Proof.
  unfold in_tuple. rewrite existsb_exists. split.
  - intros (y & Hy & E). apply str_eqb_eq in E. now subst.
  - intros H. exists x. split; [assumption | apply str_eqb_refl].
Qed.

(** A substring cannot begin with a code point the string does not hold. *)
Lemma contains_absent (c : N) (p s : str) :
  ~ In c s -> contains s (c :: p) = false.
Proof.
  induction s as [|x s IH]; intros H; simpl; [reflexivity|].
  destruct (N.eqb_spec x c) as [->|Hne].
  - exfalso. apply H. now left.
  - simpl. apply IH. intros Hin. apply H. now right.
Qed.

(** The decimal text of an integer holds digits and at most a sign. *)
Lemma uint_cps_digits (u : Decimal.uint) (c : N) :
  In c (uint_cps u) -> (48 <= c <= 57)%N.
Proof.
  induction u; simpl; intros H; try contradiction;
    (destruct H as [<- | H]; [lia | now apply IHu]).
Qed.

Lemma str_of_int_chars (z : Z) (c : N) :
  In c (str_of_int z) -> c = 45%N \/ (48 <= c <= 57)%N.
Proof.
  unfold str_of_int. destruct (Z.to_int z) as [u|u]; simpl; intros H.
  - right. now apply uint_cps_digits in H.
  - destruct H as [<- | H]; [now left | right; now apply uint_cps_digits in H].
Qed.

(* ===================================================================== *)
(** ** The eligibility engine *)
(* ===================================================================== *)

Section EngineFacts.
Context {U : Unicode} {PF : Platform}.

(** C1. A repository with uncommitted changes is eligible neither for
    pull, nor for rebase, nor for delete-local: the three predicates are
    false and each reason function returns a reason. *)
Theorem dirty_blocks_pull_rebase_delete (r : RepoStatus) :
  has_changes r = true ->
  (can_pull r = false /\ can_rebase r = false /\ can_delete_local r = false) /\
  (why_not_pull r <> None /\ why_not_rebase r <> None /\
   why_not_delete_local r <> None).
Proof.
  intros H.
  assert (P : why_not_pull r <> None).
  { unfold why_not_pull. rewrite H.
    destruct (remote_exists r); simpl; [|discriminate].
    destruct (contains (sync_status r) (cps "Behind")); simpl; [|discriminate].
    destruct (contains (sync_status r) (cps "Diverged")); discriminate. }
  assert (R : why_not_rebase r <> None).
  { unfold why_not_rebase. rewrite H.
    destruct (in_tuple _ _); discriminate. }
  assert (D : why_not_delete_local r <> None).
  { unfold why_not_delete_local. rewrite H.
    destruct (remote_exists r); discriminate. }
  unfold can_pull, can_rebase, can_delete_local.
  destruct (why_not_pull r), (why_not_rebase r), (why_not_delete_local r);
    try congruence.
  repeat split; discriminate.
Qed.

End EngineFacts.

(** ** Reasoning on outcomes *)

Section Outcomes.
Context {U : Unicode} {PF : Platform}.

Lemma yields_ret {A} (a : A) (Q : A -> Prop) : Q a -> yields (ret a) Q.
Proof. intros H st a' st' E. inversion E. now subst. Qed.

Lemma yields_raise {A} (e : Exc) (Q : A -> Prop) : yields (raise e) Q.
Proof. intros st a st' E. discriminate E. Qed.

Lemma yields_bind {A B} (m : M A) (f : A -> M B) (P : A -> Prop)
    (Q : B -> Prop) :
  yields m P -> (forall a, P a -> yields (f a) Q) -> yields (bind m f) Q.
Proof.
  intros Hm Hf st b st' E. unfold bind in E.
  destruct (m st) as [[a|e] st1] eqn:Em; [|discriminate].
  exact (Hf a (Hm _ _ _ Em) _ _ _ E).
Qed.

Lemma yields_any {A} (m : M A) : yields m (fun _ => True).
Proof. intros st a st' _. exact I. Qed.

(** A step whose result the property does not depend on. *)
Lemma yields_skip {A B} (m : M A) (f : A -> M B) (Q : B -> Prop) :
  (forall a, yields (f a) Q) -> yields (bind m f) Q.
Proof.
  intros H. apply yields_bind with (P := fun _ => True).
  - apply yields_any.
  - intros a _. apply H.
Qed.

(** Running a git command: the answer goes to the continuation, the
    command and its answer to the trace. *)
Lemma bind_run_git {B} (args : list str) (cwd : Path)
    (f : bool * str -> M B) (st : St) :
  bind (run_git args cwd) f st =
  f (fst (git args cwd (world st)))
    {| world := snd (git args cwd (world st));
       trace := trace st ++
                [EvGit args cwd (fst (git args cwd (world st)))] |}.
Proof.
  unfold bind, run_git. destruct (git args cwd (world st)) as [r w].
  reflexivity.
Qed.

Lemma bind_ask {A B} (q : World -> A) (f : A -> M B) (st : St) :
  bind (ask q) f st = f (q (world st)) st.
Proof. reflexivity. Qed.

Lemma bind_ask_or_raise {A B} (q : World -> option A) (f : A -> M B)
    (st : St) :
  bind (ask_or_raise q) f st =
  match q (world st) with
  | Some a => f a st
  | None => (Raise OSError, st)
  end.
Proof.
  unfold bind, ask_or_raise. destruct (q (world st)); reflexivity.
Qed.

Lemma bind_index_1 {B} (second : option str) (f : str -> M B) (st : St) :
  bind (index_1 second) f st =
  match second with
  | Some s => f s st
  | None => (Raise IndexError, st)
  end.
Proof. destruct second; reflexivity. Qed.

Lemma bind_rmtree {B} (p : Path) (f : option str -> M B) (st : St) :
  bind (rmtree p) f st =
  f (fst (fs_rmtree p (world st)))
    {| world := snd (fs_rmtree p (world st));
       trace := trace st ++ [EvRmtree p (fst (fs_rmtree p (world st)))] |}.
Proof.
  unfold bind, rmtree. destruct (fs_rmtree p (world st)) as [r w].
  reflexivity.
Qed.

End Outcomes.

Ltac skip_step := apply yields_skip; intros ?.

(** ** The inspector *)

Section InspectorFacts.
Context {U : Unicode} {PF : Platform}.

Lemma literal_has_no_B (a b : Z) :
  ~ In 66%N (cps "Diverged (+" ++ str_of_int a ++ cps "/-" ++
             str_of_int b ++ cps ")").
Proof.
  intros H.
  repeat (apply in_app_or in H; destruct H as [H|H]);
    try (apply str_of_int_chars in H; destruct H as [H|H]; [discriminate H | lia]);
    cbv in H; intuition discriminate.
Qed.

Lemma has_kind_head (k : SyncKind) (s : str) :
  has_kind k s ->
  hd 0%N s = match k with
             | Synced => 83 | Ahead => 65 | Behind => 66 | Diverged => 68
             end%N.
Proof.
  destruct k; simpl.
  - intros ->. reflexivity.
  - intros (n & _ & ->). reflexivity.
  - intros (n & _ & ->). reflexivity.
  - intros (a & b & _ & _ & ->). reflexivity.
Qed.

Lemma has_kind_unique (k k' : SyncKind) (s : str) :
  has_kind k s -> has_kind k' s -> k = k'.
Proof.
  intros H H'. apply has_kind_head in H, H'. rewrite H in H'.
  destruct k, k'; try reflexivity; discriminate H'.
Qed.

Lemma has_kind_known (k : SyncKind) (s : str) : has_kind k s -> s <> unknown.
Proof.
  intros H E. apply has_kind_head in H. subst s.
  destruct k; discriminate H.
Qed.

Lemma sync_of_counts_kind (ahead behind : Z) :
  exists k, has_kind k (sync_of_counts ahead behind).
Proof.
  unfold sync_of_counts.
  destruct (Z.ltb_spec 0 ahead) as [Ha|Ha], (Z.ltb_spec 0 behind) as [Hb|Hb];
    simpl.
  - exists Diverged. exists ahead, behind. auto.
  - exists Ahead. exists ahead. auto.
  - exists Behind. exists behind. auto.
  - exists Synced. reflexivity.
Qed.

(** What the inspector computes for [sync_status], given [remote_exists]. *)
Lemma check_repo_sync (repo_path : Path) (is_worktree : bool) :
  yields (check_repo repo_path is_worktree)
    (fun o => forall r, o = Some r ->
       if remote_exists r
       then exists k, has_kind k (sync_status r)
       else sync_status r = unknown).
Proof.
  unfold check_repo. skip_step. apply yields_skip; intros [ok branch0].
  destruct ok; simpl; [|apply yields_ret; discriminate].
  skip_step. apply yields_skip; intros [ok remote_check].
  set (remote := if ok then contains remote_check _ else false).
  apply yields_bind with
    (P := fun s => if remote then exists k, has_kind k s else s = unknown).
  - destruct remote.
    + apply yields_skip; intros [ok1 local_commit].
      apply yields_skip; intros [ok2 remote_commit].
      destruct (ok1 && ok2 && str_eqb local_commit remote_commit).
      * apply yields_ret. exists Synced. reflexivity.
      * apply yields_skip; intros [ok3 ahead]. skip_step.
        apply yields_skip; intros [ok4 behind]. skip_step.
        apply yields_ret. apply sync_of_counts_kind.
    + apply yields_ret. reflexivity.
  - intros sync Hsync. skip_step. skip_step. skip_step.
    apply yields_ret. intros r [= <-]. simpl. exact Hsync.
Qed.

(** What the inspector computes for [rebase_status] on a trunk branch. *)
Lemma check_repo_rebase (repo_path : Path) (is_worktree : bool) :
  yields (check_repo repo_path is_worktree)
    (fun o => forall r, o = Some r ->
       in_tuple (branch r) [main_branch r; cps "main"; cps "dev"; cps "master"]
         = true ->
       rebase_status r = unknown).
Proof.
  unfold check_repo. skip_step. apply yields_skip; intros [ok branch0].
  destruct ok; simpl; [|apply yields_ret; discriminate].
  skip_step. apply yields_skip; intros [ok remote_check]. skip_step.
  match goal with
  | |- yields (bind (if ?c then _ else _) _) _ => set (on_main := c)
  end.
  apply yields_bind with (P := fun s => on_main = true -> s = unknown).
  - destruct on_main.
    + apply yields_ret. reflexivity.
    + intros st s st' _. discriminate.
  - intros rebase Hrebase. skip_step. skip_step.
    apply yields_ret. intros r [= <-]. simpl. exact Hrebase.
Qed.

End InspectorFacts.

Section InspectorClaims.
Context {U : Unicode} {PF : Platform}.

(** C2. In every state the inspector produces, the synchronisation status
    is the sentinel ["-"] exactly when no remote branch exists; and when
    one exists the status is of exactly one of the kinds Synced, Ahead,
    Behind, Diverged. *)
Theorem inspector_sync_status (repo_path : Path) (is_worktree : bool)
    (st st' : St) (r : RepoStatus) :
  check_repo repo_path is_worktree st = (Ret (Some r), st') ->
  (sync_status r = unknown <-> remote_exists r = false) /\
  (remote_exists r = true ->
   exists k, has_kind k (sync_status r) /\
             forall k', has_kind k' (sync_status r) -> k' = k).
Proof.
  intros E. pose proof (check_repo_sync repo_path is_worktree st E eq_refl) as H.
  destruct (remote_exists r).
  - destruct H as (k & Hk). split.
    + split; [|discriminate]. intros Hu. now apply has_kind_known in Hk.
    + intros _. exists k. split; [exact Hk|].
      intros k' Hk'. eapply has_kind_unique; eassumption.
  - split; [tauto | discriminate].
Qed.

(** C3 (as the code behaves). For a Diverged status, as the inspector
    writes it, with a remote branch and a clean tree, pull is ineligible
    and the reason is ["already synced"]: the text holds no ["Behind"], so
    the test for Diverged that follows is never reached. *)
Theorem diverged_pull_reason (r : RepoStatus) :
  remote_exists r = true ->
  has_kind Diverged (sync_status r) ->
  has_changes r = false ->
  can_pull r = false /\
  why_not_pull r = Some (cps "already synced") /\
  why_not_pull r <> Some (cps "diverged (use force push)").
Proof.
  intros Hr (a & b & _ & _ & Hs) _.
  assert (E : why_not_pull r = Some (cps "already synced")).
  { assert (Hc : contains (sync_status r) (cps "Behind") = false).
    { rewrite Hs. change (cps "Behind") with (66%N :: cps "ehind").
      apply contains_absent, literal_has_no_B. }
    unfold why_not_pull. rewrite Hr, Hc. reflexivity. }
  unfold can_pull. rewrite E. repeat split. discriminate.
Qed.

(** C7. In every state the inspector produces whose branch is the trunk
    or one of ["main"], ["dev"], ["master"], the rebase status is the
    sentinel ["-"], and rebase is ineligible with the reason
    ["on main branch"]. *)
Theorem trunk_branch_never_rebased (repo_path : Path) (is_worktree : bool)
    (st st' : St) (r : RepoStatus) :
  check_repo repo_path is_worktree st = (Ret (Some r), st') ->
  on_trunk r ->
  rebase_status r = unknown /\
  can_rebase r = false /\
  why_not_rebase r = Some (cps "on main branch").
Proof.
  intros E Hin. apply in_tuple_In in Hin.
  split; [exact (check_repo_rebase repo_path is_worktree st E eq_refl Hin)|].
  unfold can_rebase, why_not_rebase. rewrite Hin. split; reflexivity.
Qed.

End InspectorClaims.

(** The theorems at work on scripted repositories. *)

Lemma dirty_blocks_on_scripted_repo :
  let r := Scripted.status_of Scripted.diverged_repo "Repo" "/work/app"
             "login-form" true "Behind (-1)" true in
  can_pull r = false /\ can_rebase r = false /\ can_delete_local r = false.
Proof.
  intros r. apply (dirty_blocks_pull_rebase_delete r). reflexivity.
Defined.

Lemma inspector_sync_status_on_diverged_repo :
  exists r,
    fst (Scripted.inspect Scripted.diverged_repo "/work/app" false)
      = Ret (Some r) /\
    remote_exists r = true /\
    sync_status r = cps "Diverged (+2/-3)" /\
    (sync_status r = unknown <-> remote_exists r = false).
Proof.
  eexists. split; [reflexivity|]. split; [reflexivity|]. split; [reflexivity|].
  eapply (@inspector_sync_status Scripted.ascii_only
            (Scripted.platform Scripted.diverged_repo)
            (Scripted.parse_path (cps "/work/app")) false
            (Scripted.start Scripted.diverged_repo)
            (snd (Scripted.inspect Scripted.diverged_repo "/work/app" false))).
  vm_compute. reflexivity.
Defined.

Lemma diverged_pull_reason_on_scripted_repo :
  let r := Scripted.status_of Scripted.diverged_repo "Repo" "/work/app"
             "login-form" true "Diverged (+2/-3)" false in
  why_not_pull r = Some (cps "already synced").
Proof.
  intros r. apply (diverged_pull_reason r).
  - reflexivity.
  - exists 2%Z, 3%Z. repeat split; try lia.
  - reflexivity.
Defined.

Lemma trunk_branch_never_rebased_on_trunk_repo :
  exists r,
    fst (Scripted.inspect Scripted.trunk_repo "/work/app" false)
      = Ret (Some r) /\
    branch r = cps "main" /\
    rebase_status r = unknown /\
    why_not_rebase r = Some (cps "on main branch").
Proof.
  eexists. split; [reflexivity|]. split; [reflexivity|].
  assert (H := @trunk_branch_never_rebased Scripted.ascii_only
            (Scripted.platform Scripted.trunk_repo)
            (Scripted.parse_path (cps "/work/app")) false
            (Scripted.start Scripted.trunk_repo)
            (snd (Scripted.inspect Scripted.trunk_repo "/work/app" false))
            _ eq_refl).
  split; apply H; right; left; reflexivity.
Defined.

(** ** The dirty-tree test *)

Section DirtyTree.
Context {U : Unicode} {PF : Platform}.

Lemma has_change_line_spec (lines : list str) :
  has_change_line lines = true <->
  exists line, In line lines /\ change_line line.
Proof.
  assert (B : forall line,
             truthy line && negb (startswith line (cps "??")) &&
             negb (startswith line (cps "!!")) = true <-> change_line line).
  { intros line. unfold change_line.
    rewrite !andb_true_iff, !negb_true_iff.
    destruct line; simpl; intuition congruence. }
  induction lines as [|l lines IH].
  - simpl. split; [discriminate | intros (line & [] & _)].
  - cbn [has_change_line].
    destruct (truthy l && negb (startswith l (cps "??")) &&
              negb (startswith l (cps "!!"))) eqn:E.
    + split; [|reflexivity]. intros _. exists l. split; [now left|].
      now apply B.
    + rewrite IH. split.
      * intros (line & Hin & H). exists line. split; [now right | exact H].
      * intros (line & [<- | Hin] & H).
        -- apply B in H. congruence.
        -- exists line. auto.
Qed.

(** C4 (as the code behaves). The dirty-tree test always answers; it
    answers true when the status query fails; and when the query succeeds
    it answers true exactly when some line of the output is not empty and
    starts neither with ["??"] nor with ["!!"]: untracked and ignored
    entries do not count. *)
Theorem has_uncommitted_changes_decides (repo_path : Path) (st : St) :
  let answer :=
    fst (git [cps "status"; cps "--porcelain"] repo_path (world st)) in
  exists b st',
    has_uncommitted_changes repo_path st = (Ret b, st') /\
    (fst answer = false -> b = true) /\
    (fst answer = true ->
     (b = true <->
      exists line, In line (splitlines (snd answer)) /\ change_line line)).
Proof.
  unfold has_uncommitted_changes, bind, run_git, ret. simpl.
  destruct (git _ repo_path (world st)) as [[ok output] w]. simpl.
  eexists. eexists. split; [reflexivity|].
  unfold changes_of_status. destruct ok; simpl.
  - split; [discriminate|]. intros _. apply has_change_line_spec.
  - split; [reflexivity | discriminate].
Qed.

End DirtyTree.

(** ** Reset-to-remote and delete-local *)

Section Destructive.
Context {U : Unicode} {PF : Platform}.

(** C6. Reset-to-remote runs three git commands in the repository, in
    order: fetch, hard reset to the same-named remote branch, clean.  Each
    is run on the world the one before left, and only after the ones
    before it succeeded.  At the first command that fails the procedure
    stops: it returns failure with that step's label and the command's
    diagnostic, and the later commands are not run.  It returns success
    only after all three succeeded. *)
Theorem reset_to_remote_stops_at_first_failure (repo : RepoStatus) (st : St) :
  let fetch_args := [cps "fetch"; cps "origin"] in
  let reset_args := [cps "reset"; cps "--hard"; cps "origin/" ++ branch repo] in
  let clean_args := [cps "clean"; cps "-fd"] in
  let fetched := git fetch_args (path repo) (world st) in
  let reset := git reset_args (path repo) (snd fetched) in
  let cleaned := git clean_args (path repo) (snd reset) in
  let fetch := EvGit fetch_args (path repo) (fst fetched) in
  let hard_reset := EvGit reset_args (path repo) (fst reset) in
  let clean := EvGit clean_args (path repo) (fst cleaned) in
  reset_to_remote repo st =
  if fst (fst fetched) return Res (bool * str) * St then
    if fst (fst reset) return Res (bool * str) * St then
      if fst (fst cleaned) return Res (bool * str) * St then
        (Ret (true, cps "Reset to origin/" ++ branch repo),
         {| world := snd cleaned;
            trace := trace st ++ [fetch; hard_reset; clean] |})
      else
        (Ret (false, cps "Clean failed: " ++ snd (fst cleaned)),
         {| world := snd cleaned;
            trace := trace st ++ [fetch; hard_reset; clean] |})
    else
      (Ret (false, cps "Reset failed: " ++ snd (fst reset)),
       {| world := snd reset; trace := trace st ++ [fetch; hard_reset] |})
  else
    (Ret (false, cps "Fetch failed: " ++ snd (fst fetched)),
     {| world := snd fetched; trace := trace st ++ [fetch] |}).
Proof.
  cbv zeta. unfold reset_to_remote. rewrite bind_run_git.
  destruct (git [cps "fetch"; cps "origin"] (path repo) (world st))
    as [[ok1 out1] w1].
  cbn [fst snd world trace]. destruct ok1; cbn [negb]; [|reflexivity].
  rewrite bind_run_git. cbn [fst snd world trace].
  destruct (git [cps "reset"; cps "--hard"; cps "origin/" ++ branch repo]
                (path repo) w1) as [[ok2 out2] w2].
  cbn [fst snd world trace]. destruct ok2; cbn [negb].
  2:{ cbn [ret]. now rewrite <- app_assoc. }
  rewrite bind_run_git. cbn [fst snd world trace].
  destruct (git [cps "clean"; cps "-fd"] (path repo) w2)
    as [[ok3 out3] w3].
  cbn [fst snd world trace].
  destruct ok3; cbn [negb ret]; now rewrite <- !app_assoc.
Qed.

(** A text that starts with ["gitdir:"] has a part after its first
    colon: the index into the split cannot fail. *)
Lemma gitdir_has_rest (content : str) :
  startswith content (cps "gitdir:") = true ->
  exists rest, after_colon content = Some rest.
Proof.
  intros H.
  assert (G : forall p s, startswith s (p ++ [58%N]) = true ->
                          exists rest, after_colon s = Some rest).
  { induction p as [|x p IH]; intros [|c s'] Hs; simpl in Hs;
      try discriminate.
    - apply andb_true_iff in Hs as [Hc _]. simpl. rewrite Hc. eauto.
    - apply andb_true_iff in Hs as [_ Hs]. simpl.
      destruct (c =? 58)%N; eauto. }
  exact (G (cps "gitdir") content H).
Qed.

(** C5 (as the code behaves). Delete-local on a worktree first asks git
    for the git directory, and then one of three things happens, decided
    by the search for the owning repository.  When it is found, [git
    worktree remove --force] is run there and the directory is never
    removed directly, whether that command succeeds or fails; success is
    reported exactly when it succeeded.  When it is not found, the
    directory is removed at once with [shutil.rmtree], with no detachment.
    When the search raises (a path test or the reading of the pointer
    file), the exception leaves the procedure and nothing is removed or
    detached. *)
Theorem delete_worktree_paths (repo : RepoStatus) (st : St) :
  type_label repo = cps "Worktree" ->
  let asked := git [cps "rev-parse"; cps "--git-dir"] (path repo) (world st) in
  let probe := fst asked in
  let w := snd asked in
  let ask := EvGit [cps "rev-parse"; cps "--git-dir"] (path repo) probe in
  let run := delete_local_folder repo st in
  (forall owner, owner_found repo probe w owner ->
     let remove_args :=
       [cps "worktree"; cps "remove"; cps "--force"; path_str (path repo)] in
     let detached := git remove_args owner w in
     run =
     (Ret (fst (fst detached),
           if fst (fst detached) then cps "Worktree removed: " ++ name repo
           else cps "Worktree remove failed: " ++ snd (fst detached)),
      {| world := snd detached;
         trace := trace st ++ [ask; EvGit remove_args owner (fst detached)] |}))
  /\
  (owner_missing repo probe w ->
     let removed := fs_rmtree (path repo) w in
     run =
     (Ret (match fst removed with
           | None => (true, cps "Worktree folder deleted: " ++ name repo)
           | Some e => (false, cps "Delete failed: " ++ e)
           end),
      {| world := snd removed;
         trace := trace st ++ [ask; EvRmtree (path repo) (fst removed)] |}))
  /\
  (owner_unknown repo probe w ->
     run = (Raise OSError, {| world := w; trace := trace st ++ [ask] |}))
  /\
  ((exists owner, owner_found repo probe w owner) \/
   owner_missing repo probe w \/ owner_unknown repo probe w).
Proof.
  intros Hw. cbv zeta. unfold delete_local_folder.
  rewrite Hw, str_eqb_refl. rewrite bind_run_git.
  destruct (git [cps "rev-parse"; cps "--git-dir"] (path repo) (world st))
    as [[ok git_dir] w].
  cbn [fst snd].
  set (ask := EvGit [cps "rev-parse"; cps "--git-dir"] (path repo)
                    (ok, git_dir)).
  set (st1 := {| world := w; trace := trace st ++ [ask] |}).
  assert (Fallback :
    rmtree_reporting repo (cps "Worktree folder deleted: ") st1 =
    (Ret (match fst (fs_rmtree (path repo) w) with
          | None => (true, cps "Worktree folder deleted: " ++ name repo)
          | Some e => (false, cps "Delete failed: " ++ e)
          end),
     {| world := snd (fs_rmtree (path repo) w);
        trace := trace st ++
                 [ask; EvRmtree (path repo) (fst (fs_rmtree (path repo) w))] |})).
  { unfold rmtree_reporting. rewrite bind_rmtree. subst st1.
    cbn [world trace].
    destruct (fs_rmtree (path repo) w) as [raised w1].
    cbn [fst snd]. rewrite <- app_assoc.
    destruct raised; reflexivity. }
  unfold owner_found, owner_missing, owner_unknown. cbn [fst snd].
  destruct ok; cbn [andb].
  2:{ rewrite Fallback. repeat split.
      - intros owner (H & _). discriminate H.
      - intros (H & _). discriminate H.
      - right. left. now left. }
  destruct git_dir as [|g git_dir]; cbn [truthy].
  { rewrite Fallback. repeat split.
    - intros owner (_ & H & _). now contradiction H.
    - intros (_ & H & _). now contradiction H.
    - right. left. right. now left. }
  rewrite bind_ask_or_raise.
  change (world st1) with w.
  destruct (fs_is_file (path_join (path repo) (cps ".git")) w)
    as [[|]|] eqn:Efile.
  3:{ repeat split.
      - intros owner (_ & _ & H & _). discriminate H.
      - intros [H|[H|[H|(H & _)]]]; discriminate H.
      - right. right. repeat split; [discriminate | now left]. }
  2:{ rewrite Fallback. repeat split.
      - intros owner (_ & _ & H & _). discriminate H.
      - intros (_ & _ & [H|(H & _)]); discriminate H.
      - right. left. right. right. now left. }
  rewrite bind_ask_or_raise. change (world st1) with w.
  destruct (fs_read_text (path_join (path repo) (cps ".git")) w)
    as [text|] eqn:Etext.
  2:{ repeat split.
      - intros owner (_ & _ & _ & t0 & r0 & H & _). discriminate H.
      - intros [H|[H|[H|(_ & t0 & H & _)]]]; discriminate H.
      - right. right. repeat split; [discriminate|].
        right. split; [reflexivity | now left]. }
  destruct (startswith (strip text) (cps "gitdir:")) eqn:Estart.
  2:{ rewrite Fallback. repeat split.
      - intros owner (_ & _ & _ & t0 & r0 & Ht & Hs & _).
        injection Ht as Ht; subst t0.
        rewrite Hs in Estart. discriminate Estart.
      - intros (_ & _ & [H|(_ & [H|(t0 & r0 & Ht & Hs & _)])]);
          try discriminate H.
        injection Ht as Ht; subst t0.
        rewrite Hs in Estart. discriminate Estart.
      - right. left. right. right. right. split; [reflexivity|].
        exists text. auto. }
  destruct (gitdir_has_rest _ Estart) as (rest & Erest).
  rewrite bind_index_1, Erest. rewrite bind_ask_or_raise.
  change (world st1) with w. fold (owner_dir rest).
  destruct (fs_exists (owner_dir rest) w) as [[|]|] eqn:Eowner.
  - rewrite bind_run_git. subst st1. cbn [world trace].
    repeat split.
    + intros owner (_ & _ & _ & t0 & r0 & Ht & _ & Hr & -> & _).
      injection Ht as Ht; subst t0.
      rewrite Erest in Hr; injection Hr as Hr; subst r0.
      destruct (git _ (owner_dir rest) w) as [[ok2 out] w2].
      cbn [fst snd]. rewrite <- app_assoc.
      destruct ok2; reflexivity.
    + intros [H|[H|[H|(_ & t0 & Ht & [Hs|(r0 & Hr & He)])]]];
        try discriminate H; try (now contradiction H);
        injection Ht as Ht; subst t0.
      * rewrite Hs in Estart. discriminate Estart.
      * rewrite Erest in Hr; injection Hr as Hr; subst r0.
        rewrite He in Eowner. discriminate Eowner.
    + intros (_ & _ & [H|(_ & [H|(t0 & r0 & Ht & _ & Hr & He)])]);
        try discriminate H.
      injection Ht as Ht; subst t0.
      rewrite Erest in Hr; injection Hr as Hr; subst r0.
      rewrite He in Eowner. discriminate Eowner.
    + left. exists (owner_dir rest). repeat split; try assumption;
        try discriminate.
      exists text, rest. auto.
  - rewrite Fallback. repeat split.
    + intros owner (_ & _ & _ & t0 & r0 & Ht & _ & Hr & -> & He).
      injection Ht as Ht; subst t0.
      rewrite Erest in Hr; injection Hr as Hr; subst r0.
      rewrite He in Eowner. discriminate Eowner.
    + intros (_ & _ & [H|(_ & [H|(t0 & r0 & Ht & _ & Hr & He)])]);
        try discriminate H.
      injection Ht as Ht; subst t0.
      rewrite Erest in Hr; injection Hr as Hr; subst r0.
      rewrite He in Eowner. discriminate Eowner.
    + right. left. right. right. right. split; [reflexivity|].
      exists text. split; [reflexivity|]. right. exists rest. auto.
  - repeat split.
    + intros owner (_ & _ & _ & t0 & r0 & Ht & _ & Hr & -> & He).
      injection Ht as Ht; subst t0.
      rewrite Erest in Hr; injection Hr as Hr; subst r0.
      rewrite He in Eowner. discriminate Eowner.
    + intros [H|[H|[H|(_ & t0 & Ht & [Hs|(r0 & Hr & He)])]]];
        try discriminate H; try (now contradiction H);
        injection Ht as Ht; subst t0.
      * rewrite Hs in Estart. discriminate Estart.
      * rewrite Erest in Hr; injection Hr as Hr; subst r0.
        rewrite He in Eowner. discriminate Eowner.
    + right. right. repeat split; [discriminate|].
      right. split; [reflexivity|]. right. exists text, rest. auto.
Qed.

End Destructive.

(** The dirty-tree test and the destructive procedures on scripted
    repositories. *)

(** C4, the claim as written fails: a successful status query that
    reports one untracked file leaves the tree clean. *)
Lemma untracked_file_is_not_a_change :
  let PF := Scripted.platform Scripted.diverged_repo in
  let p := Scripted.parse_path (cps "/work/app") in
  let st := Scripted.start Scripted.diverged_repo in
  fst (git [cps "status"; cps "--porcelain"] p (world st))
    = (true, cps "?? notes.txt") /\
  fst (has_uncommitted_changes p st) = Ret false /\
  fst (has_uncommitted_changes p st) <> Ret true.
Proof.
  cbv zeta. split; [reflexivity|]. split; [reflexivity|].
  vm_compute. discriminate.
Qed.

Lemma has_uncommitted_changes_on_scripted_repo :
  let PF := Scripted.platform Scripted.trunk_repo in
  exists b st',
    has_uncommitted_changes (Scripted.parse_path (cps "/work/app"))
      (Scripted.start Scripted.trunk_repo) = (Ret b, st') /\
    b = false.
Proof.
  cbv zeta.
  destruct (@has_uncommitted_changes_decides
              (Scripted.platform Scripted.trunk_repo)
              (Scripted.parse_path (cps "/work/app"))
              (Scripted.start Scripted.trunk_repo)) as (b & st' & E & _ & _).
  exists b, st'. split; [exact E|].
  vm_compute in E. now inversion E.
Defined.

(** C5, the claim as written fails: when the git-dir query fails, the
    worktree's directory is removed although no detachment took place. *)
Lemma worktree_removed_without_detachment :
  let sc := Scripted.broken_worktree in
  let repo := Scripted.status_of sc "Worktree" "/work/app-login" "login"
                true "Synced" false in
  type_label repo = cps "Worktree" /\
  fst (delete_local_folder repo (Scripted.start sc))
    = Ret (true, cps "Worktree folder deleted: app-login") /\
  ~ detached_before_removal
      (trace (snd (delete_local_folder repo (Scripted.start sc)))).
Proof.
  cbv zeta. split; [reflexivity|]. split; [reflexivity|].
  intros H. pose (PF := Scripted.platform Scripted.broken_worktree).
  destruct (H [@EvGit PF [cps "rev-parse"; cps "--git-dir"]
                 (Scripted.parse_path (cps "/work/app-login"))
                 (false, cps "fatal: not a git repository")]
              (Scripted.parse_path (cps "/work/app-login")) None [])
    as (args & cwd & out & Hin).
  - reflexivity.
  - destruct Hin as [Hin | []]. discriminate Hin.
Qed.

Lemma delete_worktree_paths_on_locked_worktree :
  let sc := Scripted.locked_worktree in
  let repo := Scripted.status_of sc "Worktree" "/work/app-login" "login"
                true "Synced" false in
  fst (delete_local_folder repo (Scripted.start sc))
    = Ret (false, cps "Worktree remove failed: fatal: working tree is locked")
  /\
  forall p raised,
    ~ In (EvRmtree p raised)
         (trace (snd (delete_local_folder repo (Scripted.start sc)))).
Proof.
  cbv zeta.
  pose proof (proj1 (@delete_worktree_paths
              (Scripted.platform Scripted.locked_worktree)
              (Scripted.status_of Scripted.locked_worktree "Worktree"
                 "/work/app-login" "login" true "Synced" false)
              (Scripted.start Scripted.locked_worktree) eq_refl)
              (Scripted.parse_path (cps "/work/app"))) as H.
  cbv zeta in H. rewrite H.
  - split; [reflexivity|].
    intros p raised Hin. vm_compute in Hin.
    destruct Hin as [Hin | [Hin | []]]; discriminate Hin.
  - split; [reflexivity|]. split; [discriminate|]. split; [reflexivity|].
    exists (cps "gitdir: /work/app/.git/worktrees/app-login"),
           (cps " /work/app/.git/worktrees/app-login").
    repeat split; vm_compute; reflexivity.
Defined.

(** ** Branch suffixes: the scenario of the specification *)

(** C8, the claim as written fails: the suffix is not
    ["user-authentication"]. *)
Lemma suffix_keeps_now :
  @generate_speckit_branch_name Scripted.ascii_only
    (cps "I want to add user authentication now")
  <> cps "user-authentication".
Proof. vm_compute. discriminate. Qed.

(** C8 (as the code behaves). For the description
    ["I want to add user authentication now"] the suffix is
    ["user-authentication-now"]: "i", "want", "to" and "add" are stop
    words, "now" is not. *)
Theorem suffix_of_scenario (U : Unicode) :
  generate_speckit_branch_name (cps "I want to add user authentication now")
  = cps "user-authentication-now" /\
  in_tuple (cps "now") stop_words = false /\
  forallb (fun w => in_tuple (cps w) stop_words) ["i"; "want"; "to"; "add"]%string
  = true.
Proof. repeat split; vm_compute; reflexivity. Qed.

(** ** Feature numbering *)

Section Numbering.
Context {U : Unicode} {PF : Platform}.

Lemma bind_of_run {A B} (m : M A) (f : A -> M B) (st st' : St) (a : A) :
  m st = (Ret a, st') -> bind m f st = f a st'.
Proof. intros E. unfold bind. now rewrite E. Qed.

(** Three decimal digits always read as a number, and not a negative one:
    [int] cannot raise on what the pattern matched. *)
Lemma matched_prefix_reads (n g : str) :
  match_feature_prefix n = Some g ->
  exists k, int g = Some k /\ (0 <= k)%Z.
Proof.
  unfold match_feature_prefix.
  destruct n as [|a [|b [|c [|d rest]]]]; try discriminate.
  destruct (is_decimal a) eqn:Ea; [|discriminate].
  destruct (is_decimal b) eqn:Eb; [|discriminate].
  destruct (is_decimal c) eqn:Ec; [|discriminate].
  destruct (d =? 45)%N; [|discriminate].
  intros [= <-]. unfold is_decimal in Ea, Eb, Ec.
  unfold int. cbn [truthy digits_value].
  destruct (decimal_value a) as [x|]; [|discriminate].
  destruct (decimal_value b) as [y|]; [|discriminate].
  destruct (decimal_value c) as [z|]; [|discriminate].
  eexists. split; [reflexivity|].
  pose proof (N2Z.is_nonneg x). pose proof (N2Z.is_nonneg y).
  pose proof (N2Z.is_nonneg z). lia.
Qed.

Lemma prefix_number_nonneg (n : str) (k : Z) :
  prefix_number n = Some k -> (0 <= k)%Z.
Proof.
  unfold prefix_number. destruct (match_feature_prefix n) as [g|] eqn:E;
    [|discriminate].
  destruct (matched_prefix_reads _ E) as (k' & Hk & Hpos).
  rewrite Hk. now intros [= <-].
Qed.

Lemma bump_highest_run (highest : Z) (candidate : str) (st : St) :
  bump_highest highest candidate st =
  (Ret (match prefix_number candidate with
        | Some k => Z.max highest k
        | None => highest
        end), st).
Proof.
  unfold bump_highest, prefix_number.
  destruct (match_feature_prefix candidate) as [g|] eqn:E; [|reflexivity].
  destruct (matched_prefix_reads _ E) as (k & Hk & _).
  unfold py_int. rewrite Hk. reflexivity.
Qed.

(** What the cleaning of a branch line keeps was in the line. *)
Lemma Forall_lstrip (P : N -> Prop) (s : str) :
  Forall P s -> Forall P (lstrip s).
Proof.
  induction 1 as [|c s Hc Hs IH]; cbn [lstrip]; [constructor|].
  destruct (is_space c); [exact IH | now constructor].
Qed.

Lemma Forall_strip (P : N -> Prop) (s : str) :
  Forall P s -> Forall P (strip s).
Proof.
  intros H. unfold strip, rstrip.
  apply Forall_rev, Forall_lstrip, Forall_rev, Forall_lstrip, H.
Qed.

Lemma Forall_lstrip_chars (P : N -> Prop) (chars s : str) :
  Forall P s -> Forall P (lstrip_chars chars s).
Proof.
  induction 1 as [|c s Hc Hs IH]; cbn [lstrip_chars]; [constructor|].
  destruct (existsb (N.eqb c) chars); [exact IH | now constructor].
Qed.

Lemma Forall_remove_all_aux (P : N -> Prop) (old s : str) (skip : nat) :
  Forall P s -> Forall P (remove_all_aux old skip s).
Proof.
  intros H. revert skip.
  induction H as [|c s Hc Hs IH]; intros skip; cbn [remove_all_aux];
    [constructor|].
  destruct skip; [|apply IH].
  destruct (startswith (c :: s) old); [apply IH | constructor; auto].
Qed.

Lemma Forall_clean_branch_line (P : N -> Prop) (line : str) :
  Forall P line -> Forall P (clean_branch_line line).
Proof.
  intros H. unfold clean_branch_line, remove_all.
  apply Forall_remove_all_aux, Forall_lstrip_chars, Forall_strip, H.
Qed.

(** A name that starts with no decimal digit carries no number. *)
Lemma prefix_number_needs_digit (n : str) :
  match n with
  | c :: _ => is_decimal c = false
  | [] => True
  end ->
  prefix_number n = None.
Proof.
  unfold prefix_number, match_feature_prefix.
  destruct n as [|a [|b [|c [|d rest]]]]; try reflexivity.
  intros ->. reflexivity.
Qed.

(** A line without digits brings no number. *)
Lemma digitless_brings_nothing (line : str) :
  digitless line -> prefix_number (clean_branch_line line) = None.
Proof.
  intros H. apply prefix_number_needs_digit.
  unfold digitless in H. pose proof (Forall_clean_branch_line H) as F.
  destruct (clean_branch_line line); [exact I|].
  now inversion F.
Qed.

(** The line of a branch checked out in another worktree brings no
    number, whatever its name: the mark ["+"] is not stripped, and no
    number starts with it. *)
Lemma other_worktree_brings_nothing (line : str) :
  in_other_worktree line = true ->
  prefix_number (clean_branch_line line) = None.
Proof.
  unfold in_other_worktree, clean_branch_line, remove_all. intros H.
  destruct (strip line) as [|c rest]; [discriminate H|].
  change (cps "+") with [43%N] in H. cbn [startswith] in H.
  apply andb_true_iff in H as [H _]. apply N.eqb_eq in H. subst c.
  change (lstrip_chars (cps "* ") (43%N :: rest)) with (43%N :: rest).
  change (remove_all_aux (cps "remotes/origin/") 0 (43%N :: rest))
    with (43%N :: remove_all_aux (cps "remotes/origin/") 0 rest).
  apply prefix_number_needs_digit. reflexivity.
Qed.

(** The loop over branch lines that bring no number. *)
Lemma branch_loop_idle (lines : list str) (highest : Z) (st : St) :
  (forall line, In line lines ->
     in_other_worktree line = true \/ digitless line) ->
  for_each (fun highest line => bump_highest highest (clean_branch_line line))
           highest lines st = (Ret highest, st).
Proof.
  induction lines as [|l lines IH]; intros H.
  - reflexivity.
  - cbn [for_each]. erewrite bind_of_run by apply bump_highest_run.
    assert (E : prefix_number (clean_branch_line l) = None).
    { destruct (H l (or_introl eq_refl)).
      - now apply other_worktree_brings_nothing.
      - now apply digitless_brings_nothing. }
    rewrite E. apply IH. intros line Hin. apply H. now right.
Qed.

(** The loop over entries that bring no specification folder. *)
Lemma item_loop_idle (items : list Path) (highest : Z) (st : St) :
  (forall item, In item items -> without_specs (world st) item) ->
  for_each
    (fun highest item =>
       bind (ask_or_raise (fs_is_dir item))
         (fun item_is_dir =>
            if negb item_is_dir then ret highest
            else
              let specs_dir := path_join item (cps "specs") in
              bind (ask_or_raise (fs_exists specs_dir))
                (fun specs_exists =>
                   if specs_exists then
                     bind (ask_or_raise (fs_iterdir specs_dir))
                       (fun spec_items =>
                          for_each
                            (fun highest spec_item =>
                               bind (ask_or_raise (fs_is_dir spec_item))
                                 (fun spec_is_dir =>
                                    if spec_is_dir
                                    then bump_highest highest
                                           (path_name spec_item)
                                    else ret highest))
                            highest spec_items)
                   else ret highest)))
    highest items st = (Ret highest, st).
Proof.
  induction items as [|item items IH]; intros H.
  - reflexivity.
  - cbn [for_each]. unfold bind at 1. rewrite bind_ask_or_raise.
    destruct (H item (or_introl eq_refl)) as [E | [E E']]; rewrite E;
      cbn [negb].
    + unfold ret at 1. apply IH. intros i Hi. apply H. now right.
    + cbv zeta. rewrite bind_ask_or_raise, E'. unfold ret at 1.
      apply IH. intros i Hi. apply H. now right.
Qed.

End Numbering.

(** C9 (as the code behaves). A branch that is checked out in another
    worktree is not read by the numbering: [git branch -a] lists it as
    ["+ <name>"], the cleaning strips ["*"] and blanks only, and the
    pattern finds no number behind the ["+"].  When every listed line is
    such a line or holds no digit, and no entry of the scanned directory
    has a [specs] folder, the next number is 1, whatever numbers the
    branches of the other worktrees carry. *)
Theorem next_feature_number_skips_worktree_branches
    (U : Unicode) (PF : Platform) (repo_path scan_dir : Path) (st : St)
    (items : list Path) :
  let asked := git [cps "branch"; cps "-a"] repo_path (world st) in
  fst (fst asked) = true ->
  (forall line, In line (splitlines (snd (fst asked))) ->
     in_other_worktree line = true \/ digitless line) ->
  fs_iterdir scan_dir (snd asked) = Some items ->
  (forall item, In item items -> without_specs (snd asked) item) ->
  get_next_feature_number repo_path scan_dir st =
  (Ret 1%Z,
   {| world := snd asked;
      trace := trace st ++
               [EvGit [cps "branch"; cps "-a"] repo_path (fst asked)] |}).
Proof.
  cbv zeta. unfold get_next_feature_number. cbv zeta. rewrite bind_run_git.
  destruct (git [cps "branch"; cps "-a"] repo_path (world st))
    as [[ok branches] w].
  cbn [fst snd]. intros -> Hlines Hitems Hspecs.
  erewrite bind_of_run by (apply branch_loop_idle; exact Hlines).
  rewrite bind_ask_or_raise. cbn [world]. rewrite Hitems.
  erewrite bind_of_run by (apply item_loop_idle; exact Hspecs).
  reflexivity.
Qed.

Lemma next_feature_number_on_worktree_feature :
  let U := Scripted.ascii_only in
  let sc := Cases.worktree_feature in
  fst (git (PF := Scripted.platform sc) [cps "branch"; cps "-a"]
         (Scripted.parse_path (cps "/work/app")) tt)
    = (true, cps "+ 050-wt
* main
  remotes/origin/main") /\
  prefix_number (cps "050-wt") = Some 50%Z /\
  fst (Scripted.next_number sc "/work/app" "/work") = Ret 1%Z.
Proof.
  cbv zeta. split; [reflexivity|]. split; [reflexivity|].
  unfold Scripted.next_number.
  rewrite (@next_feature_number_skips_worktree_branches
             Scripted.ascii_only
             (Scripted.platform Cases.worktree_feature)
             (Scripted.parse_path (cps "/work/app"))
             (Scripted.parse_path (cps "/work"))
             (Scripted.start Cases.worktree_feature)
             (Scripted.children_in Cases.worktree_feature
                (Scripted.parse_path (cps "/work")))).
  - reflexivity.
  - reflexivity.
  - intros line Hin. vm_compute in Hin.
    destruct Hin as [<- | [<- | [<- | []]]].
    + left. reflexivity.
    + right. repeat constructor.
    + right. repeat constructor.
  - reflexivity.
  - intros item Hin. vm_compute in Hin.
    destruct Hin as [<- | [<- | []]]; right; split; reflexivity.
Defined.

(** Beside a branch of another worktree, the current branch and a remote
    branch are read: 007 and 031 give 32, and 050 is passed over. *)
Lemma next_feature_number_of_mixed_listing :
  fst (Scripted.next_number Cases.mixed_listing "/work/app" "/work")
    = Ret 32%Z.
Proof. vm_compute. reflexivity. Qed.

(** The scenario of the specification: with branches 041 and 042 and a
    specification folder 043 the next number is 44. *)
Lemma next_feature_number_of_scenario :
  let U := Scripted.ascii_only in
  prefix_number (cps "041-x") = Some 41%Z /\
  prefix_number (cps "042-oauth-login") = Some 42%Z /\
  prefix_number (cps "043-y") = Some 43%Z /\
  fst (Scripted.next_number Scripted.numbered_features "/work/app" "/work")
    = Ret 44%Z.
Proof. cbv zeta. repeat split; vm_compute; reflexivity. Qed.

(** ** Branch suffixes *)

Section Suffix.
Context {U : Unicode}.

Lemma lower_has_no_capital :
  (forall s c, In c (uni_lower s) -> is_upper c = false) ->
  forall s, Forall (fun c => is_upper c = false) (lower s).
Proof.
  intros H s. unfold lower. destruct (forallb is_ascii s).
  - apply Forall_forall. intros c Hin. apply in_map_iff in Hin.
    destruct Hin as (x & <- & _).
    destruct (is_upper x) eqn:E; [|exact E].
    unfold is_upper in *. apply andb_true_iff in E as [E1 E2].
    apply N.leb_le in E1, E2. apply andb_false_iff. right.
    apply N.leb_gt. lia.
  - apply Forall_forall. intros c Hin. now apply H with s.
Qed.

(** The words the pattern finds: not empty, made of letters of the text. *)
Lemma findall_alpha_aux_words (Q : N -> Prop) (s cur : str) :
  Forall Q s ->
  Forall (fun c => is_alpha c = true /\ Q c) cur ->
  Forall (fun w => w <> [] /\ Forall (fun c => is_alpha c = true /\ Q c) w)
         (findall_alpha_aux cur s).
Proof.
  revert cur. induction s as [|c s IH]; intros cur Hs Hcur.
  - destruct cur as [|x cur]; simpl; constructor; [|constructor].
    split.
    + intros E. apply (f_equal (@List.length N)) in E.
      rewrite length_app in E. simpl in E. lia.
    + apply (Forall_rev Hcur).
  - inversion Hs as [|? ? Hc Hs']; subst. cbn [findall_alpha_aux].
    destruct (is_alpha c) eqn:Ea.
    + apply IH; [exact Hs'|]. constructor; [split|]; assumption.
    + destruct cur as [|x cur].
      * apply IH; [exact Hs' | constructor].
      * constructor; [|apply IH; [exact Hs' | constructor]].
        split.
        -- intros E. apply (f_equal (@List.length N)) in E.
           simpl in E. rewrite length_app in E. simpl in E. lia.
        -- apply (Forall_rev Hcur).
Qed.

Lemma words_are_lowercase :
  (forall s c, In c (uni_lower s) -> is_upper c = false) ->
  forall s, Forall lowercase_word (findall_alpha (lower s)).
Proof.
  intros H s.
  pose proof (findall_alpha_aux_words (lower_has_no_capital H s)
                (Forall_nil _)) as Hw.
  unfold findall_alpha. eapply Forall_impl; [|exact Hw].
  intros w (Hne & Hall). split; [exact Hne|].
  eapply Forall_impl; [|exact Hall].
  intros c (Ha & Hu). unfold is_alpha in Ha. rewrite Hu in Ha. exact Ha.
Qed.

Lemma Forall_filter_keeps {A} (P : A -> Prop) (f : A -> bool) (l : list A) :
  Forall P l -> Forall P (filter f l).
Proof.
  intros H. apply Forall_forall. intros x Hin. apply filter_In in Hin.
  rewrite Forall_forall in H. now apply H.
Qed.

Lemma Forall_firstn_keeps {A} (P : A -> Prop) (n : nat) (l : list A) :
  Forall P l -> Forall P (firstn n l).
Proof.
  revert l. induction n as [|n IH]; intros l H; [constructor|].
  destruct H; simpl; constructor; auto.
Qed.

Lemma firstn_4_size {A} (l : list A) :
  nonempty l = true -> (1 <= List.length (firstn 4 l) <= 4)%nat.
Proof.
  destruct l as [|a [|b [|c [|d l]]]]; simpl; intros H; try discriminate; lia.
Qed.

Lemma join_chars (sep : str) (ws : list str) (P : N -> Prop) :
  Forall P sep -> Forall (Forall P) ws -> Forall P (join sep ws).
Proof.
  intros Hsep. induction 1 as [|w ws Hw Hws IH]; [constructor|].
  destruct ws as [|w' ws].
  - exact Hw.
  - change (join sep (w :: w' :: ws)) with (w ++ sep ++ join sep (w' :: ws)).
    rewrite !Forall_app. auto.
Qed.

Lemma join_nonempty (sep : str) (ws : list str) :
  ws <> [] -> Forall (fun w => w <> []) ws -> join sep ws <> [].
Proof.
  destruct ws as [|w ws]; [congruence|]. intros _ H.
  inversion H as [|? ? Hw _]; subst.
  destruct w as [|c w]; [congruence|].
  destruct ws; discriminate.
Qed.

(** C10. Whatever the description (the Unicode tables never lower-case to
    an ASCII capital), the suffix is not empty, holds lowercase ASCII
    letters and hyphens only, and is made of one to four words joined by
    hyphens, each a non-empty run of lowercase letters. *)
Theorem suffix_well_formed (description : str) :
  (forall s c, In c (uni_lower s) -> is_upper c = false) ->
  let result := generate_speckit_branch_name description in
  result <> [] /\
  Forall (fun c => is_lower c = true \/ c = 45%N) result /\
  exists ws,
    result = join (cps "-") ws /\
    (1 <= List.length ws <= 4)%nat /\
    Forall lowercase_word ws.
Proof.
  intros H result.
  assert (W : exists ws,
             result = join (cps "-") ws /\
             (1 <= List.length ws <= 4)%nat /\
             Forall lowercase_word ws).
  { subst result. unfold generate_speckit_branch_name. cbv zeta.
    pose proof (words_are_lowercase H description) as Hw.
    set (words := findall_alpha (lower description)) in *.
    set (meaningful := filter _ words).
    assert (Hm : Forall lowercase_word meaningful)
      by now apply Forall_filter_keeps.
    set (short := firstn 3 (filter _ words)).
    assert (Hs : Forall lowercase_word short)
      by now apply Forall_firstn_keeps, Forall_filter_keeps.
    destruct (nonempty meaningful) eqn:Em; cbn [negb].
    - rewrite Em. exists (firstn 4 meaningful).
      split; [reflexivity|]. split; [now apply firstn_4_size|].
      now apply Forall_firstn_keeps.
    - destruct (nonempty short) eqn:Es.
      + exists (firstn 4 short).
        split; [reflexivity|]. split; [now apply firstn_4_size|].
        now apply Forall_firstn_keeps.
      + exists [cps "feature"]. split; [reflexivity|]. split; [simpl; lia|].
        constructor; [|constructor]. split; [discriminate|].
        repeat constructor. }
  destruct W as (ws & E & Hlen & Hws). rewrite E.
  split; [|split].
  - apply join_nonempty.
    + destruct ws; [simpl in Hlen; lia | discriminate].
    + eapply Forall_impl; [|exact Hws]. now intros w (Hne & _).
  - apply join_chars.
    + change (cps "-") with [45%N]. constructor; [now right | constructor].
    + eapply Forall_impl; [|exact Hws]. intros w (_ & Hall).
      eapply Forall_impl; [|exact Hall]. intros c Hc. now left.
  - exists ws. auto.
Qed.

End Suffix.

Lemma suffix_well_formed_on_login_page :
  let U := Scripted.ascii_only in
  generate_speckit_branch_name (cps "Fix the Login page!")
    = cps "fix-login-page" /\
  exists ws,
    generate_speckit_branch_name (cps "Fix the Login page!")
      = join (cps "-") ws /\
    (1 <= List.length ws <= 4)%nat /\
    Forall lowercase_word ws.
Proof.
  cbv zeta. split; [reflexivity|].
  apply (@suffix_well_formed Scripted.ascii_only (cps "Fix the Login page!")).
  intros s c Hin. cbn in Hin. apply in_map_iff in Hin.
  destruct Hin as (x & <- & _).
  destruct (is_upper x) eqn:E; [|exact E].
  unfold is_upper in *. apply andb_true_iff in E as [E1 E2].
  apply N.leb_le in E1, E2. apply andb_false_iff. right.
  apply N.leb_gt. lia.
Defined.

(* ===================================================================== *)
(** ** The gateway *)
(* ===================================================================== *)

Lemma split_on_aux_parts (sep : N) (s cur part : str) :
  ~ In sep cur ->
  In part (split_on_aux sep cur s) -> ~ In sep part.
Proof.
  revert cur. induction s as [|c s IH]; intros cur Hcur; simpl.
  - intros [<- | []]. now rewrite <- in_rev.
  - destruct (N.eqb_spec c sep) as [->|Hne].
    + intros [<- | Hin].
      * now rewrite <- in_rev.
      * apply (IH []); auto.
    + apply IH. intros [E | Hin]; [congruence | auto].
Qed.

Lemma split_on_parts (sep : N) (s part : str) :
  In part (split_on sep s) -> ~ In sep part.
Proof. apply split_on_aux_parts. intros []. Qed.

Lemma last_in {A} (l : list A) (d : A) : l <> [] -> In (last l d) l.
Proof.
  induction l as [|x [|y l] IH]; intros H; [congruence | now left |].
  right. apply IH. discriminate.
Qed.

Section Gateway.
Context {U : Unicode} {PF : Platform}.

(** X1. What [run_git] makes of an ended process: the call succeeds
    exactly when the return code is 0; after any other return code the
    diagnostic it returns is not empty and is a single line. *)
Theorem git_answer_of_exit (returncode : Z) (stdout stderr : str) :
  let answer := git_answer (Exited returncode stdout stderr) in
  (fst answer = true <-> returncode = 0%Z) /\
  (returncode <> 0%Z -> snd answer <> [] /\ ~ In 10%N (snd answer)).
Proof.
  cbv zeta. unfold git_answer.
  destruct (Z.eqb_spec returncode 0) as [->|Hrc].
  - split; [tauto | congruence].
  - set (error := str_or (strip stderr) (strip stdout)).
    split.
    { destruct (find _ (split_on 10 error)); simpl; split;
        (discriminate || congruence). }
    intros _.
    destruct (find _ (split_on 10 error)) as [line|] eqn:Ef.
    + apply find_some in Ef as [Hin Hm]. cbn [snd]. split.
      * intros ->. discriminate Hm.
      * now apply split_on_parts in Hin.
    + cbn [snd].
      set (lines := filter (fun l => truthy (strip l)) (split_on 10 error)).
      destruct lines as [|l lines'] eqn:El; cbn [nonempty].
      * split; [discriminate | cbv; intuition discriminate].
      * assert (Hin : In (last (l :: lines') []) lines).
        { rewrite El. apply last_in. discriminate. }
        apply filter_In in Hin as [Hin Ht]. split.
        -- intros E. rewrite E in Ht. discriminate Ht.
        -- now apply split_on_parts in Hin.
Qed.

End Gateway.

(* ===================================================================== *)
(** ** Commands issued *)
(* ===================================================================== *)

Section Issued.
Context {U : Unicode} {PF : Platform}.

Lemma issues_ret {A} (a : A) (P : Event -> Prop) : issues (ret a) P.
Proof. intros st. exists []. simpl. now rewrite app_nil_r. Qed.

Lemma issues_raise {A} (e : Exc) (P : Event -> Prop) :
  issues (@raise _ A e) P.
Proof. intros st. exists []. simpl. now rewrite app_nil_r. Qed.

Lemma issues_bind {A B} (m : M A) (f : A -> M B) (P : Event -> Prop) :
  issues m P -> (forall a, issues (f a) P) -> issues (bind m f) P.
Proof.
  intros Hm Hf st. unfold bind.
  destruct (Hm st) as (new1 & E1 & F1).
  destruct (m st) as [[a|e] st1]; cbn [snd] in *.
  - destruct (Hf a st1) as (new2 & E2 & F2).
    exists (new1 ++ new2). rewrite E2, E1, app_assoc. split; [reflexivity|].
    apply Forall_app. auto.
  - exists new1. auto.
Qed.

Lemma issues_run_git (args : list str) (cwd : Path) (P : Event -> Prop) :
  (forall answer, P (EvGit args cwd answer)) -> issues (run_git args cwd) P.
Proof.
  intros H st. unfold run_git.
  destruct (git args cwd (world st)) as [r w]. cbn [snd trace].
  exists [EvGit args cwd r]. split; [reflexivity|]. constructor; auto.
Qed.

Lemma issues_rmtree (p : Path) (P : Event -> Prop) :
  (forall raised, P (EvRmtree p raised)) -> issues (rmtree p) P.
Proof.
  intros H st. unfold rmtree.
  destruct (fs_rmtree p (world st)) as [r w]. cbn [snd trace].
  exists [EvRmtree p r]. split; [reflexivity|]. constructor; auto.
Qed.

(** A computation that leaves the trace as it is. *)
Lemma issues_silent {A} (m : M A) (P : Event -> Prop) :
  (forall st, trace (snd (m st)) = trace st) -> issues m P.
Proof. intros H st. exists []. rewrite app_nil_r. auto. Qed.

Lemma issues_ask {A} (q : World -> A) (P : Event -> Prop) : issues (ask q) P.
Proof. apply issues_silent. reflexivity. Qed.

Lemma issues_ask_or_raise {A} (q : World -> option A) (P : Event -> Prop) :
  issues (ask_or_raise q) P.
Proof.
  apply issues_silent. intros st. unfold ask_or_raise.
  destruct (q (world st)); reflexivity.
Qed.

Lemma issues_weaken {A} (m : M A) (P Q : Event -> Prop) :
  (forall e, P e -> Q e) -> issues m P -> issues m Q.
Proof.
  intros H Hm st. destruct (Hm st) as (new & E & F).
  exists new. split; [exact E|]. eapply Forall_impl; eauto.
Qed.

Lemma issues_for_each {A S} (body : S -> A -> M S) (P : Event -> Prop)
    (l : list A) (s : S) :
  (forall s a, In a l -> issues (body s a) P) ->
  issues (for_each body s l) P.
Proof.
  revert s. induction l as [|a l IH]; intros s H; cbn [for_each].
  - apply issues_ret.
  - apply issues_bind.
    + apply H. now left.
    + intros s'. apply IH. intros s0 a0 Hin. apply H. now right.
Qed.

End Issued.

Ltac issue_step :=
  first
    [ apply issues_ret
    | apply issues_raise
    | apply issues_ask
    | apply issues_ask_or_raise
    | apply issues_bind; [|intros ?] ].

(* ===================================================================== *)
(** ** More on the inspector *)
(* ===================================================================== *)

Section InspectorMore.
Context {U : Unicode} {PF : Platform}.

(** The trunk is looked up without a command: the state is left as it
    was, and the only exception is that of the test of [.git]. *)
Lemma get_main_branch_run (repo_path : Path) (is_worktree : bool) (st : St) :
  (exists b,
     get_main_branch repo_path is_worktree st = (Ret b, st) /\
     (b = cps "main" \/ b = cps "dev")) \/
  get_main_branch repo_path is_worktree st = (Raise OSError, st).
Proof.
  assert (A : forall b, b = cps "main" \/ b = cps "dev" ->
    (exists b', ret b st = (Ret b', st) /\
                (b' = cps "main" \/ b' = cps "dev")) \/
    ret b st = (Raise OSError, st)) by (intros b Hb; left; now exists b).
  unfold get_main_branch.
  destruct (contains (path_name repo_path) (cps "monorepo")); [auto|].
  destruct is_worktree; [|auto].
  cbv zeta. rewrite bind_ask_or_raise.
  destruct (fs_is_file _ (world st)) as [[|]|]; [|auto|now right].
  rewrite bind_ask.
  destruct (fs_read_text _ (world st)) as [text|]; [|auto].
  destruct (startswith (strip text) (cps "gitdir:")); [|auto].
  destruct (after_colon (strip text)) as [rest|]; [|auto].
  destruct (contains _ (cps "monorepo")); auto.
Qed.

(** X2. The trunk of a directory is looked up without running a command
    and without changing anything.  The look-up raises in one case only:
    for a worktree whose own name does not hold ["monorepo"], when the
    test whether [.git] is a file raises.  In every other case it answers
    ["dev"] or ["main"]: ["dev"] whenever the directory's own name holds
    ["monorepo"], ["main"] for a plain repository whose name does not. *)
Theorem get_main_branch_answers (repo_path : Path) (is_worktree : bool)
    (st : St) :
  let run := get_main_branch repo_path is_worktree st in
  let named := contains (path_name repo_path) (cps "monorepo") in
  let pointer := fs_is_file (path_join repo_path (cps ".git")) (world st) in
  snd run = st /\
  (if negb named && is_worktree && is_none pointer return Prop
   then fst run = Raise OSError
   else exists b, fst run = Ret b /\ (b = cps "main" \/ b = cps "dev")) /\
  (named = true -> fst run = Ret (cps "dev")) /\
  (is_worktree = false -> named = false -> fst run = Ret (cps "main")).
Proof.
  cbv zeta. split.
  { destruct (get_main_branch_run repo_path is_worktree st)
      as [(b & E & _) | E]; now rewrite E. }
  assert (A : forall b, b = cps "main" \/ b = cps "dev" ->
    exists b', fst (ret b st) = Ret b' /\
               (b' = cps "main" \/ b' = cps "dev"))
    by (intros b Hb; now exists b).
  unfold get_main_branch.
  destruct (contains (path_name repo_path) (cps "monorepo")); cbn [negb andb].
  { split; [auto|]. split; [reflexivity | discriminate]. }
  destruct is_worktree; cbn [andb].
  2:{ split; [auto|]. split; [discriminate | reflexivity]. }
  split; [|split; discriminate].
  cbv zeta. rewrite bind_ask_or_raise.
  destruct (fs_is_file _ (world st)) as [[|]|]; cbn [is_none];
    [|auto|reflexivity].
  rewrite bind_ask.
  destruct (fs_read_text _ (world st)) as [text|]; [|auto].
  destruct (startswith (strip text) (cps "gitdir:")); [|auto].
  destruct (after_colon (strip text)) as [rest|]; [|auto].
  destruct (contains _ (cps "monorepo")); auto.
Qed.

Lemma digits_value_nonneg (s : str) (acc z : Z) :
  (0 <= acc)%Z -> digits_value acc s = Some z -> (0 <= z)%Z.
Proof.
  revert acc. induction s as [|c s IH]; intros acc Hacc; cbn [digits_value].
  - now intros [= <-].
  - destruct (decimal_value c) as [d|]; [|discriminate].
    apply IH. pose proof (N2Z.is_nonneg d). lia.
Qed.

Lemma count_of_nonneg (ok : bool) (s : str) :
  yields (count_of ok s) (fun n => (0 <= n)%Z).
Proof.
  unfold count_of. destruct (ok && isdigit s).
  - unfold py_int, int. destruct (truthy s).
    + destruct (digits_value 0 s) as [z|] eqn:E.
      * apply yields_ret. now apply digits_value_nonneg in E.
      * apply yields_raise.
    + apply yields_raise.
  - apply yields_ret. lia.
Qed.

Lemma get_pr_status_reserved (b : str) (cwd : Path) :
  yields (get_pr_status b cwd)
    (fun s => in_tuple b [cps "main"; cps "dev"; cps "master";
                          cps "DETACHED"; cps "HEAD"] = true ->
              s = unknown).
Proof.
  unfold get_pr_status. destruct (in_tuple b _).
  - apply yields_ret. reflexivity.
  - intros st s st' _. discriminate.
Qed.

Lemma str_or_nonempty (a b : str) : b <> [] -> str_or a b <> [].
Proof. unfold str_or. destruct a; simpl; [auto | discriminate]. Qed.

(** The fields of a state the inspector produces. *)
Lemma check_repo_fields (repo_path : Path) (is_worktree : bool) :
  yields (check_repo repo_path is_worktree)
    (fun o => forall r, o = Some r ->
       (main_branch r = cps "main" \/ main_branch r = cps "dev") /\
       branch r <> [] /\
       name r = path_name repo_path /\ path r = repo_path /\
       type_label r = (if is_worktree then cps "Worktree" else cps "Repo") /\
       (if in_tuple (branch r)
             [main_branch r; cps "main"; cps "dev"; cps "master"]
        then rebase_status r = unknown
        else exists k, has_rebase_kind k (main_branch r) (rebase_status r)) /\
       (in_tuple (branch r) [cps "main"; cps "dev"; cps "master";
                             cps "DETACHED"; cps "HEAD"] = true ->
        pr_status r = unknown)).
Proof.
  unfold check_repo. cbv zeta.
  apply yields_bind with (P := fun b => b = cps "main" \/ b = cps "dev").
  { intros st b st' E.
    destruct (get_main_branch_run repo_path is_worktree st)
      as [(b' & E' & H) | E']; rewrite E' in E; [|discriminate E].
    now inversion E; subst. }
  intros trunk Htrunk. apply yields_skip; intros [ok branch0].
  destruct ok; cbn [negb]; [|apply yields_ret; discriminate].
  skip_step. apply yields_skip; intros [ok remote_check]. skip_step.
  set (b := str_or branch0 (cps "DETACHED")).
  apply yields_bind with
    (P := fun s =>
            if in_tuple b [trunk; cps "main"; cps "dev"; cps "master"]
            then s = unknown
            else exists k, has_rebase_kind k trunk s).
  - destruct (in_tuple b _).
    + apply yields_ret. reflexivity.
    + apply yields_skip; intros [ok1 ?]. destruct ok1.
      * apply yields_skip; intros [ok2 main_commit].
        apply yields_skip; intros [ok3 merge_base].
        destruct (ok2 && ok3 && str_eqb merge_base main_commit).
        -- apply yields_ret. exists Rebased. reflexivity.
        -- apply yields_skip; intros [ok4 behind_main].
           eapply yields_bind; [apply count_of_nonneg|].
           intros n Hn. apply yields_ret. exists BehindTrunk, n. auto.
      * apply yields_ret. exists NoTrunk. reflexivity.
  - intros rebase Hrebase.
    eapply yields_bind; [apply get_pr_status_reserved|].
    intros pr Hpr. skip_step.
    apply yields_ret. intros r [= <-]. cbn.
    repeat split; auto.
    apply str_or_nonempty. discriminate.
Qed.


(** X4. The inspector only looks: whatever it returns or raises, every
    command it ran is one of git's [rev-parse], [fetch], [ls-remote],
    [rev-list], [merge-base] and [status], run in the inspected
    directory, or one of the two processes that look the pull request up
    ([which gh] and [gh pr list]); it removes nothing. *)
Theorem check_repo_only_inspects (repo_path : Path) (is_worktree : bool) :
  issues (check_repo repo_path is_worktree)
    (fun e => is_inspection repo_path e \/ is_pr_lookup e).
Proof.
  set (P := fun e => is_inspection repo_path e \/ is_pr_lookup e).
  assert (G : forall args,
             In (hd [] args) inspector_commands ->
             issues (run_git args repo_path) P).
  { intros args H. apply issues_run_git. intros answer.
    left. exists args, answer. auto. }
  assert (C : forall ok s, issues (count_of ok s) P).
  { intros ok s. unfold count_of, py_int.
    destruct (ok && isdigit s); [|apply issues_ret].
    destruct (int s); [apply issues_ret | apply issues_raise]. }
  unfold check_repo. cbv zeta.
  apply issues_bind.
  { apply issues_silent. intros st.
    destruct (get_main_branch_run repo_path is_worktree st)
      as [(b & E & _) | E]; now rewrite E. }
  intros trunk.
  apply issues_bind; [apply G; simpl; auto 10|]. intros [ok branch0].
  destruct ok; cbn [negb]; [|apply issues_ret].
  apply issues_bind; [apply G; simpl; auto 10|]. intros _.
  apply issues_bind; [apply G; simpl; auto 10|]. intros [ok remote_check].
  apply issues_bind.
  { destruct (if ok then _ else false); [|apply issues_ret].
    apply issues_bind; [apply G; simpl; auto 10|]. intros [ok1 local_commit].
    apply issues_bind; [apply G; simpl; auto 10|]. intros [ok2 remote_commit].
    destruct (ok1 && ok2 && _); [apply issues_ret|].
    apply issues_bind; [apply G; simpl; auto 10|]. intros [ok3 ahead].
    apply issues_bind; [apply C|]. intros ahead'.
    apply issues_bind; [apply G; simpl; auto 10|]. intros [ok4 behind].
    apply issues_bind; [apply C|]. intros behind'. apply issues_ret. }
  intros sync. apply issues_bind.
  { destruct (in_tuple _ _); [apply issues_ret|].
    apply issues_bind; [apply G; simpl; auto 10|]. intros [ok1 ?].
    destruct ok1; [|apply issues_ret].
    apply issues_bind; [apply G; simpl; auto 10|]. intros [ok2 main_commit].
    apply issues_bind; [apply G; simpl; auto 10|]. intros [ok3 merge_base].
    destruct (ok2 && ok3 && _); [apply issues_ret|].
    apply issues_bind; [apply G; simpl; auto 10|]. intros [ok4 behind_main].
    apply issues_bind; [apply C|]. intros n. apply issues_ret. }
  intros rebase. apply issues_bind.
  { unfold get_pr_status.
    destruct (in_tuple _ _); [apply issues_ret|].
    apply issues_bind.
    - intros st. unfold run_which_gh.
      destruct (which_gh (world st)) as [[code|] w];
        exists [EvProcess [cps "which"; cps "gh"]];
        (split; [reflexivity|]);
        (apply Forall_cons; [|apply Forall_nil]); right; now left.
    - intros code. destruct (negb _); [apply issues_ret|].
      intros st. unfold run_gh_pr_list.
      destruct (hosting_pr_status _ _ (world st)) as [r w].
      exists [EvProcess (gh_pr_list (str_or branch0 (cps "DETACHED")))].
      split; [reflexivity|]. apply Forall_cons; [|apply Forall_nil].
      right. right. eauto. }
  intros pr. apply issues_bind.
  { unfold has_uncommitted_changes.
    apply issues_bind; [apply G; simpl; auto 10|]. intros [ok1 output].
    apply issues_ret. }
  intros dirty. apply issues_ret.
Qed.

Lemma rebase_kind_known (k : RebaseKind) (trunk s : str) :
  has_rebase_kind k trunk s -> s <> unknown.
Proof.
  destruct k; simpl.
  - intros ->. discriminate.
  - intros (n & _ & ->). discriminate.
  - intros ->. discriminate.
Qed.

(** X5. In every state the inspector produces, the rebase status is the
    sentinel ["-"] exactly when the branch is the trunk or one of
    ["main"], ["dev"], ["master"]; on any other branch it reads
    ["Rebased"], ["Behind <trunk> (-n)"] with [n] not negative, or
    ["No <trunk>"]. *)
Theorem inspector_rebase_status (repo_path : Path) (is_worktree : bool)
    (st st' : St) (r : RepoStatus) :
  check_repo repo_path is_worktree st = (Ret (Some r), st') ->
  (rebase_status r = unknown <-> on_trunk r) /\
  (~ on_trunk r ->
   exists k, has_rebase_kind k (main_branch r) (rebase_status r)).
Proof.
  intros E.
  destruct (check_repo_fields repo_path is_worktree st E eq_refl)
    as (_ & _ & _ & _ & _ & H & _).
  unfold on_trunk. rewrite <- in_tuple_In.
  destruct (in_tuple (branch r) _).
  - split; [tauto | congruence].
  - destruct H as (k & Hk). split.
    + split; [|discriminate]. intros Hu.
      now apply rebase_kind_known in Hk.
    + intros _. now exists k.
Qed.

(** X6. In every state the inspector produces, the branch name is not
    empty (a detached head reads ["DETACHED"]), the trunk is ["main"] or
    ["dev"], the name and path are those of the inspected directory, and
    no pull request is looked up (the status is ["-"]) on the trunk, on a
    reserved branch or on a detached head. *)
Theorem inspector_state_fields (repo_path : Path) (is_worktree : bool)
    (st st' : St) (r : RepoStatus) :
  check_repo repo_path is_worktree st = (Ret (Some r), st') ->
  branch r <> [] /\
  (main_branch r = cps "main" \/ main_branch r = cps "dev") /\
  name r = path_name repo_path /\ path r = repo_path /\
  (on_trunk r \/ branch r = cps "HEAD" \/ branch r = cps "DETACHED" ->
   pr_status r = unknown).
Proof.
  intros E.
  destruct (check_repo_fields repo_path is_worktree st E eq_refl)
    as (Hm & Hb & Hn & Hp & _ & _ & Hpr).
  repeat split; auto.
  intros H. apply Hpr. apply in_tuple_In.
  assert (Hcase : branch r = cps "main" \/ branch r = cps "dev" \/
                  branch r = cps "master" \/ branch r = cps "DETACHED" \/
                  branch r = cps "HEAD").
  { destruct H as [[H | [H | [H | [H | []]]]] | [H | H]]; auto 10.
    rewrite <- H. destruct Hm as [Hm | Hm]; auto. }
  simpl. intuition.
Qed.

End InspectorMore.

(* ===================================================================== *)
(** ** The eligibility engine on the inspector's statuses *)
(* ===================================================================== *)

(** A code point that a text built from literals and decimal numbers does
    not hold. *)
Ltac absent_char :=
  let H := fresh "H" in
  intros H;
  repeat (apply in_app_or in H; destruct H as [H|H]);
  try (apply str_of_int_chars in H; destruct H as [H|H];
       [discriminate H | lia]);
  cbv in H; intuition discriminate.

Section Decisions.
Context {U : Unicode} {PF : Platform}.

(** Which of the words the engine looks for each kind of status holds. *)
Lemma kind_words (k : SyncKind) (s : str) :
  has_kind k s ->
  contains s (cps "Behind") = match k with Behind => true | _ => false end /\
  contains s (cps "Diverged") = match k with Diverged => true | _ => false end /\
  contains s (cps "Ahead") = match k with Ahead => true | _ => false end /\
  str_eqb s (cps "Synced") = match k with Synced => true | _ => false end /\
  str_eqb s (cps "-") = false.
Proof.
  destruct k; cbn [has_kind].
  - intros ->. repeat split; reflexivity.
  - intros (n & _ & ->). repeat split; try reflexivity.
    + change (cps "Behind") with (66%N :: cps "ehind").
      apply contains_absent. absent_char.
    + change (cps "Diverged") with (68%N :: cps "iverged").
      apply contains_absent. absent_char.
  - intros (n & _ & ->). repeat split; try reflexivity.
    + change (cps "Diverged") with (68%N :: cps "iverged").
      apply contains_absent. absent_char.
    + change (cps "Ahead") with (65%N :: cps "head").
      apply contains_absent. absent_char.
  - intros (a & b & _ & _ & ->). repeat split; try reflexivity.
    + change (cps "Behind") with (66%N :: cps "ehind").
      apply contains_absent. absent_char.
    + change (cps "Ahead") with (65%N :: cps "head").
      apply contains_absent. absent_char.
Qed.

(** X7. With a remote branch, pull is decided by the kind of the status:
    only a Behind status can be pulled, and then only with a clean tree
    (the reason is ["has uncommitted changes"] otherwise); for Synced,
    Ahead and Diverged alike the reason is ["already synced"]. *)
Theorem pull_decided_by_kind (r : RepoStatus) (k : SyncKind) :
  remote_exists r = true ->
  has_kind k (sync_status r) ->
  why_not_pull r =
  match k with
  | Behind =>
      if has_changes r then Some (cps "has uncommitted changes") else None
  | _ => Some (cps "already synced")
  end.
Proof.
  intros Hr Hk. apply kind_words in Hk as (Hb & Hd & _).
  unfold why_not_pull. rewrite Hr, Hb, Hd. destruct k; reflexivity.
Qed.

(** X8. With a remote branch, force-push is refused on ["main"],
    ["master"] and ["dev"] whatever the status; on any other branch it is
    eligible exactly for an Ahead or a Diverged status, and the reason is
    ["nothing to push"] for Synced and Behind. *)
Theorem force_push_decided_by_kind (r : RepoStatus) (k : SyncKind) :
  remote_exists r = true ->
  has_kind k (sync_status r) ->
  (protected r -> why_not_force_push r = Some (cps "protected branch")) /\
  (~ protected r ->
   why_not_force_push r =
   match k with
   | Ahead | Diverged => None
   | Synced | Behind => Some (cps "nothing to push")
   end).
Proof.
  intros Hr Hk. apply kind_words in Hk as (_ & Hd & Ha & _).
  unfold protected. rewrite <- in_tuple_In.
  unfold why_not_force_push. rewrite Hr, Hd, Ha. cbn [negb].
  destruct (in_tuple (branch r) _).
  - split; [reflexivity | congruence].
  - split; [discriminate|]. intros _. destruct k; reflexivity.
Qed.

(** X9. A repository eligible for delete-local has nothing left to save:
    it is eligible neither for pull, nor for force-push, nor for stash, nor
    for discard, nor for create-remote. *)
Theorem delete_local_excludes_the_rest (r : RepoStatus) :
  can_delete_local r = true ->
  can_pull r = false /\ can_force_push r = false /\ can_stash r = false /\
  can_discard r = false /\ can_create_remote r = false.
Proof.
  unfold can_delete_local, why_not_delete_local.
  destruct (remote_exists r) eqn:Hr; [|discriminate].
  destruct (has_changes r) eqn:Hc; [discriminate|]. cbn [negb].
  destruct (str_eqb (sync_status r) (cps "Synced")) eqn:Hs; [|discriminate].
  intros _. apply str_eqb_eq in Hs.
  unfold can_pull, why_not_pull, can_force_push, why_not_force_push,
    can_stash, why_not_stash, can_discard, why_not_discard,
    can_create_remote, why_not_create_remote.
  rewrite Hr, Hc, Hs. cbn [negb].
  repeat split; try reflexivity.
  destruct (in_tuple (branch r) _); reflexivity.
Qed.

(** Which of the words the display looks for each rebase status holds, on
    the trunks the inspector knows. *)
Lemma rebase_kind_words (k : RebaseKind) (trunk s : str) :
  trunk = cps "main" \/ trunk = cps "dev" ->
  has_rebase_kind k trunk s ->
  contains s (cps "Behind")
    = match k with BehindTrunk => true | _ => false end /\
  contains s (cps "No ") = match k with NoTrunk => true | _ => false end /\
  str_eqb s (cps "Rebased") = match k with Rebased => true | _ => false end /\
  str_eqb s (cps "-") = false.
Proof.
  intros Ht. destruct k; cbn [has_rebase_kind].
  - intros ->. repeat split; reflexivity.
  - intros (n & _ & ->). repeat split; try reflexivity.
    change (cps "No ") with (78%N :: cps "o ").
    apply contains_absent. destruct Ht as [-> | ->]; absent_char.
  - intros ->. destruct Ht as [-> | ->]; repeat split; reflexivity.
Qed.

(** X10. In every state the inspector produces, rebase is eligible
    exactly when the branch is neither the trunk nor a reserved name, the
    tree is clean, and either the status is Behind, or it is Synced or the
    no-remote sentinel while the rebase status reads
    ["Behind <trunk> (-n)"]. *)
Theorem inspector_rebase_decision (repo_path : Path) (is_worktree : bool)
    (st st' : St) (r : RepoStatus) :
  check_repo repo_path is_worktree st = (Ret (Some r), st') ->
  (can_rebase r = true <->
   ~ on_trunk r /\ has_changes r = false /\
   (has_kind Behind (sync_status r) \/
    ((sync_status r = cps "Synced" \/ sync_status r = unknown) /\
     has_rebase_kind BehindTrunk (main_branch r) (rebase_status r)))).
Proof.
  intros E.
  pose proof (check_repo_sync repo_path is_worktree st E eq_refl) as Hsync.
  destruct (check_repo_fields repo_path is_worktree st E eq_refl)
    as (Hm & _ & _ & _ & _ & Hreb & _).
  unfold on_trunk. rewrite <- in_tuple_In.
  unfold can_rebase, why_not_rebase. cbv zeta.
  destruct (in_tuple (branch r) _) eqn:Htrunk.
  { split; [discriminate | intros (H & _); congruence]. }
  destruct Hreb as (kr & Hkr).
  destruct (@rebase_kind_words kr _ _ Hm Hkr) as (Hrb & _).
  destruct (has_changes r).
  { split; [discriminate | intros (_ & H & _); congruence]. }
  assert (Hw : (exists k, has_kind k (sync_status r)) \/
               sync_status r = unknown).
  { destruct (remote_exists r); auto. }
  assert (HB : contains (sync_status r) (cps "Behind") &&
               negb (contains (sync_status r) (cps "Diverged")) = true
               <-> has_kind Behind (sync_status r)).
  { destruct Hw as [(k & Hk) | Hu].
    - destruct (@kind_words k _ Hk) as (Hb & Hd & _). rewrite Hb, Hd.
      split.
      + destruct k; try discriminate. intros _. exact Hk.
      + intros H. pose proof (@has_kind_unique Behind k _ H Hk). subst k.
        reflexivity.
    - rewrite Hu. split; [discriminate|].
      intros H. apply has_kind_known in H. congruence. }
  assert (HM : in_tuple (sync_status r) [cps "Synced"; cps "-"] &&
               contains (rebase_status r) (cps "Behind") = true
               <-> (sync_status r = cps "Synced" \/ sync_status r = unknown) /\
                   has_rebase_kind BehindTrunk (main_branch r)
                                   (rebase_status r)).
  { rewrite andb_true_iff, in_tuple_In. split.
    - intros (Hin & Hc). split.
      + destruct Hin as [<- | [<- | []]]; auto.
      + rewrite Hrb in Hc. destruct kr; try discriminate. exact Hkr.
    - intros ([-> | ->] & Hk); (split; [simpl; auto|]);
        apply (@rebase_kind_words BehindTrunk _ _ Hm Hk). }
  rewrite <- HB, <- HM, <- orb_true_iff.
  destruct (_ || _); cbn.
  - split; [|reflexivity]. intros _. split; [discriminate|].
    split; reflexivity.
  - split; [discriminate|]. intros (_ & _ & H). exact H.
Qed.

End Decisions.

(* ===================================================================== *)
(** ** The table's colours *)
(* ===================================================================== *)

Section Colours.
Context {U : Unicode} {PF : Platform}.

(** X11. Every status of one of the four kinds is shown unchanged in the
    style of its kind: green for Synced, yellow for Ahead, red for Behind,
    bold red for Diverged (the test for Diverged comes before the one for
    Behind); none is left without a style. *)
Theorem colorize_sync_by_kind (k : SyncKind) (s : str) :
  has_kind k s ->
  colorize_sync s = {| plain := s; style := sync_style k |} /\
  style (colorize_sync s) <> [].
Proof.
  intros Hk. destruct (@kind_words k _ Hk) as (Hb & Hd & Ha & Hs & Hu).
  assert (E : colorize_sync s = {| plain := s; style := sync_style k |}).
  { unfold colorize_sync. rewrite Hs, Hu, Hd, Hb, Ha.
    destruct k; reflexivity. }
  split; [exact E|]. rewrite E. destruct k; discriminate.
Qed.

(** X12. Every rebase status the inspector writes is shown unchanged and
    in a style: dim for the sentinel of a trunk branch, green for
    ["Rebased"], red for ["Behind <trunk> (-n)"], dim yellow for
    ["No <trunk>"]. *)
Theorem colorize_rebase_of_inspected (repo_path : Path) (is_worktree : bool)
    (st st' : St) (r : RepoStatus) :
  check_repo repo_path is_worktree st = (Ret (Some r), st') ->
  let shown := colorize_rebase (rebase_status r) in
  plain shown = rebase_status r /\
  style shown <> [] /\
  (on_trunk r -> style shown = cps "dim") /\
  (forall k, has_rebase_kind k (main_branch r) (rebase_status r) ->
             style shown = rebase_style k).
Proof.
  intros E. cbv zeta.
  destruct (check_repo_fields repo_path is_worktree st E eq_refl)
    as (Hm & _ & _ & _ & _ & Hreb & _).
  assert (K : forall k,
             has_rebase_kind k (main_branch r) (rebase_status r) ->
             colorize_rebase (rebase_status r) =
             {| plain := rebase_status r; style := rebase_style k |}).
  { intros k Hk.
    destruct (@rebase_kind_words k _ _ Hm Hk) as (Hb & Hn & Hr & Hu).
    unfold colorize_rebase. rewrite Hr, Hu, Hb, Hn. destruct k; reflexivity. }
  unfold on_trunk. rewrite <- in_tuple_In.
  destruct (in_tuple (branch r) _).
  - rewrite Hreb. repeat split; try reflexivity; try discriminate.
    intros k Hk. apply rebase_kind_known in Hk. congruence.
  - destruct Hreb as (k & Hk). rewrite (K k Hk). cbn [plain style].
    split; [reflexivity|]. split; [destruct k; discriminate|].
    split; [discriminate|].
    intros k' Hk'. pose proof (K k' Hk') as E'. rewrite (K k Hk) in E'.
    now inversion E'.
Qed.

End Colours.

(* ===================================================================== *)
(** ** The mutating procedures *)
(* ===================================================================== *)

Section ProcedureFacts.
Context {U : Unicode} {PF : Platform}.

(** Runs the git commands of a procedure one after the other, whatever
    they answer. *)
Ltac run_commands :=
  repeat first
    [ rewrite bind_run_git; cbn [world trace]
    | match goal with
      | |- context [git ?a ?p ?w] =>
          destruct (git a p w) as [[[|] ?] ?]; cbn [fst snd negb andb]
      end ].

Ltac message_not_empty :=
  first
    [ discriminate
    | apply str_or_nonempty; discriminate
    | let E := fresh "E" in
      intros E; apply app_eq_nil in E as [E _]; discriminate E ].

(** The procedures that only run git commands return a verdict and a
    message that is not empty; they never raise. *)
Lemma git_procedures_return (proc : RepoStatus -> M (bool * str))
    (repo : RepoStatus) (st : St) :
  In proc git_procedures ->
  exists ok message,
    fst (proc repo st) = Ret (ok, message) /\ message <> [].
Proof.
  unfold git_procedures. intros H.
  repeat (destruct H as [<- | H]); [..|destruct H].
  - unfold pull_rebase. run_commands;
      (eexists; eexists; split; [reflexivity | message_not_empty]).
  - unfold rebase_on_main. rewrite bind_run_git.
    destruct (_ && _); cbv zeta; run_commands;
      (eexists; eexists; split; [reflexivity | message_not_empty]).
  - unfold force_push. run_commands;
      (eexists; eexists; split; [reflexivity | message_not_empty]).
  - unfold create_remote. run_commands;
      (eexists; eexists; split; [reflexivity | message_not_empty]).
  - unfold stash_changes. run_commands;
      (eexists; eexists; split; [reflexivity | message_not_empty]).
  - unfold discard_changes. run_commands;
      (eexists; eexists; split; [reflexivity | message_not_empty]).
  - unfold reset_to_remote. run_commands;
      (eexists; eexists; split; [reflexivity | message_not_empty]).
Qed.

(** X13. Pull runs [git fetch origin], then [git pull --rebase origin
    <branch>] on the world the fetch left, whether or not the fetch
    succeeded.  When the pull succeeds nothing else is run; when it fails,
    [git rebase --abort] is run and the failure carries the pull's
    diagnostic, or ["Pull failed"] when that is empty. *)
Theorem pull_rebase_aborts_on_failure (repo : RepoStatus) (st : St) :
  let fetch_args := [cps "fetch"; cps "origin"] in
  let pull_args := [cps "pull"; cps "--rebase"; cps "origin"; branch repo] in
  let abort_args := [cps "rebase"; cps "--abort"] in
  let fetched := git fetch_args (path repo) (world st) in
  let pulled := git pull_args (path repo) (snd fetched) in
  let aborted := git abort_args (path repo) (snd pulled) in
  let fetch := EvGit fetch_args (path repo) (fst fetched) in
  let pull := EvGit pull_args (path repo) (fst pulled) in
  let abort := EvGit abort_args (path repo) (fst aborted) in
  pull_rebase repo st =
  if fst (fst pulled) return Res (bool * str) * St then
    (Ret (true, cps "Pulled successfully"),
     {| world := snd pulled; trace := trace st ++ [fetch; pull] |})
  else
    (Ret (false, if truthy (snd (fst pulled)) return str
                 then snd (fst pulled) else cps "Pull failed"),
     {| world := snd aborted; trace := trace st ++ [fetch; pull; abort] |}).
Proof.
  cbv zeta. unfold pull_rebase. rewrite bind_run_git.
  destruct (git _ (path repo) (world st)) as [fetched w1].
  cbn [fst snd]. rewrite bind_run_git. cbn [world trace].
  destruct (git _ (path repo) w1) as [[ok output] w2].
  cbn [fst snd]. destruct ok.
  - cbn [ret]. now rewrite <- app_assoc.
  - rewrite bind_run_git. cbn [world trace].
    destruct (git _ (path repo) w2) as [aborted w3].
    cbn [ret fst snd]. now rewrite <- !app_assoc.
Qed.

(** X14. Rebase/sync runs [git fetch origin], then exactly one of two
    commands: the pull with rebase when the status reads Behind and not
    Diverged, the rebase onto [origin/<trunk>] otherwise.  When that
    command succeeds nothing else is run.  When it fails, [git rebase
    --abort] is run and failure is returned with the command's
    diagnostic, or with ["Pull failed"] or ["Rebase failed"] when that is
    empty. *)
Theorem rebase_on_main_picks_one (repo : RepoStatus) (st : St) :
  let fetch_args := [cps "fetch"; cps "origin"] in
  let step_args :=
    if behind_remote repo return list str
    then [cps "pull"; cps "--rebase"; cps "origin"; branch repo]
    else [cps "rebase"; cps "origin/" ++ main_branch repo] in
  let abort_args := [cps "rebase"; cps "--abort"] in
  let fetched := git fetch_args (path repo) (world st) in
  let stepped := git step_args (path repo) (snd fetched) in
  let aborted := git abort_args (path repo) (snd stepped) in
  let fetch := EvGit fetch_args (path repo) (fst fetched) in
  let step := EvGit step_args (path repo) (fst stepped) in
  let abort := EvGit abort_args (path repo) (fst aborted) in
  rebase_on_main repo st =
  if fst (fst stepped) return Res (bool * str) * St then
    (Ret (true,
          if behind_remote repo return str
          then cps "Pulled from origin/" ++ branch repo
          else cps "Rebased on origin/" ++ main_branch repo),
     {| world := snd stepped; trace := trace st ++ [fetch; step] |})
  else
    (Ret (false,
          if truthy (snd (fst stepped)) return str then snd (fst stepped)
          else if behind_remote repo return str then cps "Pull failed"
          else cps "Rebase failed"),
     {| world := snd aborted; trace := trace st ++ [fetch; step; abort] |}).
Proof.
  cbv zeta. unfold rebase_on_main. rewrite bind_run_git.
  destruct (git _ (path repo) (world st)) as [fetched w1].
  cbn [fst snd]. fold (behind_remote repo).
  destruct (behind_remote repo); cbv zeta.
  - rewrite bind_run_git. cbn [world trace].
    destruct (git _ (path repo) w1) as [[ok output] w2].
    cbn [fst snd]. destruct ok; cbn [negb].
    + cbn [ret]. now rewrite <- app_assoc.
    + rewrite bind_run_git. cbn [world trace].
      destruct (git _ (path repo) w2) as [aborted w3].
      cbn [ret fst snd]. now rewrite <- !app_assoc.
  - rewrite bind_run_git. cbn [world trace].
    destruct (git _ (path repo) w1) as [[ok output] w2].
    cbn [fst snd]. destruct ok.
    + cbn [ret]. now rewrite <- app_assoc.
    + rewrite bind_run_git. cbn [world trace].
      destruct (git _ (path repo) w2) as [aborted w3].
      cbn [ret fst snd]. now rewrite <- !app_assoc.
Qed.

(** X15. Discard always runs both of its commands, [git checkout -- .]
    and then [git clean -fd] on the world the checkout left, even when
    the first fails; it reports success exactly when both succeeded. *)
Theorem discard_changes_runs_both (repo : RepoStatus) (st : St) :
  let revert_args := [cps "checkout"; cps "--"; cps "."] in
  let clean_args := [cps "clean"; cps "-fd"] in
  let reverted := git revert_args (path repo) (world st) in
  let cleaned := git clean_args (path repo) (snd reverted) in
  discard_changes repo st =
  (Ret (if fst (fst reverted) && fst (fst cleaned) return bool * str
        then (true, cps "Changes discarded")
        else (false, cps "Discard failed")),
   {| world := snd cleaned;
      trace := trace st ++
               [EvGit revert_args (path repo) (fst reverted);
                EvGit clean_args (path repo) (fst cleaned)] |}).
Proof.
  cbv zeta. unfold discard_changes. rewrite bind_run_git.
  destruct (git _ (path repo) (world st)) as [[ok1 out1] w1].
  cbn [fst snd]. rewrite bind_run_git. cbn [world trace].
  destruct (git _ (path repo) w1) as [[ok2 out2] w2].
  cbn [fst snd]. rewrite <- app_assoc.
  destruct (ok1 && ok2); reflexivity.
Qed.

Ltac issue_commands :=
  repeat first
    [ apply issues_ret
    | apply issues_bind;
      [ apply issues_run_git; intros ?; do 2 eexists; reflexivity
      | intros [[|] ?]; cbn [negb andb] ] ].

(** X16. The procedures of pull, rebase/sync, force-push, create-remote,
    stash, discard and reset-to-remote never raise: each returns a verdict
    and a message, and the message is never empty.  All they run is git
    commands in the repository's own directory. *)
Theorem git_procedures_report (proc : RepoStatus -> M (bool * str))
    (repo : RepoStatus) :
  In proc git_procedures ->
  (forall st, exists ok message,
     fst (proc repo st) = Ret (ok, message) /\ message <> []) /\
  issues (proc repo) (in_repository repo).
Proof.
  intros H. split.
  - intros st. now apply git_procedures_return.
  - unfold git_procedures in H.
    repeat (destruct H as [<- | H]); [..|destruct H].
    + unfold pull_rebase. issue_commands.
    + unfold rebase_on_main. apply issues_bind;
        [apply issues_run_git; intros ?; do 2 eexists; reflexivity|].
      intros _. destruct (_ && _); cbv zeta; issue_commands.
    + unfold force_push. issue_commands.
    + unfold create_remote. issue_commands.
    + unfold stash_changes. issue_commands.
    + unfold discard_changes. issue_commands.
    + unfold reset_to_remote. issue_commands.
Qed.

End ProcedureFacts.

(* ===================================================================== *)
(** ** Sorting the tables *)
(* ===================================================================== *)

Section StableSort.
Variables (A K : Type) (ltb : K -> K -> bool) (key : A -> K).
Hypothesis ltb_irrefl : forall a, ltb a a = false.
Hypothesis ltb_trans :
  forall a b c, ltb a b = true -> ltb b c = true -> ltb a c = true.
Hypothesis ltb_total :
  forall a b, ltb a b = false -> ltb b a = false -> a = b.

Lemma ltb_asym (a b : K) : ltb a b = true -> ltb b a = false.
Proof.
  intros H. destruct (ltb b a) eqn:E; [|reflexivity].
  rewrite <- (ltb_irrefl a). symmetry. now apply ltb_trans with b.
Qed.

Lemma in_order_trans (x y z : A) :
  in_order ltb key x y -> in_order ltb key y z -> in_order ltb key x z.
Proof.
  unfold in_order. intros Hxy Hyz.
  destruct (ltb (key z) (key x)) eqn:E; [|reflexivity].
  destruct (ltb (key x) (key y)) eqn:Exy.
  - rewrite <- Hyz. symmetry. now apply ltb_trans with (key x).
  - rewrite (@ltb_total _ _ Hxy Exy) in Hyz. congruence.
Qed.

Lemma insert_by_perm (x : A) (l : list A) :
  Permutation (insert_by ltb key x l) (x :: l).
Proof.
  induction l as [|y l IH]; simpl; [reflexivity|].
  destruct (ltb (key y) (key x)); [|reflexivity].
  rewrite IH. apply perm_swap.
Qed.

Lemma sorted_perm (l : list A) : Permutation (sorted ltb key l) l.
Proof.
  induction l as [|x l IH]; simpl; [reflexivity|].
  rewrite insert_by_perm. now constructor.
Qed.

Lemma insert_by_ordered (x : A) (l : list A) :
  StronglySorted (in_order ltb key) l ->
  StronglySorted (in_order ltb key) (insert_by ltb key x l).
Proof.
  induction 1 as [|y l Hs IH Hy]; simpl.
  - constructor; constructor.
  - destruct (ltb (key y) (key x)) eqn:E.
    + constructor; [exact IH|].
      rewrite Forall_forall in *. intros z Hz.
      apply (Permutation_in _ (insert_by_perm x l)) in Hz.
      destruct Hz as [<- | Hz]; [|now apply Hy].
      now apply ltb_asym.
    + constructor; [now constructor|].
      constructor; [exact E|].
      rewrite Forall_forall in *. intros z Hz.
      apply in_order_trans with y; [exact E | now apply Hy].
Qed.

Lemma sorted_ordered (l : list A) :
  StronglySorted (in_order ltb key) (sorted ltb key l).
Proof.
  induction l as [|x l IH]; simpl; [constructor|].
  now apply insert_by_ordered.
Qed.

Lemma same_key_eq (x y : A) :
  same_key ltb key x y = true -> key x = key y.
Proof.
  unfold same_key. rewrite andb_true_iff, !negb_true_iff.
  intros (H1 & H2). now apply ltb_total.
Qed.

Lemma insert_by_stable (z x : A) (l : list A) :
  filter (same_key ltb key z) (insert_by ltb key x l) =
  filter (same_key ltb key z) (x :: l).
Proof.
  induction l as [|y l IH]; [reflexivity|].
  cbn [insert_by]. destruct (ltb (key y) (key x)) eqn:E; [|reflexivity].
  cbn [filter] in *. rewrite IH.
  destruct (same_key ltb key z x) eqn:Ex, (same_key ltb key z y) eqn:Ey;
    try reflexivity.
  apply same_key_eq in Ex, Ey. rewrite <- Ex, Ey, ltb_irrefl in E.
  discriminate.
Qed.

Lemma sorted_stable (z : A) (l : list A) :
  filter (same_key ltb key z) (sorted ltb key l) =
  filter (same_key ltb key z) l.
Proof.
  induction l as [|x l IH]; [reflexivity|].
  cbn [sorted fold_right]. fold (sorted ltb key l).
  rewrite insert_by_stable. cbn [filter]. now rewrite IH.
Qed.

End StableSort.

(** The order of strings and of the two kinds of keys. *)

Lemma str_ltb_irrefl (a : str) : str_ltb a a = false.
Proof.
  induction a as [|x a IH]; [reflexivity|].
  simpl. now rewrite N.ltb_irrefl, N.eqb_refl, IH.
Qed.

Lemma str_ltb_trans (a b c : str) :
  str_ltb a b = true -> str_ltb b c = true -> str_ltb a c = true.
Proof.
  revert b c. induction a as [|x a IH]; intros [|y b] [|z c]; simpl;
    try discriminate; try reflexivity.
  destruct (N.ltb_spec x y), (N.eqb_spec x y), (N.ltb_spec y z),
    (N.eqb_spec y z), (N.ltb_spec x z), (N.eqb_spec x z);
    simpl; try discriminate; try reflexivity; try lia.
  apply IH.
Qed.

Lemma str_ltb_total (a b : str) :
  str_ltb a b = false -> str_ltb b a = false -> a = b.
Proof.
  revert b. induction a as [|x a IH]; intros [|y b]; simpl;
    try discriminate; try reflexivity.
  destruct (N.ltb_spec x y), (N.eqb_spec x y), (N.ltb_spec y x),
    (N.eqb_spec y x); simpl; try discriminate; try lia.
  intros Hab Hba. subst. f_equal. now apply IH.
Qed.

Lemma key_ltb_irrefl (a : Z * Z * str) : key_ltb a a = false.
Proof.
  destruct a as [[a1 a2] a3]. unfold key_ltb.
  now rewrite !Z.ltb_irrefl, !Z.eqb_refl, str_ltb_irrefl.
Qed.

Lemma key_ltb_trans (a b c : Z * Z * str) :
  key_ltb a b = true -> key_ltb b c = true -> key_ltb a c = true.
Proof.
  destruct a as [[a1 a2] a3], b as [[b1 b2] b3], c as [[c1 c2] c3].
  unfold key_ltb.
  destruct (Z.ltb_spec a1 b1), (Z.eqb_spec a1 b1), (Z.ltb_spec b1 c1),
    (Z.eqb_spec b1 c1), (Z.ltb_spec a1 c1), (Z.eqb_spec a1 c1);
    simpl; try discriminate; try reflexivity; try lia.
  destruct (Z.ltb_spec a2 b2), (Z.eqb_spec a2 b2), (Z.ltb_spec b2 c2),
    (Z.eqb_spec b2 c2), (Z.ltb_spec a2 c2), (Z.eqb_spec a2 c2);
    simpl; try discriminate; try reflexivity; try lia.
  apply str_ltb_trans.
Qed.

Lemma key_ltb_total (a b : Z * Z * str) :
  key_ltb a b = false -> key_ltb b a = false -> a = b.
Proof.
  destruct a as [[a1 a2] a3], b as [[b1 b2] b3]. unfold key_ltb.
  destruct (Z.ltb_spec a1 b1), (Z.eqb_spec a1 b1), (Z.ltb_spec b1 a1),
    (Z.eqb_spec b1 a1); simpl; try discriminate; try lia.
  destruct (Z.ltb_spec a2 b2), (Z.eqb_spec a2 b2), (Z.ltb_spec b2 a2),
    (Z.eqb_spec b2 a2); simpl; try discriminate; try lia.
  intros Hab Hba. subst. f_equal. now apply str_ltb_total.
Qed.

Lemma pr_key_ltb_irrefl (a : Z * str * Z) : pr_key_ltb a a = false.
Proof.
  destruct a as [[a1 a2] a3]. unfold pr_key_ltb.
  now rewrite !Z.ltb_irrefl, Z.eqb_refl, str_ltb_irrefl, str_eqb_refl.
Qed.

Lemma str_eqb_false_ne (a b : str) : str_eqb a b = false -> a <> b.
Proof. intros H E. subst. now rewrite str_eqb_refl in H. Qed.

Lemma pr_key_ltb_trans (a b c : Z * str * Z) :
  pr_key_ltb a b = true -> pr_key_ltb b c = true -> pr_key_ltb a c = true.
Proof.
  destruct a as [[a1 a2] a3], b as [[b1 b2] b3], c as [[c1 c2] c3].
  unfold pr_key_ltb.
  destruct (Z.ltb_spec a1 b1), (Z.eqb_spec a1 b1), (Z.ltb_spec b1 c1),
    (Z.eqb_spec b1 c1), (Z.ltb_spec a1 c1), (Z.eqb_spec a1 c1);
    simpl; try discriminate; try reflexivity; try lia.
  destruct (str_ltb a2 b2) eqn:Lab, (str_ltb b2 c2) eqn:Lbc; simpl.
  - intros _ _. now rewrite (str_ltb_trans _ _ _ Lab Lbc).
  - destruct (str_eqb b2 c2) eqn:Ebc; [|discriminate].
    apply str_eqb_eq in Ebc. subst c2. intros _ _. now rewrite Lab.
  - destruct (str_eqb a2 b2) eqn:Eab; [|discriminate].
    apply str_eqb_eq in Eab. subst b2. intros _ _. now rewrite Lbc.
  - destruct (str_eqb a2 b2) eqn:Eab; [|discriminate].
    destruct (str_eqb b2 c2) eqn:Ebc; [|discriminate].
    apply str_eqb_eq in Eab, Ebc. subst. rewrite Lab, str_eqb_refl. simpl.
    rewrite !Z.ltb_lt. lia.
Qed.

Lemma pr_key_ltb_total (a b : Z * str * Z) :
  pr_key_ltb a b = false -> pr_key_ltb b a = false -> a = b.
Proof.
  destruct a as [[a1 a2] a3], b as [[b1 b2] b3]. unfold pr_key_ltb.
  destruct (Z.ltb_spec a1 b1), (Z.eqb_spec a1 b1), (Z.ltb_spec b1 a1),
    (Z.eqb_spec b1 a1); simpl; try discriminate; try lia.
  destruct (str_ltb a2 b2) eqn:Lab; [discriminate|].
  destruct (str_ltb b2 a2) eqn:Lba; [discriminate|].
  pose proof (str_ltb_total _ _ Lab Lba). subst b2.
  rewrite str_eqb_refl. simpl. rewrite !Z.ltb_ge. intros. subst.
  repeat f_equal. lia.
Qed.

Lemma StronglySorted_weaken {A} (R Q : A -> A -> Prop) (l : list A) :
  (forall a b, R a b -> Q a b) -> StronglySorted R l -> StronglySorted Q l.
Proof.
  intros H. induction 1 as [|a l Hs IH Ha]; constructor; [exact IH|].
  eapply Forall_impl; [|exact Ha]. intros b. apply H.
Qed.

Section TableOrder.
Context {U : Unicode} {PF : Platform}.

(** X17. The sorted table holds the same repositories as the scan, each
    once; they stand in the order of their keys (rebase need, then sync
    need, then lower-cased name); in particular every repository whose
    rebase status reads Behind stands before every one whose does not. *)
Theorem sort_repos_ordered (repos : list RepoStatus) :
  Permutation (_sort_repos repos) repos /\
  StronglySorted (in_order key_ltb sort_key) (_sort_repos repos) /\
  StronglySorted
    (fun a b => contains (rebase_status b) (cps "Behind") = true ->
                contains (rebase_status a) (cps "Behind") = true)
    (_sort_repos repos).
Proof.
  unfold _sort_repos.
  assert (S : StronglySorted (in_order key_ltb sort_key)
                             (sorted key_ltb sort_key repos)).
  { apply sorted_ordered.
    - apply key_ltb_irrefl.
    - apply key_ltb_trans.
    - apply key_ltb_total. }
  split; [apply sorted_perm|]. split; [exact S|].
  eapply StronglySorted_weaken; [|exact S].
  intros a b Hab Hb. unfold in_order, sort_key, key_ltb in Hab.
  rewrite Hb in Hab.
  destruct (contains (rebase_status a) (cps "Behind")); [reflexivity|].
  destruct (contains (rebase_status a) (cps "No ")); discriminate Hab.
Qed.

(** X18. Sorting the table is stable: repositories whose keys compare
    equal keep the order the scan gave them. *)
Theorem sort_repos_stable (repos : list RepoStatus) (z : RepoStatus) :
  filter (same_key key_ltb sort_key z) (_sort_repos repos) =
  filter (same_key key_ltb sort_key z) repos.
Proof.
  unfold _sort_repos. apply sorted_stable.
  - apply key_ltb_irrefl.
  - intros a b Ha Hb. now apply key_ltb_total.
Qed.

End TableOrder.

Section PullRequestOrder.
Context {U : Unicode} {PF : Platform}.

(** X19. The sorted pull-request table holds the same pull requests as
    the query, each once, in the order of their keys (local status, then
    lower-cased repository name, then greater number first); pull requests
    that are not cloned stand before all others; and pull requests whose
    keys compare equal keep their order. *)
Theorem sort_prs_ordered (prs : list PRStatus) :
  Permutation (_sort_prs prs) prs /\
  StronglySorted (in_order pr_key_ltb pr_sort_key) (_sort_prs prs) /\
  StronglySorted
    (fun a b => local_status b = cps "Not cloned" ->
                local_status a = cps "Not cloned")
    (_sort_prs prs) /\
  (forall z, filter (same_key pr_key_ltb pr_sort_key z) (_sort_prs prs) =
             filter (same_key pr_key_ltb pr_sort_key z) prs).
Proof.
  unfold _sort_prs.
  assert (S : StronglySorted (in_order pr_key_ltb pr_sort_key)
                             (sorted pr_key_ltb pr_sort_key prs)).
  { apply sorted_ordered.
    - apply pr_key_ltb_irrefl.
    - apply pr_key_ltb_trans.
    - apply pr_key_ltb_total. }
  split; [apply sorted_perm|]. split; [exact S|]. split.
  - eapply StronglySorted_weaken; [|exact S].
    intros a b Hab Hb. unfold in_order, pr_sort_key, pr_key_ltb in Hab.
    rewrite Hb in Hab. change (str_eqb (cps "Not cloned") (cps "Not cloned"))
      with true in Hab. cbv iota in Hab.
    destruct (str_eqb (local_status a) (cps "Not cloned")) eqn:Ea.
    + now apply str_eqb_eq in Ea.
    + destruct (str_eqb (local_status a) (cps "Available"));
        discriminate Hab.
  - intros z. apply sorted_stable.
    + apply pr_key_ltb_irrefl.
    + intros a b Ha Hb. now apply pr_key_ltb_total.
Qed.

End PullRequestOrder.

(* ===================================================================== *)
(** ** The batch executor *)
(* ===================================================================== *)

Section Executor.
Context {U : Unicode} {PF : Platform}.

Lemma filter_partition_perm {A} (f : A -> bool) (l : list A) :
  Permutation (filter f l ++ filter (fun x => negb (f x)) l) l.
Proof.
  induction l as [|x l IH]; [reflexivity|].
  cbn [filter]. destruct (f x); cbn [negb].
  - cbn. now constructor.
  - rewrite <- Permutation_middle. now constructor.
Qed.

(** X20. For each of the eight batch actions, the selected repositories
    are split in two without loss or repetition: the eligible ones, for
    which the engine gives no reason, and the skipped ones, each reported
    with the engine's reason, which is never missing.  Both keep the order
    of the selection. *)
Theorem executor_splits_selection
    (check_fn : RepoStatus -> bool) (reason_fn : RepoStatus -> option str)
    (selected : list RepoStatus) :
  In (check_fn, reason_fn) engine_actions ->
  let eligible := eligible_of check_fn selected in
  let skipped := skipped_of check_fn reason_fn selected in
  Permutation (eligible ++ map fst skipped) selected /\
  Forall (fun r => reason_fn r = None) eligible /\
  Forall (fun x => snd x = reason_fn (fst x) /\ snd x <> None) skipped.
Proof.
  intros Hin. cbv zeta.
  assert (C : forall r, check_fn r = is_none (reason_fn r)).
  { unfold engine_actions in Hin.
    repeat (destruct Hin as [[= <- <-] | Hin]; [reflexivity|]).
    destruct Hin. }
  unfold eligible_of, skipped_of. split; [|split].
  - rewrite map_map. cbn [fst]. rewrite map_id.
    apply filter_partition_perm.
  - apply Forall_forall. intros r Hr. apply filter_In in Hr as [_ Hr].
    rewrite C in Hr. now destruct (reason_fn r).
  - apply Forall_forall. intros x Hx. apply in_map_iff in Hx.
    destruct Hx as (r & <- & Hr). apply filter_In in Hr as [_ Hr].
    cbn [fst snd]. split; [reflexivity|].
    rewrite C in Hr. now destruct (reason_fn r).
Qed.

(** X21. A batch of pull, rebase/sync, force-push, create-remote, stash,
    discard or reset-to-remote always runs to its end: whatever fails on
    the way, it returns one result for each eligible repository, in order
    and under the repository's name, each with a message that is not
    empty. *)
Theorem do_action_reports_each (proc : RepoStatus -> M (bool * str))
    (eligible : list RepoStatus) (st : St) :
  In proc git_procedures ->
  exists results,
    fst (do_action proc eligible st) = Ret results /\
    map (fun x => fst (fst x)) results = map name eligible /\
    Forall (fun x => snd x <> []) results.
Proof.
  intros Hp. unfold do_action.
  assert (G : forall l acc st0,
    Forall (fun x : str * bool * str => snd x <> []) acc ->
    exists results,
      fst (for_each
             (fun results repo =>
                bind (proc repo)
                  (fun x => let (ok, message) := x in
                            ret (results ++ [(name repo, ok, message)])))
             acc l st0) = Ret results /\
      map (fun x => fst (fst x)) results =
        map (fun x => fst (fst x)) acc ++ map name l /\
      Forall (fun x => snd x <> []) results).
  { induction l as [|repo l IH]; intros acc st0 Hacc.
    - exists acc. cbn. rewrite app_nil_r. auto.
    - cbn [for_each].
      destruct (git_procedures_return repo st0 Hp) as (ok & m & E & Hm).
      destruct (proc repo st0) as [res st1] eqn:Ep. cbn [fst] in E. subst res.
      erewrite bind_of_run; [|erewrite bind_of_run by exact Ep; reflexivity].
      destruct (IH (acc ++ [(name repo, ok, m)]) st1) as (results & E & Hn & Hf).
      { apply Forall_app. split; [exact Hacc|]. constructor; auto. }
      exists results. split; [exact E|]. split; [|exact Hf].
      rewrite Hn, map_app, <- app_assoc. reflexivity. }
  destruct (G eligible [] st) as (results & E & Hn & Hf); [constructor|].
  exists results. auto.
Qed.

(** What delete-local runs for one repository: git commands, and the
    removal of that repository's own directory. *)
Lemma delete_local_folder_issues (repo : RepoStatus) :
  issues (delete_local_folder repo)
    (fun e => forall p raised, e = EvRmtree p raised -> p = path repo).
Proof.
  assert (G : forall args cwd,
             issues (run_git args cwd)
               (fun e => forall p raised,
                           e = EvRmtree p raised -> p = path repo)).
  { intros args cwd. apply issues_run_git. intros answer p raised.
    discriminate. }
  assert (R : forall done,
             issues (rmtree_reporting repo done)
               (fun e => forall p raised,
                           e = EvRmtree p raised -> p = path repo)).
  { intros done. unfold rmtree_reporting. apply issues_bind.
    - apply issues_rmtree. intros raised p raised' [= <- _]. reflexivity.
    - intros [e|]; apply issues_ret. }
  unfold delete_local_folder.
  destruct (str_eqb (type_label repo) (cps "Worktree")); [|apply R].
  cbv zeta. apply issues_bind; [apply G|]. intros [ok git_dir].
  destruct (ok && truthy git_dir); [|apply R].
  apply issues_bind; [apply issues_ask_or_raise|]. intros is_file.
  destruct is_file; [|apply R].
  apply issues_bind; [apply issues_ask_or_raise|]. intros text.
  destruct (startswith (strip text) (cps "gitdir:")); [|apply R].
  apply issues_bind.
  { unfold index_1. destruct (after_colon (strip text));
      [apply issues_ret | apply issues_raise]. }
  intros rest. apply issues_bind; [apply issues_ask_or_raise|]. intros main_exists.
  destruct main_exists; [|apply R].
  apply issues_bind; [apply G|]. intros [ok2 output].
  destruct ok2; apply issues_ret.
Qed.

(** X22. Whatever a batch of delete-local does, and even when it raises,
    the only directories it removes itself are those of selected
    repositories whose state shows a remote branch, a clean tree and the
    status ["Synced"]. *)
Theorem batch_delete_removes_only_synced (selected : list RepoStatus) :
  issues
    (do_action delete_local_folder (eligible_of can_delete_local selected))
    (fun e => forall p raised,
       e = EvRmtree p raised ->
       exists r, In r selected /\ p = path r /\ safe_to_delete r).
Proof.
  unfold do_action. apply issues_for_each.
  intros results repo Hin. unfold eligible_of in Hin.
  apply filter_In in Hin as [Hin Hcan].
  assert (Hsafe : safe_to_delete repo).
  { unfold can_delete_local, why_not_delete_local in Hcan. unfold safe_to_delete.
    destruct (remote_exists repo); [|discriminate].
    destruct (has_changes repo); [discriminate|]. cbn [negb] in Hcan.
    destruct (str_eqb (sync_status repo) (cps "Synced")) eqn:Hs;
      [|discriminate].
    apply str_eqb_eq in Hs. auto. }
  apply issues_bind.
  - eapply issues_weaken; [|apply delete_local_folder_issues].
    intros e He p raised Ee. exists repo. split; [exact Hin|].
    split; [now apply He with raised | exact Hsafe].
  - intros [ok message]. apply issues_ret.
Qed.

End Executor.

(* ===================================================================== *)
(** ** Branch and worktree provisioning *)
(* ===================================================================== *)

Section Provisioning.
Context {U : Unicode} {PF : Platform}.

Lemma blank_test (s : str) :
  negb (truthy s) || negb (truthy (strip s)) = true <-> strip s = [].
Proof.
  destruct s as [|c s]; [split; reflexivity|].
  cbn [truthy negb orb]. destruct (strip (c :: s)); cbn; split;
    congruence.
Qed.

(** X23. Creating a branch and worktree checks before it acts.  A blank
    name is refused with nothing run.  Otherwise the local branches are
    listed, and a hit ends the procedure; then the remote heads are
    listed, and a hit ends it; then the target path, a sibling of the
    repository named [<name>-<branch with slashes replaced>], is tested:
    an existing path ends the procedure, and a test that raises leaves it
    with [OSError].  In none of these cases is a worktree added.  Only
    after the three checks is [git worktree add -b] run, and the verdict
    is that command's. *)
Theorem create_branch_worktree_checks_first (repo : RepoStatus)
    (branch_name : str) (st : St) :
  let b := strip branch_name in
  let target :=
    path_join (path_parent (path repo))
              (name repo ++ cps "-" ++ sanitize_branch_for_path b) in
  let list_args := [cps "branch"; cps "--list"; b] in
  let probe_args := [cps "ls-remote"; cps "--heads"; cps "origin"; b] in
  let add_args :=
    [cps "worktree"; cps "add"; cps "-b"; b; path_str target] in
  let g1 := git list_args (path repo) (world st) in
  let g2 := git probe_args (path repo) (snd g1) in
  let g3 := git add_args (path repo) (snd g2) in
  let listed := EvGit list_args (path repo) (fst g1) in
  let probed := EvGit probe_args (path repo) (fst g2) in
  let added := EvGit add_args (path repo) (fst g3) in
  create_branch_worktree repo branch_name st =
  if truthy b return Res (bool * str) * St then
    if fst (fst g1) && truthy (snd (fst g1)) return Res (bool * str) * St then
      (Ret (false, cps "Branch '" ++ b ++ cps "' already exists"),
       {| world := snd g1; trace := trace st ++ [listed] |})
    else if fst (fst g2) && contains (snd (fst g2)) b
         return Res (bool * str) * St then
      (Ret (false, cps "Remote branch 'origin/" ++ b ++
                   cps "' already exists"),
       {| world := snd g2; trace := trace st ++ [listed; probed] |})
    else
      match fs_exists target (snd g2) return Res (bool * str) * St with
      | None =>
          (Raise OSError,
           {| world := snd g2; trace := trace st ++ [listed; probed] |})
      | Some true =>
          (Ret (false, cps "Path already exists: " ++ path_str target),
           {| world := snd g2; trace := trace st ++ [listed; probed] |})
      | Some false =>
          (Ret (if fst (fst g3) return bool * str
                then (true, cps "Created worktree at " ++ path_str target)
                else (false, cps "Worktree creation failed: " ++
                             snd (fst g3))),
           {| world := snd g3;
              trace := trace st ++ [listed; probed; added] |})
      end
  else (Ret (false, cps "Branch name cannot be empty"), st).
Proof.
  cbv zeta. unfold create_branch_worktree.
  destruct (negb (truthy branch_name) || negb (truthy (strip branch_name)))
    eqn:Eb.
  { apply blank_test in Eb. rewrite Eb. reflexivity. }
  assert (Hb : truthy (strip branch_name) = true).
  { apply orb_false_elim in Eb as [_ Hb]. now apply negb_false_iff in Hb. }
  rewrite Hb. cbv zeta. rewrite bind_run_git.
  destruct (git _ (path repo) (world st)) as [[ok1 existing] w1].
  cbn [fst snd]. destruct (ok1 && truthy existing); [reflexivity|].
  rewrite bind_run_git. cbn [world trace].
  destruct (git _ (path repo) w1) as [[ok2 remote_existing] w2].
  cbn [fst snd]. destruct (ok2 && contains remote_existing _).
  { cbn [ret]. now rewrite <- app_assoc. }
  rewrite bind_ask_or_raise. cbn [world].
  destruct (fs_exists _ w2) as [[|]|].
  - cbn [ret]. now rewrite <- app_assoc.
  - rewrite bind_run_git. cbn [world trace].
    destruct (git _ (path repo) w2) as [[ok3 output] w3].
    cbn [fst snd]. rewrite <- !app_assoc. destruct ok3; reflexivity.
  - now rewrite <- app_assoc.
Qed.

(** X24. The folder name made from a branch name holds no slash: every
    slash of the branch name is replaced by a hyphen and nothing else is
    changed, so the length is kept, a name without slashes is left as it
    is, and replacing twice is replacing once. *)
Theorem sanitize_branch_is_flat (b : str) :
  ~ In 47%N (sanitize_branch_for_path b) /\
  List.length (sanitize_branch_for_path b) = List.length b /\
  (~ In 47%N b -> sanitize_branch_for_path b = b) /\
  sanitize_branch_for_path (sanitize_branch_for_path b) =
    sanitize_branch_for_path b.
Proof.
  unfold sanitize_branch_for_path. split; [|split; [|split]].
  - intros H. apply in_map_iff in H as (c & Hc & _).
    destruct (N.eqb_spec c 47); [discriminate Hc | congruence].
  - apply length_map.
  - intros H. rewrite <- (map_id b) at 2. apply map_ext_in.
    intros c Hc. destruct (N.eqb_spec c 47); [|reflexivity].
    subst. contradiction.
  - rewrite map_map. apply map_ext. intros c.
    destruct (N.eqb_spec c 47) as [->|Hc]; [reflexivity|].
    destruct (N.eqb_spec c 47); [contradiction | reflexivity].
Qed.

End Provisioning.

(* ===================================================================== *)
(** ** Feature branches and their numbers *)
(* ===================================================================== *)

(** The decimal text of a number has as many code points as the number has
    digits, and a number with [d] digits is below [10 ^ d]. *)

Lemma uint_cps_length (u : Decimal.uint) :
  List.length (uint_cps u) = Decimal.nb_digits u.
Proof. induction u; simpl; congruence. Qed.

Lemma of_uint_acc_bound (d : Decimal.uint) (acc : positive) :
  (Z.pos (Pos.of_uint_acc d acc) <
   (Z.pos acc + 1) * 10 ^ Z.of_nat (Decimal.nb_digits d))%Z.
Proof.
  revert acc. induction d; intros acc; cbn [Pos.of_uint_acc Decimal.nb_digits];
    [rewrite Z.pow_0_r; lia | ..];
    rewrite Nat2Z.inj_succ, Z.pow_succ_r by lia;
    match goal with
    | |- (Z.pos (Pos.of_uint_acc _ ?a) < _)%Z =>
        specialize (IHd a);
        assert (Ha : (Z.pos a + 1 <= 10 * (Z.pos acc + 1))%Z)
          by lia
    end;
    assert (Hp : (0 < 10 ^ Z.of_nat (Decimal.nb_digits d))%Z)
      by (apply Z.pow_pos_nonneg; lia);
    nia.
Qed.

Lemma of_uint_bound (d : Decimal.uint) :
  (Z.of_N (Pos.of_uint d) < 10 ^ Z.of_nat (Decimal.nb_digits d))%Z.
Proof.
  induction d; cbn [Pos.of_uint Decimal.nb_digits];
    [rewrite Z.pow_0_r; lia | ..];
    rewrite Nat2Z.inj_succ, Z.pow_succ_r by lia;
    assert (Hp : (0 < 10 ^ Z.of_nat (Decimal.nb_digits d))%Z)
      by (apply Z.pow_pos_nonneg; lia);
    [lia | ..];
    match goal with
    | |- (Z.of_N (N.pos (Pos.of_uint_acc _ ?a)) < _)%Z =>
        pose proof (of_uint_acc_bound d a)
    end;
    cbn [Z.of_N]; nia.
Qed.

Lemma str_of_int_long (n : Z) :
  (1000 <= n)%Z -> (4 <= List.length (str_of_int n))%nat.
Proof.
  intros Hn. unfold str_of_int.
  pose proof (DecimalZ.of_to n) as E.
  destruct (Z.to_int n) as [u|u] eqn:Eu.
  - rewrite uint_cps_length. cbn in E.
    pose proof (of_uint_bound u) as B. unfold Z.of_uint in E.
    rewrite E in B.
    destruct (Decimal.nb_digits u) as [|[|[|[|k]]]]; cbn in B; lia.
  - exfalso. destruct n; cbn in Eu; try discriminate. lia.
Qed.

Section FeatureNames.
Context {U : Unicode}.

Lemma three_digits_below_1000 (n : Z) :
  (0 <= n < 1000)%Z -> three_digits n = true.
Proof.
  intros Hn.
  assert (H : forallb (fun k => three_digits (Z.of_nat k)) (seq 0 1000) = true)
    by (vm_compute; reflexivity).
  rewrite forallb_forall in H.
  rewrite <- (Z2Nat.id n) by lia. apply H. apply in_seq. lia.
Qed.

(** X25. The branch name of a new feature carries its number back to the
    numbering as long as the number is below 1000: the three digits
    written in front of the suffix are read as that number by the next
    scan.  From 1000 on the name starts with four digits, which the scan
    does not take for a number. *)
Theorem speckit_branch_carries_number (n : Z) (description : str) :
  (0 <= n)%Z ->
  prefix_number (speckit_branch_name n description) =
  if (n <? 1000)%Z then Some n else None.
Proof.
  intros Hn. unfold speckit_branch_name. cbv zeta.
  destruct (Z.ltb_spec n 1000) as [Hlt | Hge].
  - pose proof (three_digits_below_1000 (conj Hn Hlt)) as H.
    unfold three_digits in H.
    destruct (format_03d n) as [|a [|b [|c [|d rest]]]]; try discriminate.
    apply andb_true_iff in H as [H Hv].
    unfold prefix_number. cbn [app match_feature_prefix].
    rewrite H.
    change (cps "-") with [45%N]. cbn [app].
    rewrite N.eqb_refl. cbn [andb].
    destruct (int [a; b; c]) as [v|]; [|discriminate].
    apply Z.eqb_eq in Hv. now subst.
  - unfold format_03d. destruct (Z.ltb_spec n 0); [lia|].
    pose proof (str_of_int_long Hge) as Hl.
    replace (3 - List.length (str_of_int n))%nat with 0%nat by lia.
    cbn [repeat app].
    assert (Hd : forall c, In c (str_of_int n) -> (c =? 45)%N = false).
    { intros c Hc. unfold str_of_int in Hc.
      destruct (Z.to_int n) as [u|u] eqn:Eu.
      - apply uint_cps_digits in Hc. apply N.eqb_neq. lia.
      - destruct n; cbn in Eu; try discriminate. lia. }
    destruct (str_of_int n) as [|a [|b [|c [|d rest]]]];
      cbn [List.length] in Hl; try lia.
    unfold prefix_number. cbn [app match_feature_prefix].
    rewrite (Hd d) by (cbn; auto). now rewrite andb_false_r.
Qed.

End FeatureNames.
Section FeatureWorktrees.
Context {U : Unicode} {PF : Platform} {SF : SpecFiles}.






End FeatureWorktrees.

(* ===================================================================== *)
(** ** Pull requests and their local copies *)
(* ===================================================================== *)

Section Detection.
Context {U : Unicode} {PF : Platform}.

Lemma detect_loop_answers (pr_branch repo_name : str) (all items : list Path) :
  incl items all ->
  forall (main wt : option Path) (st : St) (old : list Event),
    (forall q, main = Some q ->
       In q all /\ Exists (names_repository repo_name q) old) ->
    (forall q, wt = Some q ->
       In q all /\ Exists (names_repository repo_name q) old) ->
    (main = None -> wt = None ->
       Forall (fun e => forall q, ~ names_repository repo_name q e) old) ->
    exists new,
      trace (snd (detect_loop pr_branch repo_name items main wt st)) =
        trace st ++ new /\
      Forall (is_detection all) new /\
      detection_outcome repo_name all (old ++ new)
        (fst (detect_loop pr_branch repo_name items main wt st)).
Proof.
  induction items as [|item rest IH]; intros Hin main wt st old Hm Hw Hn.
  - cbn [detect_loop]. exists []. rewrite !app_nil_r.
    destruct main as [q|]; [|destruct wt as [q|]];
      (split; [reflexivity|]); (split; [constructor|]); cbn.
    + destruct (Hm q eq_refl) as [Hq Hx]. auto.
    + destruct (Hw q eq_refl) as [Hq Hx]. auto.
    + auto.
  - assert (Hitem : In item all) by (apply Hin; now left).
    assert (Hrest : incl rest all)
      by (intros q Hq; apply Hin; now right).
    specialize (IH Hrest).
    assert (Step : forall main' wt' st' evs,
      trace st' = trace st ++ evs ->
      Forall (is_detection all) evs ->
      (forall q, main' = Some q ->
         In q all /\ Exists (names_repository repo_name q) (old ++ evs)) ->
      (forall q, wt' = Some q ->
         In q all /\ Exists (names_repository repo_name q) (old ++ evs)) ->
      (main' = None -> wt' = None ->
         Forall (fun e => forall q, ~ names_repository repo_name q e)
                (old ++ evs)) ->
      exists new,
        trace (snd (detect_loop pr_branch repo_name rest main' wt' st')) =
          trace st ++ new /\
        Forall (is_detection all) new /\
        detection_outcome repo_name all (old ++ new)
          (fst (detect_loop pr_branch repo_name rest main' wt' st'))).
    { intros main' wt' st' evs Et Fe Hm' Hw' Hn'.
      destruct (IH main' wt' st' (old ++ evs) Hm' Hw' Hn')
        as (new & Etr & Fn & Hp).
      exists (evs ++ new).
      rewrite Etr, Et, <- app_assoc. split; [reflexivity|].
      split; [apply Forall_app; auto|].
      rewrite app_assoc. exact Hp. }
    assert (Keep : forall evs q,
      Exists (names_repository repo_name q) old ->
      Exists (names_repository repo_name q) (old ++ evs)).
    { intros evs q Hx. apply Exists_app. now left. }
    assert (Stop : forall st' evs,
      trace st' = trace st ++ evs ->
      Forall (is_detection all) evs ->
      ~ tests_answer all ->
      exists new,
        trace (snd (@Raise (str * option Path) OSError, st')) =
          trace st ++ new /\
        Forall (is_detection all) new /\
        detection_outcome repo_name all (old ++ new)
          (fst (@Raise (str * option Path) OSError, st'))).
    { intros st' evs Et Fe Hno. exists evs. cbn. auto. }
    cbn [detect_loop]. cbv zeta. rewrite bind_ask_or_raise.
    destruct (fs_is_dir item (world st)) as [[|]|] eqn:Edir; cbn [negb].
    3:{ apply (Stop st []); rewrite ?app_nil_r; auto.
        intros T. now destruct (T item (world st) Hitem). }
    2:{ apply (Step main wt st []); rewrite ?app_nil_r; auto. }
    rewrite bind_ask_or_raise.
    destruct (fs_exists (path_join item (cps ".git")) (world st))
      as [[|]|] eqn:Egit; cbn [negb].
    3:{ apply (Stop st []); rewrite ?app_nil_r; auto.
        intros T. now destruct (T item (world st) Hitem). }
    2:{ apply (Step main wt st []); rewrite ?app_nil_r; auto. }
    rewrite bind_run_git.
    destruct (git [cps "remote"; cps "get-url"; cps "origin"] item (world st))
      as [[ok remote_url] w1].
    cbn [fst snd].
    set (e1 := EvGit [cps "remote"; cps "get-url"; cps "origin"] item
                     (ok, remote_url)).
    assert (D1 : is_detection all e1).
    { exists origin_url_args, item, (ok, remote_url).
      repeat split; auto. }
    destruct (negb ok || negb (contains remote_url repo_name)) eqn:Eskip.
    { apply (Step main wt _ [e1]); auto.
      - intros q Hq. destruct (Hm q Hq). auto.
      - intros q Hq. destruct (Hw q Hq). auto.
      - intros E1 E2. apply Forall_app. split; [auto|].
        constructor; [|constructor].
        intros q (url & E & Hc). inversion E; subst.
        rewrite Hc in Eskip. discriminate. }
    apply orb_false_elim in Eskip as [Eok Ec].
    apply negb_false_iff in Eok, Ec. subst ok.
    assert (N1 : names_repository repo_name item e1).
    { exists remote_url. split; [reflexivity | exact Ec]. }
    rewrite bind_run_git. cbn [world trace].
    destruct (git [cps "branch"; cps "--show-current"] item w1)
      as [[ok2 current_branch] w2].
    cbn [fst snd].
    set (e2 := EvGit [cps "branch"; cps "--show-current"] item
                     (ok2, current_branch)).
    assert (D2 : is_detection all e2).
    { exists current_branch_args, item, (ok2, current_branch).
      repeat split; auto. }
    assert (Found : forall evs,
      Exists (names_repository repo_name item) (old ++ e1 :: evs)).
    { intros evs. apply Exists_app. right. now constructor. }
    destruct (str_eqb _ pr_branch).
    { exists [e1; e2]. cbn [ret fst snd trace]. rewrite <- app_assoc.
      split; [reflexivity|]. split; [auto|]. cbn. auto. }
    destruct (str_eqb (path_name item) repo_name).
    { apply (Step (Some item) wt _ [e1; e2]); auto.
      - cbn [trace]. now rewrite <- app_assoc.
      - intros q Hq. inversion Hq; subst. auto.
      - intros q Hq. destruct (Hw q Hq). auto.
      - discriminate. }
    destruct wt as [p|].
    + apply (Step main (Some p) _ [e1; e2]); auto.
      * cbn [trace]. now rewrite <- app_assoc.
      * intros q Hq. destruct (Hm q Hq). auto.
      * intros q Hq. destruct (Hw q Hq). auto.
      * discriminate.
    + apply (Step main (Some item) _ [e1; e2]); auto.
      * cbn [trace]. now rewrite <- app_assoc.
      * intros q Hq. destruct (Hm q Hq). auto.
      * intros q Hq. inversion Hq; subst. auto.
      * discriminate.
Qed.

(** Entries that are no directories are passed over without a command. *)
Lemma detect_loop_passes (pr_branch repo_name : str)
    (skipped items : list Path) (main wt : option Path) (st : St) :
  (forall s, In s skipped -> fs_is_dir s (world st) = Some false) ->
  detect_loop pr_branch repo_name (skipped ++ items) main wt st =
  detect_loop pr_branch repo_name items main wt st.
Proof.
  induction skipped as [|s skipped IH]; intros H; [reflexivity|].
  cbn [app detect_loop]. cbv zeta. rewrite bind_ask_or_raise.
  rewrite (H s (or_introl eq_refl)). cbn [negb].
  apply IH. intros s' Hs. apply H. now right.
Qed.

(** X27. When the scan directory can be listed, looking for a pull
    request's branch among its entries asks each of them two questions at
    most (its origin URL, its current branch).  The answer is a path with
    [Checked out] or [Available], and then the path is a listed entry
    whose origin URL holds the repository's name; or it is no path with
    [Not cloned], and then no origin URL that was read holds the name.
    The search raises only [OSError], and only when a test of an entry
    ([is_dir()], or [exists()] on its [.git]) can raise.  An entry that
    follows only entries that are no directories, and that is a
    repository whose origin URL holds the name and whose current branch
    is the pull request's, is answered at once as [Checked out], after
    its two questions and nothing else. *)
Theorem detect_pr_local_status_answers (pr_branch repo_name : str)
    (scan_dir : Path) (st : St) (items : list Path) :
  fs_iterdir scan_dir (world st) = Some items ->
  let run := detect_pr_local_status pr_branch repo_name scan_dir st in
  (exists new,
     trace (snd run) = trace st ++ new /\
     Forall (is_detection items) new /\
     detection_outcome repo_name items new (fst run)) /\
  (forall skipped item rest,
     items = skipped ++ item :: rest ->
     (forall s, In s skipped -> fs_is_dir s (world st) = Some false) ->
     fs_is_dir item (world st) = Some true ->
     fs_exists (path_join item (cps ".git")) (world st) = Some true ->
     let url := git origin_url_args item (world st) in
     let current := git current_branch_args item (snd url) in
     fst (fst url) = true ->
     contains (snd (fst url)) repo_name = true ->
     (if fst (fst current) then strip (snd (fst current)) else []) =
       pr_branch ->
     run =
     (Ret (cps "Checked out", Some item),
      {| world := snd current;
         trace := trace st ++
                  [EvGit origin_url_args item (fst url);
                   EvGit current_branch_args item (fst current)] |})).
Proof.
  intros Hl. cbv zeta. unfold detect_pr_local_status.
  rewrite bind_ask_or_raise, Hl. split.
  - apply (@detect_loop_answers pr_branch repo_name items items
             (incl_refl items) None None st []).
    + discriminate.
    + discriminate.
    + constructor.
  - intros skipped item rest -> Hskip Hdir Hgit.
    rewrite detect_loop_passes by exact Hskip.
    cbn [detect_loop]. cbv zeta.
    rewrite bind_ask_or_raise, Hdir. cbn [negb].
    rewrite bind_ask_or_raise, Hgit. cbn [negb].
    rewrite bind_run_git. unfold origin_url_args, current_branch_args.
    destruct (git [cps "remote"; cps "get-url"; cps "origin"] item (world st))
      as [[ok remote_url] w1].
    cbn [fst snd]. intros -> Hc. rewrite Hc. cbn [negb orb].
    rewrite bind_run_git. cbn [world trace].
    destruct (git [cps "branch"; cps "--show-current"] item w1)
      as [[ok2 current_branch] w2].
    cbn [fst snd]. intros ->. rewrite str_eqb_refl.
    cbn [ret]. now rewrite <- app_assoc.
Qed.

End Detection.

Section Cloning.
Context {U : Unicode} {PF : Platform}.

Lemma not_a_clone (c : string) (args : list str) (cwd : Path)
    (answer : bool * str) :
  str_eqb (cps c) (cps "clone") = false ->
  ~ is_clone (EvGit (cps c :: args) cwd answer).
Proof.
  intros Hc (args' & cwd' & answer' & E). inversion E as [[Ec Ea Ew Ex]].
  rewrite Ec, str_eqb_refl in Hc. discriminate.
Qed.

(** X28. Cloning for a pull request clones only a repository that is
    absent.  When the test of the repository's directory raises, nothing
    is run.  When the directory exists no clone is run.  Otherwise the SSH
    address is cloned first, the HTTPS address only after the SSH clone
    failed, and when both fail nothing else is run and the second
    diagnostic is returned.  The procedure raises nothing but [OSError]
    (from a path test); when it returns, the worktree path is given
    exactly with success, and it is the entry
    [<repo>-<branch with slashes replaced>] of the scan directory. *)
Theorem clone_only_when_absent (repo_full_name pr_branch : str)
    (scan_dir : Path) (st : St) :
  let repo_name := last (split_on 47 repo_full_name) [] in
  let main_repo_path := path_join scan_dir repo_name in
  let target :=
    path_join scan_dir
      (repo_name ++ cps "-" ++ sanitize_branch_for_path pr_branch) in
  let ssh_args :=
    [cps "clone"; cps "git@github.com:" ++ repo_full_name ++ cps ".git";
     path_str main_repo_path] in
  let https_args :=
    [cps "clone"; cps "https://github.com/" ++ repo_full_name ++ cps ".git";
     path_str main_repo_path] in
  let ssh := git ssh_args scan_dir (world st) in
  let https := git https_args scan_dir (snd ssh) in
  let by_ssh := EvGit ssh_args scan_dir (fst ssh) in
  let by_https := EvGit https_args scan_dir (fst https) in
  let run := clone_repo_with_worktree repo_full_name pr_branch scan_dir st in
  exists new,
    trace (snd run) = trace st ++ new /\
    match fst run return Prop with
    | Ret (ok, message, p) => p = (if ok then Some target else None)
    | Raise e => e = OSError
    end /\
    match fs_exists main_repo_path (world st) return Prop with
    | None => run = (Raise OSError, st)
    | Some true => Forall (fun e => ~ is_clone e) new
    | Some false =>
        if fst (fst ssh) return Prop
        then exists rest,
               new = by_ssh :: rest /\ Forall (fun e => ~ is_clone e) rest
        else if fst (fst https) return Prop
        then exists rest,
               new = by_ssh :: by_https :: rest /\
               Forall (fun e => ~ is_clone e) rest
        else run =
             (Ret (false, cps "Clone failed: " ++ snd (fst https), None),
              {| world := snd https;
                 trace := trace st ++ [by_ssh; by_https] |})
    end.
Proof.
  cbv zeta. unfold clone_repo_with_worktree. cbv zeta.
  match goal with
  | |- context [bind (run_git [cps "fetch"; cps "--all"] ?m) ?k] =>
      set (after_clone := bind (run_git [cps "fetch"; cps "--all"] m) k)
  end.
  set (target := path_join scan_dir
         (last (split_on 47 repo_full_name) [] ++ cps "-" ++
          sanitize_branch_for_path pr_branch)).
  assert (After : forall st1, exists rest,
    trace (snd (after_clone st1)) = trace st1 ++ rest /\
    match fst (after_clone st1) return Prop with
    | Ret (ok, message, p) => p = (if ok then Some target else None)
    | Raise e => e = OSError
    end /\
    Forall (fun e => ~ is_clone e) rest).
  { intros st1. subst after_clone. rewrite bind_run_git.
    cbn [world trace].
    destruct (git [cps "fetch"; cps "--all"] _ (world st1)) as [r0 w0].
    cbn [fst snd]. rewrite bind_run_git. cbn [world trace].
    destruct (git [cps "branch"; cps "-r"] _ w0) as [[ok1 branches] w1].
    cbn [fst snd].
    assert (N0 : forall a, ~ is_clone
      (EvGit [cps "fetch"; cps "--all"]
             (path_join scan_dir (last (split_on 47 repo_full_name) [])) a))
      by (intros a; now apply not_a_clone).
    assert (N1 : forall a, ~ is_clone
      (EvGit [cps "branch"; cps "-r"]
             (path_join scan_dir (last (split_on 47 repo_full_name) [])) a))
      by (intros a; now apply not_a_clone).
    destruct (negb ok1 || negb (contains branches _)).
    { eexists. cbn [ret fst snd trace]. rewrite <- app_assoc.
      repeat split. repeat constructor; auto. }
    rewrite bind_ask_or_raise. cbn [world]. fold target.
    destruct (fs_exists target w1) as [[|]|].
    1:{ exists [EvGit [cps "fetch"; cps "--all"]
                  (path_join scan_dir (last (split_on 47 repo_full_name) []))
                  r0;
                EvGit [cps "branch"; cps "-r"]
                  (path_join scan_dir (last (split_on 47 repo_full_name) []))
                  (ok1, branches)].
        cbn [ret fst snd trace]. rewrite <- app_assoc.
        split; [reflexivity|]. split; [reflexivity|].
        repeat constructor; auto. }
    2:{ exists [EvGit [cps "fetch"; cps "--all"]
                  (path_join scan_dir (last (split_on 47 repo_full_name) []))
                  r0;
                EvGit [cps "branch"; cps "-r"]
                  (path_join scan_dir (last (split_on 47 repo_full_name) []))
                  (ok1, branches)].
        cbn [fst snd trace]. rewrite <- app_assoc.
        split; [reflexivity|]. split; [reflexivity|].
        repeat constructor; auto. }
    rewrite bind_run_git. cbn [world trace].
    destruct (git _ _ w1) as [[ok2 output] w2]. cbn [fst snd].
    assert (N2 : forall args cwd a, ~ is_clone
      (EvGit (cps "worktree" :: args) cwd a))
      by (intros args cwd a; now apply not_a_clone).
    destruct ok2; cbn [negb].
    { eexists. cbn [ret fst snd trace]. rewrite <- !app_assoc.
      repeat split. repeat constructor; auto. }
    rewrite bind_run_git. cbn [world trace].
    destruct (git _ _ w2) as [[ok3 output3] w3]. cbn [fst snd].
    destruct ok3; cbn [negb];
      eexists; cbn [ret fst snd trace]; rewrite <- !app_assoc;
      repeat split; repeat constructor; auto. }
  rewrite bind_ask_or_raise.
  destruct (fs_exists _ (world st)) as [[|]|]; cbn [negb].
  3:{ exists []. rewrite app_nil_r. repeat split. }
  { destruct (After st) as (rest & Et & Ep & F).
    exists rest. auto. }
  rewrite bind_run_git.
  destruct (git _ scan_dir (world st)) as [[ok1 out1] w1]. cbn [fst snd].
  destruct ok1; cbn [negb].
  { match goal with |- context [after_clone ?s] =>
      destruct (After s) as (rest & Et & Ep & F)
    end.
    eexists.
    split; [etransitivity; [exact Et|]; cbn [trace];
            rewrite <- app_assoc; reflexivity|].
    split; [exact Ep|].
    exists rest. split; [reflexivity | exact F]. }
  rewrite bind_run_git. cbn [world trace].
  destruct (git _ scan_dir w1) as [[ok2 out2] w2]. cbn [fst snd].
  destruct ok2; cbn [negb].
  { match goal with |- context [after_clone ?s] =>
      destruct (After s) as (rest & Et & Ep & F)
    end.
    eexists.
    split; [etransitivity; [exact Et|]; cbn [trace];
            rewrite <- !app_assoc; reflexivity|].
    split; [exact Ep|].
    exists rest. split; [reflexivity | exact F]. }
  eexists. cbn [ret fst snd trace]. rewrite <- app_assoc.
  repeat split.
Qed.

End Cloning.

Section Checkout.
Context {U : Unicode} {PF : Platform} {HC : Hosting}.

(** X29. Checking out a pull request whose repository is not cloned
    cannot complete.  When [clone_repo_with_worktree] returns,
    [checkout_pr_to_worktree] hands its three values back, which the loop
    of [do_checkout] unpacks into two names: [ValueError] is raised.  When
    the clone raises, so does the loop.  Either way the clone and
    worktree commands that were run stay run, and the pull requests that
    follow are not looked at. *)
Theorem do_checkout_cannot_unpack_clone (pr : PRStatus)
    (rest : list PRStatus) (scan_dir : Path) (st : St) :
  local_status pr = cps "Not cloned" ->
  pr_branch pr <> [] ->
  let cloned :=
    clone_repo_with_worktree (repo_full_name pr) (pr_branch pr) scan_dir st in
  checkout_pr_to_worktree pr scan_dir st =
    (match fst cloned with
     | Ret r => Ret (returned_triple r)
     | Raise e => Raise e
     end, snd cloned) /\
  do_checkout (pr :: rest) scan_dir st =
    (Raise (match fst cloned with
            | Ret _ => ValueError
            | Raise e => e
            end), snd cloned).
Proof.
  intros Hs Hb. cbv zeta.
  assert (E : checkout_pr_to_worktree pr scan_dir =
              bind (clone_repo_with_worktree (repo_full_name pr)
                      (pr_branch pr) scan_dir)
                   (fun r => ret (returned_triple r))).
  { unfold checkout_pr_to_worktree. rewrite Hs.
    change (str_eqb (cps "Not cloned") (cps "Checked out")) with false.
    cbv zeta. rewrite str_eqb_refl.
    destruct (pr_branch pr); [contradiction | reflexivity]. }
  assert (Eck : checkout_pr_to_worktree pr scan_dir st =
    (match fst (clone_repo_with_worktree (repo_full_name pr)
                  (pr_branch pr) scan_dir st) with
     | Ret r => Ret (returned_triple r)
     | Raise e => Raise e
     end,
     snd (clone_repo_with_worktree (repo_full_name pr)
            (pr_branch pr) scan_dir st))).
  { rewrite E. unfold bind.
    destruct (clone_repo_with_worktree _ _ _ st) as [[r|e] st1];
      reflexivity. }
  split; [exact Eck|].
  unfold do_checkout. cbn [for_each]. unfold bind. rewrite Eck.
  destruct (clone_repo_with_worktree _ _ _ st) as [[[[ok message] p]|e] st1];
    reflexivity.
Qed.

End Checkout.

Lemma str_eqb_sym (a b : str) : str_eqb a b = str_eqb b a.
Proof.
  revert b. induction a as [|x a IH]; intros [|y b]; simpl; try reflexivity.
  now rewrite N.eqb_sym, IH.
Qed.

(** X30. Every tool the settings offer has a command, and the command is
    the tool's identifier alone; any other name runs [opencode]. *)
Theorem get_ai_cli_command_of_option (cli_name : str) :
  get_ai_cli_command cli_name =
  [if existsb (str_eqb cli_name) (map fst AI_CLI_OPTIONS)
   then cli_name else cps "opencode"].
Proof.
  unfold get_ai_cli_command, AI_CLI_OPTIONS. cbv zeta.
  cbn [dict_get map fst existsb].
  rewrite !(str_eqb_sym cli_name).
  repeat match goal with
  | |- context [str_eqb (cps ?k) cli_name] =>
      let E := fresh "E" in
      destruct (str_eqb (cps k) cli_name) eqn:E;
        [apply str_eqb_eq in E; rewrite <- E; reflexivity|];
        cbn [orb]
  end.
  reflexivity.
Qed.

(* ===================================================================== *)
(** ** The further theorems at work on scripted repositories *)
(* ===================================================================== *)


Lemma inspector_rebase_status_on_diverged_repo :
  exists r,
    fst (Scripted.inspect Scripted.diverged_repo "/work/app" false)
      = Ret (Some r) /\
    rebase_status r = cps "Rebased" /\
    (rebase_status r = unknown <-> on_trunk r).
Proof.
  eexists. split; [reflexivity|]. split; [reflexivity|].
  eapply (@inspector_rebase_status Scripted.ascii_only
            (Scripted.platform Scripted.diverged_repo)
            (Scripted.parse_path (cps "/work/app")) false
            (Scripted.start Scripted.diverged_repo)
            (snd (Scripted.inspect Scripted.diverged_repo "/work/app" false))).
  vm_compute. reflexivity.
Defined.

Lemma inspector_state_fields_on_trunk_repo :
  exists r,
    fst (Scripted.inspect Scripted.trunk_repo "/work/app" false)
      = Ret (Some r) /\
    branch r <> [] /\
    (main_branch r = cps "main" \/ main_branch r = cps "dev") /\
    name r = cps "app".
Proof.
  eexists. split; [reflexivity|].
  assert (H := @inspector_state_fields Scripted.ascii_only
            (Scripted.platform Scripted.trunk_repo)
            (Scripted.parse_path (cps "/work/app")) false
            (Scripted.start Scripted.trunk_repo)
            (snd (Scripted.inspect Scripted.trunk_repo "/work/app" false))
            _ eq_refl).
  split; [apply H|]. split; [apply H|]. reflexivity.
Defined.

Lemma pull_decided_on_scripted_repo :
  let r := Scripted.status_of Scripted.diverged_repo "Repo" "/work/app"
             "login-form" true "Behind (-1)" false in
  why_not_pull r = None.
Proof.
  intros r. apply (pull_decided_by_kind r Behind).
  - reflexivity.
  - exists 1%Z. split; [lia | reflexivity].
Defined.

Lemma force_push_decided_on_scripted_repo :
  let r := Scripted.status_of Scripted.diverged_repo "Repo" "/work/app"
             "login-form" true "Ahead (+2)" false in
  why_not_force_push r = None.
Proof.
  intros r.
  assert (Hk : has_kind Ahead (sync_status r))
    by (exists 2%Z; split; [lia | reflexivity]).
  apply (proj2 (force_push_decided_by_kind r Ahead eq_refl Hk)).
  intros [H|[H|[H|[]]]]; vm_compute in H; discriminate.
Defined.

Lemma delete_local_excludes_on_scripted_repo :
  let r := Scripted.status_of Scripted.trunk_repo "Repo" "/work/app"
             "main" true "Synced" false in
  can_pull r = false /\ can_force_push r = false /\ can_stash r = false /\
  can_discard r = false /\ can_create_remote r = false.
Proof.
  intros r. apply (delete_local_excludes_the_rest r). reflexivity.
Defined.

Lemma inspector_rebase_decision_on_diverged_repo :
  exists r,
    fst (Scripted.inspect Scripted.diverged_repo "/work/app" false)
      = Ret (Some r) /\
    (can_rebase r = true <->
     ~ on_trunk r /\ has_changes r = false /\
     (has_kind Behind (sync_status r) \/
      ((sync_status r = cps "Synced" \/ sync_status r = unknown) /\
       has_rebase_kind BehindTrunk (main_branch r) (rebase_status r)))).
Proof.
  eexists. split; [reflexivity|].
  eapply (@inspector_rebase_decision Scripted.ascii_only
            (Scripted.platform Scripted.diverged_repo)
            (Scripted.parse_path (cps "/work/app")) false
            (Scripted.start Scripted.diverged_repo)
            (snd (Scripted.inspect Scripted.diverged_repo "/work/app" false))).
  vm_compute. reflexivity.
Defined.

Lemma colorize_sync_of_diverged :
  colorize_sync (cps "Diverged (+2/-3)") =
  {| plain := cps "Diverged (+2/-3)"; style := cps "bold red" |}.
Proof.
  apply (colorize_sync_by_kind Diverged (cps "Diverged (+2/-3)")).
  exists 2%Z, 3%Z. repeat split; lia.
Defined.

Lemma colorize_rebase_on_diverged_repo :
  exists r,
    fst (Scripted.inspect Scripted.diverged_repo "/work/app" false)
      = Ret (Some r) /\
    plain (colorize_rebase (rebase_status r)) = rebase_status r /\
    style (colorize_rebase (rebase_status r)) <> [].
Proof.
  eexists. split; [reflexivity|].
  assert (H := @colorize_rebase_of_inspected Scripted.ascii_only
            (Scripted.platform Scripted.diverged_repo)
            (Scripted.parse_path (cps "/work/app")) false
            (Scripted.start Scripted.diverged_repo)
            (snd (Scripted.inspect Scripted.diverged_repo "/work/app" false))
            _ eq_refl).
  split; apply H.
Defined.

Lemma pull_rebase_reports_on_scripted_repo :
  let r := Scripted.status_of Scripted.diverged_repo "Repo" "/work/app"
             "login-form" true "Behind (-1)" false in
  (forall st, exists ok message,
     fst (pull_rebase r st) = Ret (ok, message) /\ message <> []) /\
  issues (pull_rebase r) (in_repository r).
Proof.
  intros r. apply (@git_procedures_report _ pull_rebase r).
  left. reflexivity.
Defined.

Lemma executor_splits_on_scripted_repos :
  let behind := Scripted.status_of Scripted.diverged_repo "Repo" "/work/app"
             "login-form" true "Behind (-1)" false in
  let synced := Scripted.status_of Scripted.diverged_repo "Repo" "/work/lib"
             "main" true "Synced" false in
  let selected := [synced; behind] in
  Permutation
    (eligible_of can_pull selected ++
     map fst (skipped_of can_pull why_not_pull selected)) selected /\
  Forall (fun r => why_not_pull r = None) (eligible_of can_pull selected) /\
  Forall (fun x => snd x = why_not_pull (fst x) /\ snd x <> None)
         (skipped_of can_pull why_not_pull selected).
Proof.
  intros behind synced selected.
  apply (@executor_splits_selection _ can_pull why_not_pull selected).
  left. reflexivity.
Defined.

Lemma stash_reports_on_scripted_repo :
  let r := Scripted.status_of Scripted.diverged_repo "Repo" "/work/app"
             "login-form" true "Diverged (+2/-3)" true in
  exists results,
    fst (do_action stash_changes [r] (Scripted.start Scripted.diverged_repo))
      = Ret results /\
    map (fun x => fst (fst x)) results = map name [r] /\
    Forall (fun x => snd x <> []) results.
Proof.
  intros r.
  apply (@do_action_reports_each _ stash_changes [r]
           (Scripted.start Scripted.diverged_repo)).
  do 4 right. left. reflexivity.
Defined.

Lemma branch_042_carries_its_number :
  @prefix_number Scripted.ascii_only
    (@speckit_branch_name Scripted.ascii_only 42 (cps "Add OAuth login")) =
  Some 42%Z.
Proof.
  apply (@speckit_branch_carries_number Scripted.ascii_only 42%Z
           (cps "Add OAuth login")).
  lia.
Defined.

Lemma detection_on_cloned_app :
  let PF := Scripted.platform Cases.cloned_app in
  let items : list (@Path PF) :=
    [Scripted.parse_path (cps "/work/app");
     Scripted.parse_path (cps "/work/notes")] in
  fst (Cases.detect Cases.cloned_app "/work") =
    Ret (cps "Available", Some (Scripted.parse_path (cps "/work/app"))) /\
  exists new,
    trace (snd (Cases.detect Cases.cloned_app "/work")) = new /\
    Forall (@is_detection PF items) new /\
    @detection_outcome PF (cps "app") items new
      (fst (Cases.detect Cases.cloned_app "/work")).
Proof.
  intros PF items. split; [reflexivity|].
  apply (@detect_pr_local_status_answers PF (cps "login-form") (cps "app")
           (Scripted.parse_path (cps "/work"))
           (Scripted.start Cases.cloned_app) items).
  vm_compute. reflexivity.
Defined.

Lemma checkout_of_pending_pr_raises :
  fst (@do_checkout (Scripted.platform Cases.cloned_app)
         (Cases.silent_hosting Cases.cloned_app)
         [Cases.pending_pr Cases.cloned_app]
         (Scripted.parse_path (cps "/work"))
         (Scripted.start Cases.cloned_app)) = Raise ValueError.
Proof.
  rewrite (proj2 (@do_checkout_cannot_unpack_clone
             (Scripted.platform Cases.cloned_app)
             (Cases.silent_hosting Cases.cloned_app)
             (Cases.pending_pr Cases.cloned_app) []
             (Scripted.parse_path (cps "/work"))
             (Scripted.start Cases.cloned_app) eq_refl
             ltac:(discriminate))).
  reflexivity.
Defined.

Lemma long_branch_name_raises :
  let sc := Scripted.trunk_repo in
  let repo := @Build_RepoStatus (Cases.strict sc)
                (cps "app") (Scripted.parse_path (cps "/work/app"))
                (cps "Repo") (cps "main") true (cps "Synced") (cps "-")
                (cps "-") (cps "main") false in
  fst (@create_branch_worktree (Cases.strict sc) repo Cases.long_branch
         (@Build_St (Cases.strict sc) tt [])) = Raise OSError.
Proof.
  cbv zeta.
  rewrite (@create_branch_worktree_checks_first (Cases.strict Scripted.trunk_repo)).
  vm_compute. reflexivity.
Defined.
